(** * VoIP signalling: the relay (server/server.js) and the call session
      controller (webrtc-voip/src/VoIPApp.jsx, webrtc-voip/src/webrtc.js,
      unnamed/part_000)

    A shallow embedding of the signalling code.  JavaScript values are an
    inductive type, every handler is a program in a small state-and-exception
    monad over the state it mutates, and the browser's media stack (the
    collaborator) is an oracle that tells, per call site, whether the call
    throws and which description it produces. *)

From stdpp Require Import gmap strings list fin_maps pretty.
From Stdlib Require Import ZArith QArith Qround Lqa.

Close Scope Q_scope.
Open Scope string_scope.

#[local] Set Warnings "-register-all".

(** ** JavaScript values *)

(** The values the signalling code handles: what [JSON.parse] returns, plus
    [undefined].  Numbers are the integral ones ([sdpMLineIndex] is the only
    number on the wire); the code only ever tests a number for truthiness.
    What [JSON.parse] and [JSON.stringify], which work on doubles, make of a
    number that a double does not hold is outside this type; the arithmetic
    of the code itself is on the numbers of the section on numbers below. *)
Inductive value : Type :=
  | VUndefined
  | VNull
  | VBool (b : bool)
  | VNum (n : Z)
  | VStr (s : string)
  | VArr (items : list value)
  | VObj (props : list (string * value)).

(** Exceptions a handler can see. *)
Inductive Call : Type :=
  | NewRTCPeerConnection
  | AddTrack
  | CreateOffer
  | CreateAnswer
  | SetLocalDescription
  | SetRemoteDescription
  | NewRTCSessionDescription
  | NewRTCIceCandidate
  | AddIceCandidate
  | GetUserMedia.

Inductive Exn : Type :=
  | SyntaxError                 (* JSON.parse on text that is not JSON *)
  | TypeError                   (* property read on null or undefined *)
  | CollaboratorError (c : Call). (* a media-stack call threw or rejected *)

Inductive Completion (A : Type) : Type :=
  | Normal (a : A)
  | Throw (e : Exn).
Arguments Normal {A} a.
Arguments Throw {A} e.

(** [ToBoolean]. *)
Definition truthy (v : value) : bool :=
  match v with
  | VUndefined | VNull => false
  | VBool b => b
  | VNum n => negb (n =? 0)%Z
  | VStr s => negb (bool_decide (s = ""))
  | VArr _ | VObj _ => true
  end.

(** [v === s] for a string [s]. *)
Definition strict_eq_str (v : value) (s : string) : bool :=
  match v with
  | VStr t => bool_decide (t = s)
  | _ => false
  end.

Fixpoint lookup_prop (key : string) (props : list (string * value)) : value :=
  match props with
  | [] => VUndefined
  | (k, v) :: rest => if bool_decide (k = key) then v else lookup_prop key rest
  end.

(** [{...props, key: v}]: an own property keeps its place, a new one goes
    last. *)
Fixpoint set_prop (key : string) (v : value) (props : list (string * value))
  : list (string * value) :=
  match props with
  | [] => [(key, v)]
  | (k, old) :: rest =>
      if bool_decide (k = key) then (k, v) :: rest
      else (k, old) :: set_prop key v rest
  end.

(** [v.key] for the keys the code reads ([type], [target], [from], [offer],
    [answer], [candidate], [clientId], none of which a prototype defines):
    a TypeError on [null] and [undefined], [undefined] on the other
    primitives and on arrays. *)
Definition get_prop (v : value) (key : string) : Completion value :=
  match v with
  | VUndefined | VNull => Throw TypeError
  | VObj props => Normal (lookup_prop key props)
  | _ => Normal VUndefined
  end.

(** ** The wire *)

(** A frame on the signalling channel, seen through the runtime's
    [JSON.parse]: text that does not parse, or the value the text denotes. *)
Inductive Payload : Type :=
  | NotJSON (text : string)
  | JSONText (v : value).

Definition JSON_parse (text : Payload) : Completion value :=
  match text with
  | NotJSON _ => Throw SyntaxError
  | JSONText v => Normal v
  end.

(** What [JSON.stringify] keeps of a value: a property whose value is
    [undefined] is left out, an [undefined] array item becomes [null].  A
    number is kept as it is, which is so for the integers that a double
    holds exactly. *)
Fixpoint serializable (v : value) : value :=
  match v with
  | VArr items =>
      VArr (map (fun x => match x with
                          | VUndefined => VNull
                          | _ => serializable x
                          end) items)
  | VObj props =>
      VObj ((fix go (ps : list (string * value)) : list (string * value) :=
               match ps with
               | [] => []
               | (k, VUndefined) :: rest => go rest
               | (k, x) :: rest => (k, serializable x) :: go rest
               end) props)
  | other => other
  end.

Definition JSON_stringify (v : value) : Payload := JSONText (serializable v).

(** ** The handler monad: state and exceptions *)

Definition M (S A : Type) : Type := S -> Completion A * S.

Definition ret {S A} (a : A) : M S A := fun s => (Normal a, s).

Definition bind {S A B} (m : M S A) (k : A -> M S B) : M S B :=
  fun s =>
    match m s with
    | (Normal a, s') => k a s'
    | (Throw e, s') => (Throw e, s')
    end.

Definition throw {S A} (e : Exn) : M S A := fun s => (Throw e, s).

(** A JavaScript expression that either has a value or throws. *)
Definition lift {S A} (c : Completion A) : M S A := fun s => (c, s).

Definition try_catch {S A} (body : M S A) (handler : Exn -> M S A) : M S A :=
  fun s =>
    match body s with
    | (Normal a, s') => (Normal a, s')
    | (Throw e, s') => handler e s'
    end.

Definition read {S} : M S S := fun s => (Normal s, s).
Definition modify {S} (f : S -> S) : M S unit := fun s => (Normal tt, f s).

Definition exec {S} (m : M S unit) (s : S) : S := snd (m s).

Declare Scope js_scope.
Delimit Scope js_scope with js.
Notation "'let*' x := c1 'in' c2" := (bind c1 (fun x => c2))
  (at level 10, x name, c1 at level 100, c2 at level 200,
   format "'[v' 'let*'  x  :=  c1  'in' '/' c2 ']'") : js_scope.
Notation "'run' c1 'then' c2" := (bind c1 (fun _ => c2))
  (at level 10, c1 at level 100, c2 at level 200,
   format "'[v' 'run'  c1  'then' '/' c2 ']'") : js_scope.
Open Scope js_scope.

(** [l.forEach(f)]. *)
Fixpoint forEach {S A} (l : list A) (f : A -> M S unit) : M S unit :=
  match l with
  | [] => ret tt
  | x :: rest => run f x then forEach rest f
  end.

(** [m] keeps [I], however it completes. *)
Definition preserves {S A} (I : S -> Prop) (m : M S A) : Prop :=
  forall s, I s -> I (snd (m s)).

(** What a handler wrote to the console. *)
Inductive LogEntry : Type :=
  | Log (label : string) (v : value)
  | Warn (label : string) (v : value)
  | Error (label : string) (e : Exn)
  | LogText (label : string)
  | ErrorText (label : string).

(** ** Numbers *)

(** A JavaScript number is an IEEE 754 double: a finite one is a multiple of
    2^-1074 with at most 53 significant bits, and an arithmetic operation
    gives the double nearest to its exact result, a tie going to the even
    significand.  The exact results are rationals here, and the functions
    below are that rounding, for results below the overflow threshold. *)

Definition two_to (n : Z) : Q := inject_Z (2 ^ n).

(** The nearest integer, a tie going to the even one. *)
Definition nearest_even (x : Q) : Z :=
  let q := Qfloor x in
  match (x - inject_Z q ?= 1 # 2)%Q with
  | Lt => q
  | Gt => (q + 1)%Z
  | Eq => if Z.even q then q else (q + 1)%Z
  end.

(** The low bits of [x >= 0], counted in units of 2^-1074, that a
    significand of 53 bits has no room for: none for a subnormal. *)
Definition excess_bits (x : Q) : Z :=
  Z.max 0 (Z.log2 (Qfloor (x * two_to 1074)) - 52).

Definition round53_pos (x : Q) : Q :=
  let shift := excess_bits x in
  (inject_Z (nearest_even (x * two_to 1074 / two_to shift) * 2 ^ shift)
   / two_to 1074)%Q.

(** The double nearest to [x]. *)
Definition round53 (x : Q) : Q :=
  if Qle_bool 0 x then round53_pos x else (- round53_pos (- x))%Q.

(** [x] is a double. *)
Definition is_number (x : Q) : Prop := (round53 x == x)%Q.

(** [a * b] and [a + b] on numbers. *)
Definition number_mul (a b : Q) : Q := round53 (a * b).
Definition number_add (a b : Q) : Q := round53 (a + b).

(** The multiple [K * 2^s] of 2^-1074. *)
Definition grid (s K : Z) : Q := (inject_Z (K * 2 ^ s) / two_to 1074)%Q.

(** ** WebSocket objects *)

Inductive ReadyState : Type := CONNECTING | OPEN | CLOSING | CLOSED.

#[global] Instance ReadyState_eq_dec : EqDecision ReadyState.
Proof. solve_decision. Defined.

(** One end of a signalling channel: its state and the frames written to it
    with [send], latest first. *)
Record WebSocket : Type := mkWebSocket {
  readyState : ReadyState;
  sent : list Payload
}.

(** [ws.send(text)]. *)
Definition send (text : Payload) (ws : WebSocket) : WebSocket :=
  {| readyState := readyState ws; sent := text :: sent ws |}.

(** ** The relay: server/server.js *)

Module Relay.

(** The server: [wss.clients], a set of socket objects, as a map from a
    socket's identity to its state, and the console. *)
Record Server : Type := mkServer {
  clients : gmap nat WebSocket;
  console : list LogEntry
}.

Definition console_warn (label : string) (v : value) : M Server unit :=
  modify (fun wss => {| clients := clients wss;
                        console := Warn label v :: console wss |}).

Definition console_error (label : string) (e : Exn) : M Server unit :=
  modify (fun wss => {| clients := clients wss;
                        console := Error label e :: console wss |}).

(** [wss.clients.forEach(f)], for an [f] that updates the client it is
    given. *)
Definition clients_forEach (f : nat -> WebSocket -> WebSocket) : M Server unit :=
  modify (fun wss => {| clients := map_imap (fun id client => Some (f id client))
                                            (clients wss);
                        console := console wss |}).

(** A raw message is a string or a Buffer; either way the handler works on
    its text. *)
Inductive RawMessage : Type :=
  | OfString (text : Payload)
  | OfBuffer (text : Payload).

Definition toString (rawMessage : RawMessage) : Payload :=
  match rawMessage with
  | OfString text => text
  | OfBuffer text => text
  end.

(** The types the switch forwards. *)
Definition forwarded (type : value) : bool :=
  strict_eq_str type "offer" || strict_eq_str type "answer"
  || strict_eq_str type "candidate".

(** [socket.on('message', ...)] for the connection [socket]. *)
Definition on_message (socket : nat) (rawMessage : RawMessage) : M Server unit :=
  try_catch
    (let message := toString rawMessage in
     let* parsedMessage := lift (JSON_parse message) in
     let* type := lift (get_prop parsedMessage "type") in
     if forwarded type then
       clients_forEach (fun id client =>
         if negb (bool_decide (id = socket))
            && bool_decide (readyState client = OPEN)
         then send (JSON_stringify parsedMessage) client
         else client)
     else
       console_warn "Unhandled message type:" type)
    (fun error => console_error "Error processing message:" error).

(** The two things the handler can do to the server: write [text] to every
    other open client, or add an entry to the console. *)
Definition broadcast (socket : nat) (text : Payload) (wss : Server) : Server :=
  {| clients := map_imap (fun id client =>
                  Some (if negb (bool_decide (id = socket))
                           && bool_decide (readyState client = OPEN)
                        then send text client else client)) (clients wss);
     console := console wss |}.

Definition logged (entry : LogEntry) (wss : Server) : Server :=
  {| clients := clients wss; console := entry :: console wss |}.


End Relay.

(** ** The call session controller: webrtc-voip/src/VoIPApp.jsx *)

Module Controller.

Inductive CallState : Type := idle | calling | receiving | connected.

#[global] Instance CallState_eq_dec : EqDecision CallState.
Proof. solve_decision. Defined.

(** *** The collaborator's objects *)

Record MediaStream : Type := mkMediaStream {
  stream_id : nat;
  getTracks : list nat
}.

Record RTCPeerConnection : Type := mkRTCPeerConnection {
  closed : bool;                 (* [close()] has been called *)
  target : value;                (* the targetClientId its handlers captured *)
  signaling : option nat;        (* the socket of the [sendMessage] they captured *)
  senders : list nat;            (* tracks given to [addTrack], latest first *)
  localDescription : value;
  remoteDescription : value;
  remoteCandidates : list value  (* given to [addIceCandidate], latest first *)
}.

(** How the media stack answers during one handler run: which call sites
    throw (or reject), what [createOffer] and [createAnswer] resolve to,
    and the stream [getUserMedia] resolves to. *)
Record Collaborator : Type := mkCollaborator {
  fails : Call -> bool;
  offer_sdp : value;
  answer_sdp : value;
  userMedia : MediaStream
}.

(** *** The state of one client *)

Record World : Type := mkWorld {
  localStorage : gmap string string;        (* [localStorage] *)
  sockets : list WebSocket;                 (* every WebSocket [createWebSocket] has made, by identity *)
  socket : option nat;                      (* useWebSocket: [socket] *)
  isConnected : bool;                       (* useWebSocket: [isConnected] *)
  clientId : string;                        (* useWebSocket: [clientId]; it has no setter *)
  reconnectTimers : nat;                    (* pending [setTimeout(createWebSocket, 3000)] *)
  localStream : option MediaStream;         (* useWebRTC: [localStream] *)
  remoteStream : option MediaStream;        (* useWebRTC: [remoteStream] *)
  peerConnectionRef : option nat;           (* useWebRTC: [peerConnectionRef.current] *)
  connectionState : string;                 (* useWebRTC: [connectionState] *)
  connections : list RTCPeerConnection;     (* every RTCPeerConnection made, by identity *)
  callState : CallState;                    (* VoIPApp: [callState] *)
  mediaReady : bool;                        (* VoIPApp: [mediaReady] *)
  targetClientId : value;                   (* VoIPApp: [targetClientId] *)
  transitions : list CallState;             (* every [setCallState] so far, latest first *)
  console : list LogEntry                   (* the console *)
}.

Definition with_localStorage (x : gmap string string) (w : World) : World :=
  {| localStorage := x;
     sockets := sockets w;
     socket := socket w;
     isConnected := isConnected w;
     clientId := clientId w;
     reconnectTimers := reconnectTimers w;
     localStream := localStream w;
     remoteStream := remoteStream w;
     peerConnectionRef := peerConnectionRef w;
     connectionState := connectionState w;
     connections := connections w;
     callState := callState w;
     mediaReady := mediaReady w;
     targetClientId := targetClientId w;
     transitions := transitions w;
     console := console w |}.

Definition with_sockets (x : list WebSocket) (w : World) : World :=
  {| localStorage := localStorage w;
     sockets := x;
     socket := socket w;
     isConnected := isConnected w;
     clientId := clientId w;
     reconnectTimers := reconnectTimers w;
     localStream := localStream w;
     remoteStream := remoteStream w;
     peerConnectionRef := peerConnectionRef w;
     connectionState := connectionState w;
     connections := connections w;
     callState := callState w;
     mediaReady := mediaReady w;
     targetClientId := targetClientId w;
     transitions := transitions w;
     console := console w |}.

Definition with_socket (x : option nat) (w : World) : World :=
  {| localStorage := localStorage w;
     sockets := sockets w;
     socket := x;
     isConnected := isConnected w;
     clientId := clientId w;
     reconnectTimers := reconnectTimers w;
     localStream := localStream w;
     remoteStream := remoteStream w;
     peerConnectionRef := peerConnectionRef w;
     connectionState := connectionState w;
     connections := connections w;
     callState := callState w;
     mediaReady := mediaReady w;
     targetClientId := targetClientId w;
     transitions := transitions w;
     console := console w |}.

Definition with_isConnected (x : bool) (w : World) : World :=
  {| localStorage := localStorage w;
     sockets := sockets w;
     socket := socket w;
     isConnected := x;
     clientId := clientId w;
     reconnectTimers := reconnectTimers w;
     localStream := localStream w;
     remoteStream := remoteStream w;
     peerConnectionRef := peerConnectionRef w;
     connectionState := connectionState w;
     connections := connections w;
     callState := callState w;
     mediaReady := mediaReady w;
     targetClientId := targetClientId w;
     transitions := transitions w;
     console := console w |}.

Definition with_reconnectTimers (x : nat) (w : World) : World :=
  {| localStorage := localStorage w;
     sockets := sockets w;
     socket := socket w;
     isConnected := isConnected w;
     clientId := clientId w;
     reconnectTimers := x;
     localStream := localStream w;
     remoteStream := remoteStream w;
     peerConnectionRef := peerConnectionRef w;
     connectionState := connectionState w;
     connections := connections w;
     callState := callState w;
     mediaReady := mediaReady w;
     targetClientId := targetClientId w;
     transitions := transitions w;
     console := console w |}.

Definition with_localStream (x : option MediaStream) (w : World) : World :=
  {| localStorage := localStorage w;
     sockets := sockets w;
     socket := socket w;
     isConnected := isConnected w;
     clientId := clientId w;
     reconnectTimers := reconnectTimers w;
     localStream := x;
     remoteStream := remoteStream w;
     peerConnectionRef := peerConnectionRef w;
     connectionState := connectionState w;
     connections := connections w;
     callState := callState w;
     mediaReady := mediaReady w;
     targetClientId := targetClientId w;
     transitions := transitions w;
     console := console w |}.

Definition with_remoteStream (x : option MediaStream) (w : World) : World :=
  {| localStorage := localStorage w;
     sockets := sockets w;
     socket := socket w;
     isConnected := isConnected w;
     clientId := clientId w;
     reconnectTimers := reconnectTimers w;
     localStream := localStream w;
     remoteStream := x;
     peerConnectionRef := peerConnectionRef w;
     connectionState := connectionState w;
     connections := connections w;
     callState := callState w;
     mediaReady := mediaReady w;
     targetClientId := targetClientId w;
     transitions := transitions w;
     console := console w |}.

Definition with_peerConnectionRef (x : option nat) (w : World) : World :=
  {| localStorage := localStorage w;
     sockets := sockets w;
     socket := socket w;
     isConnected := isConnected w;
     clientId := clientId w;
     reconnectTimers := reconnectTimers w;
     localStream := localStream w;
     remoteStream := remoteStream w;
     peerConnectionRef := x;
     connectionState := connectionState w;
     connections := connections w;
     callState := callState w;
     mediaReady := mediaReady w;
     targetClientId := targetClientId w;
     transitions := transitions w;
     console := console w |}.

Definition with_connectionState (x : string) (w : World) : World :=
  {| localStorage := localStorage w;
     sockets := sockets w;
     socket := socket w;
     isConnected := isConnected w;
     clientId := clientId w;
     reconnectTimers := reconnectTimers w;
     localStream := localStream w;
     remoteStream := remoteStream w;
     peerConnectionRef := peerConnectionRef w;
     connectionState := x;
     connections := connections w;
     callState := callState w;
     mediaReady := mediaReady w;
     targetClientId := targetClientId w;
     transitions := transitions w;
     console := console w |}.

Definition with_connections (x : list RTCPeerConnection) (w : World) : World :=
  {| localStorage := localStorage w;
     sockets := sockets w;
     socket := socket w;
     isConnected := isConnected w;
     clientId := clientId w;
     reconnectTimers := reconnectTimers w;
     localStream := localStream w;
     remoteStream := remoteStream w;
     peerConnectionRef := peerConnectionRef w;
     connectionState := connectionState w;
     connections := x;
     callState := callState w;
     mediaReady := mediaReady w;
     targetClientId := targetClientId w;
     transitions := transitions w;
     console := console w |}.

Definition with_mediaReady (x : bool) (w : World) : World :=
  {| localStorage := localStorage w;
     sockets := sockets w;
     socket := socket w;
     isConnected := isConnected w;
     clientId := clientId w;
     reconnectTimers := reconnectTimers w;
     localStream := localStream w;
     remoteStream := remoteStream w;
     peerConnectionRef := peerConnectionRef w;
     connectionState := connectionState w;
     connections := connections w;
     callState := callState w;
     mediaReady := x;
     targetClientId := targetClientId w;
     transitions := transitions w;
     console := console w |}.

Definition with_targetClientId (x : value) (w : World) : World :=
  {| localStorage := localStorage w;
     sockets := sockets w;
     socket := socket w;
     isConnected := isConnected w;
     clientId := clientId w;
     reconnectTimers := reconnectTimers w;
     localStream := localStream w;
     remoteStream := remoteStream w;
     peerConnectionRef := peerConnectionRef w;
     connectionState := connectionState w;
     connections := connections w;
     callState := callState w;
     mediaReady := mediaReady w;
     targetClientId := x;
     transitions := transitions w;
     console := console w |}.

Definition with_console (x : list LogEntry) (w : World) : World :=
  {| localStorage := localStorage w;
     sockets := sockets w;
     socket := socket w;
     isConnected := isConnected w;
     clientId := clientId w;
     reconnectTimers := reconnectTimers w;
     localStream := localStream w;
     remoteStream := remoteStream w;
     peerConnectionRef := peerConnectionRef w;
     connectionState := connectionState w;
     connections := connections w;
     callState := callState w;
     mediaReady := mediaReady w;
     targetClientId := targetClientId w;
     transitions := transitions w;
     console := x |}.

Definition with_callState (x : CallState) (w : World) : World :=
  {| localStorage := localStorage w;
     sockets := sockets w;
     socket := socket w;
     isConnected := isConnected w;
     clientId := clientId w;
     reconnectTimers := reconnectTimers w;
     localStream := localStream w;
     remoteStream := remoteStream w;
     peerConnectionRef := peerConnectionRef w;
     connectionState := connectionState w;
     connections := connections w;
     callState := x;
     mediaReady := mediaReady w;
     targetClientId := targetClientId w;
     transitions := x :: transitions w;
     console := console w |}.
Definition setCallState (x : CallState) : M World unit := modify (with_callState x).
Definition setTargetClientId (x : value) : M World unit := modify (with_targetClientId x).
Definition setMediaReady (x : bool) : M World unit := modify (with_mediaReady x).
Definition setLocalStream (x : MediaStream) : M World unit :=
  modify (with_localStream (Some x)).
Definition setRemoteStream (x : option MediaStream) : M World unit :=
  modify (with_remoteStream x).
Definition setConnectionState (x : string) : M World unit :=
  modify (with_connectionState x).
Definition setIsConnected (x : bool) : M World unit := modify (with_isConnected x).
Definition setSocket (x : option nat) : M World unit := modify (with_socket x).

Definition console_log (label : string) (v : value) : M World unit :=
  modify (fun w => with_console (Log label v :: console w) w).
Definition console_error (label : string) (e : Exn) : M World unit :=
  modify (fun w => with_console (Error label e :: console w) w).
Definition console_error_text (label : string) : M World unit :=
  modify (fun w => with_console (ErrorText label :: console w) w).
Definition console_log_text (label : string) : M World unit :=
  modify (fun w => with_console (LogText label :: console w) w).

(** A call into the media stack at [site]. *)
Definition call {S} (c : Collaborator) (site : Call) : M S unit :=
  if fails c site then throw (CollaboratorError site) else ret tt.

(** *** Persistent client id *)

(** [Math.floor(1000 + r * 9000).toString()] for the draw [r] of
    [Math.random()]: the product and the sum are numbers, each rounded;
    [Math.floor] of a number is exact, and [toString] of an integer below
    10^21 is its decimal numeral. *)
Definition fresh_id (random : Q) : string :=
  pretty (Qfloor (number_add 1000 (number_mul random 9000))).

(** [generateClientId], with [localStorage] threaded through.  [getItem]
    gives [null] for a missing key; [!clientId] holds for [null] and for
    the empty string. *)
Definition generateClientId (random : Q) (localStorage : gmap string string)
  : string * gmap string string :=
  match localStorage !! "voip-client-id" with
  | Some clientId =>
      if bool_decide (clientId = "") then
        let clientId := fresh_id random in
        (clientId, <["voip-client-id" := clientId]> localStorage)
      else (clientId, localStorage)
  | None =>
      let clientId := fresh_id random in
      (clientId, <["voip-client-id" := clientId]> localStorage)
  end.

(** *** useWebSocket *)

(** [new WebSocket(url)] with its three handlers; the handlers are the
    events [SocketOpen], [SocketClose] and [SocketError] below. *)
Definition createWebSocket : M World nat :=
  let* w := read in
  run modify (with_sockets (sockets w ++ [mkWebSocket CONNECTING []])) then
  ret (length (sockets w)).

(** [ws.send(text)] on the socket object [ws]. *)
Definition socket_send (ws : nat) (text : Payload) : M World unit :=
  modify (fun w => with_sockets (alter (send text) ws (sockets w)) w).

Definition onopen (ws : nat) : M World unit :=
  run console_log_text "WebSocket Connected" then
  let* w := read in
  run socket_send ws (JSON_stringify (VObj [("type", VStr "register");
                                            ("clientId", VStr (clientId w))])) then
  run setIsConnected true then
  setSocket (Some ws).

Definition onclose : M World unit :=
  run console_log_text "WebSocket Disconnected" then
  run setIsConnected false then
  run setSocket None then
  modify (fun w => with_reconnectTimers (S (reconnectTimers w)) w).

Definition onerror : M World unit :=
  run console_error_text "WebSocket error:" then
  setIsConnected false.

Definition sendMessage (message : list (string * value)) : M World unit :=
  let* w := read in
  match socket w with
  | Some ws =>
      match sockets w !! ws with
      | Some s =>
          if bool_decide (readyState s = OPEN) then
            let fullMessage := set_prop "from" (VStr (clientId w)) message in
            socket_send ws (JSON_stringify (VObj fullMessage))
          else ret tt
      | None => ret tt
      end
  | None => ret tt
  end.

(** The [sendMessage] of an earlier render, in which [socket] was [ws]: it
    keeps that socket, whose state it reads when it is called. *)
Definition sendMessage_on (ws : option nat) (message : list (string * value))
  : M World unit :=
  let* w := read in
  match ws with
  | Some ws =>
      match sockets w !! ws with
      | Some s =>
          if bool_decide (readyState s = OPEN) then
            let fullMessage := set_prop "from" (VStr (clientId w)) message in
            socket_send ws (JSON_stringify (VObj fullMessage))
          else ret tt
      | None => ret tt
      end
  | None => ret tt
  end.

(** *** useWebRTC *)

Definition pc_close (pc : RTCPeerConnection) : RTCPeerConnection :=
  {| closed := true; target := target pc; signaling := signaling pc;
     senders := senders pc;
     localDescription := localDescription pc;
     remoteDescription := remoteDescription pc;
     remoteCandidates := remoteCandidates pc |}.

Definition pc_addTrack (track : nat) (pc : RTCPeerConnection) : RTCPeerConnection :=
  {| closed := closed pc; target := target pc; signaling := signaling pc;
     senders := track :: senders pc;
     localDescription := localDescription pc;
     remoteDescription := remoteDescription pc;
     remoteCandidates := remoteCandidates pc |}.

Definition pc_setLocalDescription (d : value) (pc : RTCPeerConnection)
  : RTCPeerConnection :=
  {| closed := closed pc; target := target pc; signaling := signaling pc;
     senders := senders pc;
     localDescription := d;
     remoteDescription := remoteDescription pc;
     remoteCandidates := remoteCandidates pc |}.

Definition pc_setRemoteDescription (d : value) (pc : RTCPeerConnection)
  : RTCPeerConnection :=
  {| closed := closed pc; target := target pc; signaling := signaling pc;
     senders := senders pc;
     localDescription := localDescription pc;
     remoteDescription := d;
     remoteCandidates := remoteCandidates pc |}.

Definition pc_addIceCandidate (candidate : value) (pc : RTCPeerConnection)
  : RTCPeerConnection :=
  {| closed := closed pc; target := target pc; signaling := signaling pc;
     senders := senders pc;
     localDescription := localDescription pc;
     remoteDescription := remoteDescription pc;
     remoteCandidates := candidate :: remoteCandidates pc |}.

(** Apply [f] to the connection object [pc]. *)
Definition on_connection (pc : nat) (f : RTCPeerConnection -> RTCPeerConnection)
  : M World unit :=
  modify (fun w => with_connections (alter f pc (connections w)) w).

(** [createPeerConnection(targetClientId)]: the three handlers it installs
    are the events [IceCandidate], [Track] and [ConnectionStateChange]
    below; [onicecandidate] keeps [targetClientId] and the
    [signaling.sendMessage] of the render that calls it, which sends on
    that render's [socket]. *)
Definition createPeerConnection (c : Collaborator) (targetClientId : value)
  : M World nat :=
  let* w := read in
  run match peerConnectionRef w with
      | Some current => on_connection current pc_close
      | None => ret tt
      end then
  run call c NewRTCPeerConnection then
  let* w := read in
  let pc := length (connections w) in
  run modify (with_connections
                (connections w ++
                 [mkRTCPeerConnection false targetClientId (socket w) []
                    VUndefined VUndefined []])) then
  run modify (with_peerConnectionRef (Some pc)) then
  ret pc.

Definition getLocalMedia (c : Collaborator) : M World MediaStream :=
  try_catch
    (run call c GetUserMedia then
     let stream := userMedia c in
     run setLocalStream stream then
     ret stream)
    (fun error =>
       run console_error "Error accessing media devices:" error then
       throw error).

(** The [if (localStream) ... else ...] block of [createOffer] and
    [handleOffer]. *)
Definition addLocalTracks (c : Collaborator) (pc : nat) : M World unit :=
  let* w := read in
  match localStream w with
  | Some stream =>
      forEach (getTracks stream) (fun track =>
        run call c AddTrack then
        on_connection pc (pc_addTrack track))
  | None => console_error_text "No local stream available."
  end.

Definition createOffer (c : Collaborator) (targetClientId : value) : M World value :=
  let* pc := createPeerConnection c targetClientId in
  run addLocalTracks c pc then
  run call c CreateOffer then
  let offer := offer_sdp c in
  run call c SetLocalDescription then
  run on_connection pc (pc_setLocalDescription offer) then
  ret offer.

Definition handleOffer (c : Collaborator) (offer fromClientId : value) : M World value :=
  let* pc := createPeerConnection c fromClientId in
  run addLocalTracks c pc then
  run call c NewRTCSessionDescription then
  run call c SetRemoteDescription then
  run on_connection pc (pc_setRemoteDescription offer) then
  run call c CreateAnswer then
  let answer := answer_sdp c in
  run call c SetLocalDescription then
  run on_connection pc (pc_setLocalDescription answer) then
  ret answer.

Definition addIceCandidate (c : Collaborator) (candidateData : value) : M World unit :=
  let* w := read in
  match peerConnectionRef w with
  | Some current =>
      if truthy candidateData then
        try_catch
          (run call c NewRTCIceCandidate then
           run call c AddIceCandidate then
           on_connection current (pc_addIceCandidate candidateData))
          (fun error => console_error "Error adding ICE candidate:" error)
      else ret tt
  | None => ret tt
  end.

(** [serializeIceCandidate]. *)
Definition serializeIceCandidate (candidate : value) : Completion value :=
  if negb (truthy candidate) then Normal VNull
  else
    match get_prop candidate "candidate", get_prop candidate "sdpMid",
          get_prop candidate "sdpMLineIndex", get_prop candidate "usernameFragment" with
    | Normal a, Normal b, Normal i, Normal u =>
        Normal (VObj [("candidate", a); ("sdpMid", b);
                      ("sdpMLineIndex", i); ("usernameFragment", u)])
    | Throw e, _, _, _ | _, Throw e, _, _ | _, _, Throw e, _ | _, _, _, Throw e =>
        Throw e
    end.

(** [pc.onicecandidate] of the connection made for [targetClientId] while
    [socket] was [ws]. *)
Definition onicecandidate (ws : option nat) (targetClientId candidate : value)
  : M World unit :=
  if truthy candidate then
    run console_log "Sending ICE candidate:" candidate then
    let* serialized := lift (serializeIceCandidate candidate) in
    sendMessage_on ws [("type", VStr "ice-candidate");
                       ("candidate", serialized);
                       ("target", targetClientId)]
  else ret tt.

(** [pc.ontrack]; [stream] is [event.streams[0]], [undefined] when the track
    came with no stream. *)
Definition ontrack (stream : option MediaStream) : M World unit :=
  run console_log_text "Remote stream received:" then
  run setRemoteStream stream then
  setConnectionState "connected".

Definition onconnectionstatechange (state : string) : M World unit :=
  run console_log "Connection state:" (VStr state) then
  setConnectionState state.

(** *** VoIPApp *)

(** The listener the message effect puts on [socket]. *)
Definition handleWebSocketMessage (c : Collaborator) (data : Payload) : M World unit :=
  try_catch
    (let* message := lift (JSON_parse data) in
     let* target := lift (get_prop message "target") in
     let* w := read in
     if truthy target && negb (strict_eq_str target (clientId w)) then ret tt
     else
       let* type := lift (get_prop message "type") in
       if strict_eq_str type "register" then
         let* registered := lift (get_prop message "clientId") in
         console_log "Registered client:" registered
       else if strict_eq_str type "offer" then
         run setCallState receiving then
         let* from := lift (get_prop message "from") in
         run setTargetClientId from then
         let* offer := lift (get_prop message "offer") in
         let* answer := handleOffer c offer from in
         sendMessage [("type", VStr "answer");
                      ("answer", answer);
                      ("target", from)]
       else if strict_eq_str type "answer" then
         run setCallState connected then
         let* w := read in
         match peerConnectionRef w with
         | Some current =>
             let* answer := lift (get_prop message "answer") in
             run call c NewRTCSessionDescription then
             run call c SetRemoteDescription then
             on_connection current (pc_setRemoteDescription answer)
         | None => ret tt
         end
       else if strict_eq_str type "ice-candidate" then
         let* candidate := lift (get_prop message "candidate") in
         addIceCandidate c candidate
       else ret tt)
    (fun error =>
       run console_error "Error handling WebSocket message:" error then
       setCallState idle).

Definition initializeMedia (c : Collaborator) : M World unit :=
  try_catch
    (let* _ := getLocalMedia c in
     setMediaReady true)
    (fun error =>
       run console_error "Failed to get local media" error then
       setMediaReady false).

Definition initiateCall (c : Collaborator) : M World unit :=
  try_catch
    (run setCallState calling then
     let* w := read in
     let* offer := createOffer c (targetClientId w) in
     sendMessage [("type", VStr "offer");
                  ("offer", offer);
                  ("target", targetClientId w)])
    (fun error =>
       run console_error "Call initiation failed:" error then
       setCallState idle).

Definition isCallButtonDisabled (w : World) : bool :=
  negb (isConnected w)
  || negb (mediaReady w)
  || negb (bool_decide (callState w = idle))
  || negb (truthy (targetClientId w)).

(** *** Events *)

(** What can happen to a mounted client.  A handler runs to completion:
    its awaits are not interleaved with other handlers. *)
Inductive Event : Type :=
  | Render (random : Q)          (* [useState(generateClientId())] is evaluated again *)
  | SocketOpen (ws : nat)
  | SocketClosing (ws : nat)     (* the closing handshake starts; no handler runs *)
  | SocketClose (ws : nat)
  | SocketError (ws : nat)
  | ReconnectTimer               (* a [setTimeout(createWebSocket, 3000)] fires *)
  | SocketMessage (data : Payload)
  | InitializeMedia
  | ChangeTarget (text : string) (* the target input's [onChange] *)
  | ClickCall                    (* the call button, [disabled={isCallButtonDisabled}] *)
  | IceCandidate (pc : nat) (candidate : value)
  | Track (pc : nat) (stream : option MediaStream)
  | ConnectionStateChange (pc : nat) (state : string).

Definition set_readyState (ws : nat) (state : ReadyState) : M World unit :=
  modify (fun w => with_sockets
                     (alter (fun s => mkWebSocket state (sent s)) ws (sockets w)) w).

Definition step (c : Collaborator) (e : Event) (w : World) : World :=
  match e with
  | Render random =>
      with_localStorage (snd (generateClientId random (localStorage w))) w
  | SocketOpen ws =>
      match sockets w !! ws with
      | Some s =>
          if bool_decide (readyState s = CONNECTING)
          then exec (run set_readyState ws OPEN then onopen ws) w
          else w
      | None => w
      end
  | SocketClosing ws =>
      match sockets w !! ws with
      | Some s =>
          if bool_decide (readyState s = CONNECTING)
             || bool_decide (readyState s = OPEN)
          then exec (set_readyState ws CLOSING) w
          else w
      | None => w
      end
  | SocketClose ws =>
      match sockets w !! ws with
      | Some s =>
          if bool_decide (readyState s = CLOSED) then w
          else exec (run set_readyState ws CLOSED then onclose) w
      | None => w
      end
  | SocketError ws =>
      match sockets w !! ws with
      | Some _ => exec onerror w
      | None => w
      end
  | ReconnectTimer =>
      match reconnectTimers w with
      | O => w
      | S n => exec (run modify (with_reconnectTimers n) then
                     let* _ := createWebSocket in ret tt) w
      end
  | SocketMessage data =>
      match socket w with
      | Some _ => exec (handleWebSocketMessage c data) w
      | None => w
      end
  | InitializeMedia => exec (initializeMedia c) w
  | ChangeTarget text => exec (setTargetClientId (VStr text)) w
  | ClickCall =>
      if isCallButtonDisabled w then w else exec (initiateCall c) w
  | IceCandidate pc candidate =>
      match connections w !! pc with
      | Some p => exec (onicecandidate (signaling p) (target p) candidate) w
      | None => w
      end
  | Track pc stream =>
      match connections w !! pc with
      | Some _ => exec (ontrack stream) w
      | None => w
      end
  | ConnectionStateChange pc state =>
      match connections w !! pc with
      | Some _ => exec (onconnectionstatechange state) w
      | None => w
      end
  end.

(** The first render, with the initial value of every [useState] and
    [useRef], and the effect that opens the signalling socket. *)
Definition mount (random : Q) (storage : gmap string string) : World :=
  let (id, storage') := generateClientId random storage in
  exec (let* _ := createWebSocket in ret tt)
    {| localStorage := storage';
       sockets := [];
       socket := None;
       isConnected := false;
       clientId := id;
       reconnectTimers := 0;
       localStream := None;
       remoteStream := None;
       peerConnectionRef := None;
       connectionState := "new";
       connections := [];
       callState := idle;
       mediaReady := false;
       targetClientId := VNull;
       transitions := [];
       console := [] |}.

Inductive reachable : World -> Prop :=
  | reachable_mount random storage : reachable (mount random storage)
  | reachable_step c e w : reachable w -> reachable (step c e w).

(** *** Vocabulary of the properties *)

(** [data] is a frame of type [type] that the target filter of
    [handleWebSocketMessage] lets through: it parses, and its [target] is
    falsy or is this client's id. *)
Definition inbound (type : string) (w : World) (data : Payload) : Prop :=
  exists message target,
    JSON_parse data = Normal message /\
    get_prop message "target" = Normal target /\
    (truthy target = false \/ target = VStr (clientId w)) /\
    get_prop message "type" = Normal (VStr type).

(** The catch block of [handleWebSocketMessage] and of [initiateCall]. *)
Definition recover (label : string) (error : Exn) : M World unit :=
  run console_error label error then setCallState idle.

(** The call state and its history are [s] and [t]. *)
Definition call_frame (s : CallState) (t : list CallState) (w : World) : Prop :=
  callState w = s /\ transitions w = t.

(** Every live connection is the one [peerConnectionRef] holds. *)
Definition single_live (ref : option nat) (pcs : list RTCPeerConnection) : Prop :=
  forall i pc, pcs !! i = Some pc -> closed pc = false -> ref = Some i.

Definition links_ok (w : World) : Prop :=
  single_live (peerConnectionRef w) (connections w).

(** [peerConnectionRef] is empty exactly while no connection has been
    made. *)
Definition ref_tracks_connections (w : World) : Prop :=
  peerConnectionRef w = None <-> connections w = [].

(** The connections that have not been closed. *)
Definition live_links (pcs : list RTCPeerConnection) : list RTCPeerConnection :=
  filter (fun pc => closed pc = false) pcs.

(** The connections once [createPeerConnection] has closed the current
    one. *)
Definition close_current (ref : option nat) (pcs : list RTCPeerConnection)
  : list RTCPeerConnection :=
  match ref with
  | Some current => alter pc_close current pcs
  | None => pcs
  end.

(** [f] touches neither side of what a connection was made with. *)
Definition keeps_link (f : RTCPeerConnection -> RTCPeerConnection) : Prop :=
  forall p, closed (f p) = closed p /\ target (f p) = target p /\
            localDescription (f p) = localDescription p /\
            remoteDescription (f p) = remoteDescription p /\
            remoteCandidates (f p) = remoteCandidates p.

(** [w] with the call state [s], everything else as it is. *)
Definition in_state (s : CallState) (w : World) : World :=
  {| localStorage := localStorage w; sockets := sockets w; socket := socket w;
     isConnected := isConnected w; clientId := clientId w;
     reconnectTimers := reconnectTimers w; localStream := localStream w;
     remoteStream := remoteStream w; peerConnectionRef := peerConnectionRef w;
     connectionState := connectionState w; connections := connections w;
     callState := s; mediaReady := mediaReady w;
     targetClientId := targetClientId w; transitions := transitions w;
     console := console w |}.

(** The key [generateClientId] keeps the identity under. *)
Definition storage_key : string := "voip-client-id".

(** A frame that, if it is a 'register' message, carries [id]. *)
Definition registers (id : string) (frame : Payload) : Prop :=
  forall props,
    frame = JSONText (VObj props) ->
    lookup_prop "type" props = VStr "register" ->
    lookup_prop "clientId" props = VStr id.

(** The client's identity is [id]: it is the one persisted, and every
    'register' frame written to a signalling socket so far carries it. *)
Definition identity (id : string) (w : World) : Prop :=
  clientId w = id /\
  localStorage w !! storage_key = Some id /\
  id <> "" /\
  forall ws s frame,
    sockets w !! ws = Some s -> frame ∈ sent s -> registers id frame.

End Controller.

(** ** The earlier hook: webrtc-voip/src/webrtc.js *)

Module WebRTC_js.
Import Controller.

(** The state of [useWebRTC(signaling)]; [outbox] is what it handed to
    [signaling.sendMessage], latest first. *)
Record Hook : Type := mkHook {
  localStream : option MediaStream;
  remoteStream : option MediaStream;
  peerConnectionRef : option nat;
  connections : list RTCPeerConnection;
  outbox : list value;
  console : list LogEntry
}.

Definition with_connections (x : list RTCPeerConnection) (h : Hook) : Hook :=
  {| localStream := localStream h; remoteStream := remoteStream h;
     peerConnectionRef := peerConnectionRef h; connections := x;
     outbox := outbox h; console := console h |}.

Definition with_peerConnectionRef (x : option nat) (h : Hook) : Hook :=
  {| localStream := localStream h; remoteStream := remoteStream h;
     peerConnectionRef := x; connections := connections h;
     outbox := outbox h; console := console h |}.

Definition with_localStream (x : option MediaStream) (h : Hook) : Hook :=
  {| localStream := x; remoteStream := remoteStream h;
     peerConnectionRef := peerConnectionRef h; connections := connections h;
     outbox := outbox h; console := console h |}.

Definition with_remoteStream (x : option MediaStream) (h : Hook) : Hook :=
  {| localStream := localStream h; remoteStream := x;
     peerConnectionRef := peerConnectionRef h; connections := connections h;
     outbox := outbox h; console := console h |}.

Definition with_outbox (x : list value) (h : Hook) : Hook :=
  {| localStream := localStream h; remoteStream := remoteStream h;
     peerConnectionRef := peerConnectionRef h; connections := connections h;
     outbox := x; console := console h |}.

Definition with_console (x : list LogEntry) (h : Hook) : Hook :=
  {| localStream := localStream h; remoteStream := remoteStream h;
     peerConnectionRef := peerConnectionRef h; connections := connections h;
     outbox := outbox h; console := x |}.

Definition on_connection (pc : nat) (f : RTCPeerConnection -> RTCPeerConnection)
  : M Hook unit :=
  modify (fun h => with_connections (alter f pc (connections h)) h).

(** [createPeerConnection()]: it makes a connection and returns it; the
    caller stores it. *)
Definition createPeerConnection (c : Collaborator) : M Hook nat :=
  run call c NewRTCPeerConnection then
  let* h := read in
  run modify (with_connections
                (connections h ++
                 [mkRTCPeerConnection false VUndefined None [] VUndefined VUndefined []])) then
  ret (length (connections h)).

(** The head of [createOffer] and [handleOffer]:
    [if (!peerConnectionRef.current) peerConnectionRef.current = createPeerConnection()]. *)
Definition ensurePeerConnection (c : Collaborator) : M Hook nat :=
  let* h := read in
  match peerConnectionRef h with
  | Some current => ret current
  | None =>
      let* pc := createPeerConnection c in
      run modify (with_peerConnectionRef (Some pc)) then
      ret pc
  end.

Definition addLocalTracks (c : Collaborator) (pc : nat) : M Hook unit :=
  let* h := read in
  match localStream h with
  | Some stream =>
      forEach (getTracks stream) (fun track =>
        run call c AddTrack then
        on_connection pc (pc_addTrack track))
  | None => ret tt
  end.

Definition createOffer (c : Collaborator) : M Hook value :=
  let* pc := ensurePeerConnection c in
  run addLocalTracks c pc then
  run call c CreateOffer then
  let offer := offer_sdp c in
  run call c SetLocalDescription then
  run on_connection pc (pc_setLocalDescription offer) then
  ret offer.

Definition handleOffer (c : Collaborator) (offer : value) : M Hook value :=
  let* pc := ensurePeerConnection c in
  run addLocalTracks c pc then
  run call c NewRTCSessionDescription then
  run call c SetRemoteDescription then
  run on_connection pc (pc_setRemoteDescription offer) then
  run call c CreateAnswer then
  let answer := answer_sdp c in
  run call c SetLocalDescription then
  run on_connection pc (pc_setLocalDescription answer) then
  ret answer.

Definition addIceCandidate (c : Collaborator) (candidate : value) : M Hook unit :=
  let* h := read in
  match peerConnectionRef h with
  | Some current =>
      if truthy candidate then
        try_catch
          (run call c NewRTCIceCandidate then
           run call c AddIceCandidate then
           on_connection current (pc_addIceCandidate candidate))
          (fun error =>
             modify (fun h => with_console
                                (Error "Error adding ICE candidate:" error :: console h) h))
      else ret tt
  | None => ret tt
  end.

(** It returns the stream, or [undefined] after a failure it has logged. *)
Definition getLocalMedia (c : Collaborator) : M Hook (option MediaStream) :=
  try_catch
    (run call c GetUserMedia then
     run modify (with_localStream (Some (userMedia c))) then
     ret (Some (userMedia c)))
    (fun error =>
       run modify (fun h => with_console
                              (Error "Error accessing media devices:" error :: console h) h) then
       ret None).

(** What the hook's user, or the media stack, can do with it. *)
Inductive Action : Type :=
  | DoGetLocalMedia
  | DoCreateOffer
  | DoHandleOffer (offer : value)
  | DoAddIceCandidate (candidate : value)
  | IceCandidate (candidate : value)
  | Track (stream : option MediaStream).

Definition step (c : Collaborator) (a : Action) (h : Hook) : Hook :=
  match a with
  | DoGetLocalMedia => snd (getLocalMedia c h)
  | DoCreateOffer => snd (createOffer c h)
  | DoHandleOffer offer => snd (handleOffer c offer h)
  | DoAddIceCandidate candidate => snd (addIceCandidate c candidate h)
  | IceCandidate candidate =>
      if truthy candidate
      then with_outbox (VObj [("type", VStr "ice-candidate");
                              ("candidate", candidate)] :: outbox h) h
      else h
  | Track stream => with_remoteStream stream h
  end.

Definition initial : Hook :=
  {| localStream := None; remoteStream := None; peerConnectionRef := None;
     connections := []; outbox := []; console := [] |}.

Inductive reachable : Hook -> Prop :=
  | reachable_initial : reachable initial
  | reachable_step c a h : reachable h -> reachable (step c a h).

(** The hook has made no connection, or one, which it holds. *)
Definition one_link (h : Hook) : Prop :=
  match peerConnectionRef h with
  | None => connections h = []
  | Some current => current = 0 /\ length (connections h) = 1
  end.

End WebRTC_js.

(** ** Concrete inputs *)

Module Examples.
Import Relay.

(** Three connections: 0 and 1 open, 2 closing. *)
Definition three_clients : Server :=
  {| clients := <[0 := mkWebSocket OPEN []]>
                (<[1 := mkWebSocket OPEN []]>
                (<[2 := mkWebSocket CLOSING []]> ∅));
     console := [] |}.

Definition candidate_1 : value :=
  VObj [("candidate", VStr "candidate:1 1 UDP 2122252543 192.0.2.1 54321 typ host");
        ("sdpMid", VStr "0");
        ("sdpMLineIndex", VNum 0);
        ("usernameFragment", VStr "abcd")].

Definition sdp (type text : string) : value :=
  VObj [("type", VStr type); ("sdp", VStr text)].

Definition offer_from_1111 : value :=
  VObj [("type", VStr "offer"); ("offer", sdp "offer" "v=0");
        ("target", VStr "2222"); ("from", VStr "1111")].

Definition ice_candidate_from_1111 : value :=
  VObj [("type", VStr "ice-candidate"); ("candidate", candidate_1);
        ("target", VStr "2222"); ("from", VStr "1111")].

Definition register_as (clientId : string) : value :=
  VObj [("type", VStr "register"); ("clientId", VStr clientId)].

End Examples.

(** A client whose persisted identity is 2222. *)
Module Scenario.
Import Controller.

(** A media stack on which every call succeeds. *)
Definition willing : Collaborator :=
  {| fails := fun _ => false;
     offer_sdp := Examples.sdp "offer" "v=0 o=2222";
     answer_sdp := Examples.sdp "answer" "v=0 a=2222";
     userMedia := mkMediaStream 7 [0; 1] |}.

(** A media stack that rejects every remote description. *)
Definition refusing : Collaborator :=
  {| fails := fun site => match site with SetRemoteDescription => true | _ => false end;
     offer_sdp := Examples.sdp "offer" "v=0 o=2222";
     answer_sdp := Examples.sdp "answer" "v=0 a=2222";
     userMedia := mkMediaStream 7 [0; 1] |}.

Definition storage : gmap string string := {[ "voip-client-id" := "2222" ]}.

Definition run_events (es : list Event) (w : World) : World :=
  foldl (fun w e => step willing e w) w es.

(** Mounted, socket open, camera and microphone acquired; no call yet. *)
Definition ready : World :=
  run_events [SocketOpen 0; InitializeMedia] (mount 0 storage).

(** The client after it has answered the offer of 1111. *)
Definition in_call : World :=
  step willing (SocketMessage (JSONText (VObj
    [("type", VStr "offer"); ("offer", Examples.sdp "offer" "v=0 o=1111");
     ("target", VStr "2222"); ("from", VStr "1111")]))) ready.

(** A call to 1111, a frame that is not JSON (which resets the call state),
    and a second call. *)
Definition after_two_calls : World :=
  run_events [ChangeTarget "1111"; ClickCall; SocketMessage (NotJSON "?"); ClickCall]
    ready.

(** The signalling channel opens, drops, and is opened again by the
    reconnection timer. *)
Definition reconnected : World :=
  run_events [SocketOpen 0; SocketClose 0; ReconnectTimer; SocketOpen 1]
    (mount 0 storage).

(** The client while it is calling 3333. *)
Definition busy : World := run_events [ChangeTarget "3333"; ClickCall] ready.

(** A media stack that rejects every candidate. *)
Definition rejecting : Collaborator :=
  {| fails := fun site => match site with AddIceCandidate => true | _ => false end;
     offer_sdp := Examples.sdp "offer" "v=0 o=2222";
     answer_sdp := Examples.sdp "answer" "v=0 a=2222";
     userMedia := mkMediaStream 7 [0; 1] |}.

Definition answer_for_2222 : value :=
  VObj [("type", VStr "answer"); ("answer", Examples.sdp "answer" "v=0 a=1111");
        ("target", VStr "2222"); ("from", VStr "1111")].

Definition offer_for_2222 : value :=
  VObj [("type", VStr "offer"); ("offer", Examples.sdp "offer" "v=0 o=1111");
        ("target", VStr "2222"); ("from", VStr "1111")].

Definition offer_for_3333 : value :=
  VObj [("type", VStr "offer"); ("offer", Examples.sdp "offer" "v=0 o=1111");
        ("target", VStr "3333"); ("from", VStr "1111")].

Definition offer_with_empty_target : value :=
  VObj [("type", VStr "offer"); ("offer", Examples.sdp "offer" "v=0 o=1111");
        ("target", VStr ""); ("from", VStr "1111")].

Definition candidate_for_2222 (candidate : value) : value :=
  VObj [("type", VStr "ice-candidate"); ("candidate", candidate);
        ("target", VStr "2222"); ("from", VStr "1111")].

End Scenario.

(** ** The variant with a channel between tabs: unnamed/part_000 *)

(** The variant of VoIPApp.jsx that also talks to the other tabs of the
    browser over a [BroadcastChannel].  Its hooks differ from those above in
    [sendMessage], in the message handlers, and in what they log; the client
    id and the sockets are the [World]'s. *)
Module Tabs.
Import Controller.

(** A tab: the client's state and what it has posted to the channel, latest
    first. *)
Record Tab : Type := mkTab {
  world : World;
  posted : list value
}.

(** A step of the client's state, in a tab. *)
Definition on_world {A} (m : M World A) : M Tab A :=
  fun t =>
    let (result, w) := m (world t) in
    (result, {| world := w; posted := posted t |}).

(** [broadcastChannel.current.postMessage(message)]; the channel copies the
    message, which is plain data. *)
Definition postMessage (message : value) : M Tab unit :=
  modify (fun t => {| world := world t; posted := message :: posted t |}).

Definition sendMessage (message : list (string * value)) : M Tab unit :=
  let* t := read in
  match socket (world t) with
  | Some ws =>
      match sockets (world t) !! ws with
      | Some s =>
          if bool_decide (readyState s = OPEN) then
            let fullMessage := set_prop "from" (VStr (clientId (world t))) message in
            run on_world (socket_send ws (JSON_stringify (VObj fullMessage))) then
            postMessage (VObj fullMessage)
          else ret tt
      | None => ret tt
      end
  | None => ret tt
  end.

(** The [if (localStream)] block of [createOffer] and [handleOffer]; it has
    no other branch here. *)
Definition addLocalTracks (c : Collaborator) (pc : nat) : M World unit :=
  let* w := read in
  match localStream w with
  | Some stream =>
      forEach (getTracks stream) (fun track =>
        run call c AddTrack then
        on_connection pc (pc_addTrack track))
  | None => ret tt
  end.

Definition createOffer (c : Collaborator) (targetClientId : value) : M World value :=
  let* pc := createPeerConnection c targetClientId in
  run addLocalTracks c pc then
  run call c CreateOffer then
  let offer := offer_sdp c in
  run call c SetLocalDescription then
  run on_connection pc (pc_setLocalDescription offer) then
  ret offer.

Definition handleOffer (c : Collaborator) (offer fromClientId : value) : M World value :=
  let* pc := createPeerConnection c fromClientId in
  run addLocalTracks c pc then
  run call c NewRTCSessionDescription then
  run call c SetRemoteDescription then
  run on_connection pc (pc_setRemoteDescription offer) then
  run call c CreateAnswer then
  let answer := answer_sdp c in
  run call c SetLocalDescription then
  run on_connection pc (pc_setLocalDescription answer) then
  ret answer.

(** The listener on the channel; [message] is [event.data], an object
    already. *)
Definition handleBroadcastMessage (c : Collaborator) (message : value) : M Tab unit :=
  try_catch
    (let* target := lift (get_prop message "target") in
     let* t := read in
     if truthy target && negb (strict_eq_str target (clientId (world t))) then ret tt
     else
       let* type := lift (get_prop message "type") in
       if strict_eq_str type "register" then
         let* registered := lift (get_prop message "clientId") in
         on_world (console_log "Registered client:" registered)
       else if strict_eq_str type "offer" then
         run on_world (setCallState receiving) then
         let* from := lift (get_prop message "from") in
         run on_world (setTargetClientId from) then
         let* offer := lift (get_prop message "offer") in
         let* answer := on_world (handleOffer c offer from) in
         sendMessage [("type", VStr "answer");
                      ("answer", answer);
                      ("target", from)]
       else if strict_eq_str type "answer" then
         run on_world (setCallState connected) then
         let* t := read in
         match peerConnectionRef (world t) with
         | Some current =>
             let* answer := lift (get_prop message "answer") in
             run call c NewRTCSessionDescription then
             run call c SetRemoteDescription then
             on_world (on_connection current (pc_setRemoteDescription answer))
         | None => ret tt
         end
       else if strict_eq_str type "ice-candidate" then
         let* candidate := lift (get_prop message "candidate") in
         on_world (addIceCandidate c candidate)
       else ret tt)
    (fun error =>
       run on_world (console_error "Error handling broadcast message:" error) then
       on_world (setCallState idle)).

(** The listener on the socket: it parses and hands over to the listener of
    the channel, whose own [try] takes care of what that throws. *)
Definition handleWebSocketMessage (c : Collaborator) (data : Payload) : M Tab unit :=
  try_catch
    (let* message := lift (JSON_parse data) in
     handleBroadcastMessage c message)
    (fun error =>
       on_world (console_error "Error parsing WebSocket message:" error)).

Definition initiateCall (c : Collaborator) : M Tab unit :=
  try_catch
    (run on_world (setCallState calling) then
     let* t := read in
     let* offer := on_world (createOffer c (targetClientId (world t))) in
     sendMessage [("type", VStr "offer");
                  ("offer", offer);
                  ("target", targetClientId (world t))])
    (fun error =>
       run on_world (console_error "Call initiation failed:" error) then
       on_world (setCallState idle)).

End Tabs.

(** ** Further vocabulary *)

(** A value [JSON.parse] can return: [undefined] occurs nowhere in it. *)
Fixpoint is_json (v : value) : bool :=
  match v with
  | VUndefined => false
  | VArr items => forallb is_json items
  | VObj props => forallb (fun kv => is_json (snd kv)) props
  | _ => true
  end.

(** A value without numbers: strings, booleans, [null], and arrays and
    objects of these, as the offers and the answers of the clients are.  The
    numbers here are the integers, while those of [JSON.parse] and
    [JSON.stringify] are doubles, which a number in a frame need not survive
    unchanged. *)
Fixpoint no_numbers (v : value) : bool :=
  match v with
  | VNum _ => false
  | VArr items => forallb no_numbers items
  | VObj props => forallb (fun kv => no_numbers (snd kv)) props
  | _ => true
  end.

Module Channel.
Import Controller.

(** The state of the socket object [i], if it has been made. *)
Definition state_of (w : World) (i : nat) : option ReadyState :=
  readyState <$> sockets w !! i.

(** The signalling channel is in order: either one reconnection is pending
    and every socket is closed, or none is pending and exactly one socket
    is not closed; [socket], when set, is a socket that is open, or closing
    once its closing handshake has begun; and [isConnected] is set only
    while [socket] is. *)
Definition channel_ok (w : World) : Prop :=
  ((reconnectTimers w = 1 /\
    forall i st, state_of w i = Some st -> st = CLOSED) \/
   (reconnectTimers w = 0 /\
    exists i st, state_of w i = Some st /\ st <> CLOSED /\
      forall j st', state_of w j = Some st' -> st' <> CLOSED -> j = i)) /\
  (forall ws, socket w = Some ws ->
              state_of w ws = Some OPEN \/ state_of w ws = Some CLOSING) /\
  (isConnected w = true -> exists ws, socket w = Some ws).

(** [w] has the channel of [w0]: the same sockets in the same states, the
    same current socket, flag and timers. *)
Definition same_channel (w0 w : World) : Prop :=
  reconnectTimers w = reconnectTimers w0 /\
  socket w = socket w0 /\
  isConnected w = isConnected w0 /\
  forall i, state_of w i = state_of w0 i.

(** What [createOffer] and [handleOffer] leave alone. *)
Definition signalling_of (w0 w : World) : Prop :=
  sockets w = sockets w0 /\ socket w = socket w0 /\ clientId w = clientId w0 /\
  targetClientId w = targetClientId w0 /\ callState w = callState w0 /\
  transitions w = transitions w0.


End Channel.

(** More states of the client 2222. *)
Module Scenes.
Import Controller Scenario.

(** In a call with 1111, the target field of the form since changed. *)
Definition retargeted : World := step willing (ChangeTarget "9999") in_call.

(** Ready, with 1111 typed into the target field. *)
Definition about_to_call : World := step willing (ChangeTarget "1111") ready.

(** Ready, with 1111 in the target field, when the closing handshake of
    the signalling socket begins: the call button is still enabled. *)
Definition closing : World := step willing (SocketClosing 0) about_to_call.

(** A media stack on which no connection can be made. *)
Definition unable : Collaborator :=
  {| fails := fun site => match site with NewRTCPeerConnection => true | _ => false end;
     offer_sdp := Examples.sdp "offer" "v=0 o=2222";
     answer_sdp := Examples.sdp "answer" "v=0 a=2222";
     userMedia := mkMediaStream 7 [0; 1] |}.

(** The call with 1111 after a second offer that could not be answered: the
    connection of the call has been closed and is still the current one. *)
Definition stale : World :=
  step unable (SocketMessage (JSONText offer_for_2222)) in_call.

(** A media stack on which [getUserMedia] is denied. *)
Definition denying : Collaborator :=
  {| fails := fun site => match site with GetUserMedia => true | _ => false end;
     offer_sdp := Examples.sdp "offer" "v=0 o=2222";
     answer_sdp := Examples.sdp "answer" "v=0 a=2222";
     userMedia := mkMediaStream 7 [0; 1] |}.

(** The call with 1111 after the signalling channel has dropped and has
    been restored on a second socket. *)
Definition call_reconnected : World :=
  run_events [SocketClose 0; ReconnectTimer; SocketOpen 1] in_call.

(** The call with 1111 after a frame that was not JSON: 'idle', the
    connection still there. *)
Definition reset_in_call : World :=
  step willing (SocketMessage (NotJSON "?")) in_call.

End Scenes.

Module TabNotions.
Import Controller Tabs.

(** From [P] before to [Q] after, however [m] completes. *)
Definition triple {S A} (P Q : S -> Prop) (m : M S A) : Prop :=
  forall s, P s -> Q (snd (m s)).

(** The sockets, the current socket and the identity of a client. *)
Definition wire_of (w0 w : World) : Prop :=
  sockets w = sockets w0 /\ socket w = socket w0 /\ clientId w = clientId w0.

(** Nothing has been written since [t0], to the socket or to the channel. *)
Definition quiet (t0 t : Tab) : Prop :=
  posted t = posted t0 /\ wire_of (world t0) (world t).

(** Since [t0] the channel between the tabs got what the signalling socket
    got: nothing; or one message, carrying the client's id as [from], whose
    serialization went to the current socket, which was open. *)
Definition mirrored (t0 t : Tab) : Prop :=
  (posted t = posted t0 /\ sockets (world t) = sockets (world t0)) \/
  exists ws s full,
    socket (world t0) = Some ws /\
    sockets (world t0) !! ws = Some s /\ readyState s = OPEN /\
    lookup_prop "from" full = VStr (clientId (world t0)) /\
    posted t = VObj full :: posted t0 /\
    sockets (world t) = alter (send (JSON_stringify (VObj full))) ws (sockets (world t0)).

(** Two tabs of one browser, which share the stored client id 2222: one
    about to call 1111, one at rest. *)
Definition caller_tab : Tab := mkTab Scenes.about_to_call [].
Definition resting_tab : Tab := mkTab Scenario.ready [].

End TabNotions.

Module HookNotions.
Import Controller WebRTC_js.

(** No connection of the hook has been closed. *)
Definition all_open (h : Hook) : Prop :=
  forall i pc, connections h !! i = Some pc -> closed pc = false.

(** The hook after [createOffer] on a media stack that takes everything. *)
Definition offered : Hook := step Scenario.willing DoCreateOffer initial.

(** A message the hook hands to the signalling layer for a local candidate:
    it names no addressee. *)
Definition candidate_message (m : value) : Prop :=
  exists candidate,
    truthy candidate = true /\
    m = VObj [("type", VStr "ice-candidate"); ("candidate", candidate)].

Definition only_candidates (h : Hook) : Prop :=
  Forall candidate_message (outbox h).

(** The hook after its connection has found a local candidate. *)
Definition gathering : Hook :=
  step Scenario.willing (IceCandidate Examples.candidate_1) offered.

End HookNotions.

(** * Properties of the relay *)

Module RelayProperties.
Import Relay.

(** The handler, case by case. *)
Lemma on_message_cases socket rawMessage wss :
  on_message socket rawMessage wss =
  match JSON_parse (toString rawMessage) with
  | Throw e => (Normal tt, logged (Error "Error processing message:" e) wss)
  | Normal parsedMessage =>
      match get_prop parsedMessage "type" with
      | Throw e => (Normal tt, logged (Error "Error processing message:" e) wss)
      | Normal type =>
          if forwarded type
          then (Normal tt, broadcast socket (JSON_stringify parsedMessage) wss)
          else (Normal tt, logged (Warn "Unhandled message type:" type) wss)
      end
  end.
Proof.
  unfold on_message, try_catch, bind, lift.
  destruct (JSON_parse (toString rawMessage)) as [parsedMessage|e]; [|reflexivity].
  destruct (get_prop parsedMessage "type") as [type|e]; [|reflexivity].
  destruct (forwarded type); reflexivity.
Qed.

Lemma forwarded_spec type :
  forwarded type = true <->
  type = VStr "offer" \/ type = VStr "answer" \/ type = VStr "candidate".
Proof.
  unfold forwarded, strict_eq_str. split.
  - destruct type as [| | | |s| |]; simpl; try discriminate.
    rewrite !orb_true_iff, !bool_decide_eq_true. intuition congruence.
  - intros [->|[->| ->]]; reflexivity.
Qed.

Lemma broadcast_lookup socket text wss id :
  clients (broadcast socket text wss) !! id =
  (fun client => if negb (bool_decide (id = socket))
                    && bool_decide (readyState client = OPEN)
                 then send text client else client) <$> clients wss !! id.
Proof.
  unfold broadcast; simpl. rewrite map_lookup_imap.
  destruct (clients wss !! id); reflexivity.
Qed.

(** C6.  A broadcast reaches exactly the other open connections: after the
    handler has run on a frame whose type is forwarded, a client has the
    frame iff it is not the sender and its state is OPEN; every other
    client, the sender included, is as it was; the handler returns
    normally and writes nothing to the console. *)
Theorem broadcast_recipients socket rawMessage parsedMessage type wss :
  JSON_parse (toString rawMessage) = Normal parsedMessage ->
  get_prop parsedMessage "type" = Normal type ->
  forwarded type = true ->
  exists wss',
    on_message socket rawMessage wss = (Normal tt, wss') /\
    console wss' = console wss /\
    (forall id, clients wss !! id = None -> clients wss' !! id = None) /\
    (forall id client, clients wss !! id = Some client ->
       (id <> socket /\ readyState client = OPEN ->
          clients wss' !! id = Some (send (JSON_stringify parsedMessage) client)) /\
       (id = socket \/ readyState client <> OPEN ->
          clients wss' !! id = Some client)).
Proof.
  intros Hparse Htype Hfwd.
  exists (broadcast socket (JSON_stringify parsedMessage) wss).
  rewrite on_message_cases, Hparse, Htype, Hfwd.
  split; [reflexivity|]. split; [reflexivity|]. split.
  - intros id Hid. rewrite broadcast_lookup, Hid. reflexivity.
  - intros id client Hid. rewrite broadcast_lookup, Hid. simpl. split.
    + intros [Hne Hopen].
      rewrite (bool_decide_eq_false_2 _ Hne), (bool_decide_eq_true_2 _ Hopen).
      reflexivity.
    + intros [Heq|Hclosed].
      * rewrite (bool_decide_eq_true_2 _ Heq). reflexivity.
      * rewrite (bool_decide_eq_false_2 _ Hclosed), andb_false_r. reflexivity.
Qed.

(** The offer of client 0 at the three connections: it reaches client 1
    only. *)
Lemma broadcast_recipients_witness :
  exists wss',
    on_message 0 (OfString (JSONText Examples.offer_from_1111)) Examples.three_clients
    = (Normal tt, wss') /\
    console wss' = [] /\
    clients wss' !! 0 = Some (mkWebSocket OPEN []) /\
    clients wss' !! 1 = Some (mkWebSocket OPEN [JSONText Examples.offer_from_1111]) /\
    clients wss' !! 2 = Some (mkWebSocket CLOSING []).
Proof.
  destruct (broadcast_recipients 0 (OfString (JSONText Examples.offer_from_1111))
              Examples.offer_from_1111 (VStr "offer") Examples.three_clients
              eq_refl eq_refl eq_refl)
    as (wss' & Hrun & Hconsole & _ & Hclients).
  exists wss'. split; [exact Hrun|]. split; [exact Hconsole|].
  split; [|split].
  - apply (Hclients 0 (mkWebSocket OPEN [])); [reflexivity|]. left; reflexivity.
  - apply (Hclients 1 (mkWebSocket OPEN [])); [reflexivity|]. split; [lia|reflexivity].
  - apply (Hclients 2 (mkWebSocket CLOSING [])); [reflexivity|]. right; discriminate.
Defined.

(** The handler never lets an exception out and never changes the state of
    a socket, whatever the frame. *)
Lemma on_message_total socket rawMessage wss :
  exists wss',
    on_message socket rawMessage wss = (Normal tt, wss') /\
    forall id, readyState <$> clients wss' !! id = readyState <$> clients wss !! id.
Proof.
  rewrite on_message_cases.
  destruct (JSON_parse (toString rawMessage)) as [parsedMessage|e];
    [|eexists; split; [reflexivity|reflexivity]].
  destruct (get_prop parsedMessage "type") as [type|e];
    [|eexists; split; [reflexivity|reflexivity]].
  destruct (forwarded type); eexists; (split; [reflexivity|]); [|reflexivity].
  intros id. rewrite broadcast_lookup.
  destruct (clients wss !! id) as [client|]; [|reflexivity]. simpl.
  destruct (_ && _); reflexivity.
Qed.



(** C1.  A frame of type 'ice-candidate', the type the controller gives to
    every candidate it sends, falls to the default branch of the switch,
    which has a case for 'candidate' instead: the relay writes it to no
    client and warns of an unhandled type. *)
Theorem ice_candidate_not_forwarded socket rest wss :
  on_message socket
    (OfString (JSONText (VObj (("type", VStr "ice-candidate") :: rest)))) wss =
  (Normal tt,
   {| clients := clients wss;
      console := Warn "Unhandled message type:" (VStr "ice-candidate") :: console wss |}).
Proof. rewrite on_message_cases. reflexivity. Qed.

(** At the three connections, the candidate of client 1111 reaches
    nobody. *)
Example ice_candidate_not_forwarded_at_three_clients :
  snd (on_message 0 (OfString (JSONText Examples.ice_candidate_from_1111))
         Examples.three_clients) =
  {| clients := clients Examples.three_clients;
     console := [Warn "Unhandled message type:" (VStr "ice-candidate")] |}.
Proof. reflexivity. Qed.

(** The frames of type 'offer' and 'answer' are forwarded. *)
Lemma offer_answer_forwarded socket type rest wss :
  type = "offer" \/ type = "answer" ->
  on_message socket (OfString (JSONText (VObj (("type", VStr type) :: rest)))) wss =
  (Normal tt,
   broadcast socket (JSON_stringify (VObj (("type", VStr type) :: rest))) wss).
Proof. intros [->| ->]; rewrite on_message_cases; reflexivity. Qed.

(** C2, as stated, fails: there is no way to read a table from client
    identities to channels off the relay's state such that a 'register'
    frame records its sender, because the state after 'register' does not
    depend on the channel it came from. *)
Lemma register_records_no_mapping :
  ~ exists table : Server -> gmap string nat,
      forall wss socket clientId,
        table (snd (on_message socket
                      (OfString (JSONText (Examples.register_as clientId))) wss))
        !! clientId = Some socket.
Proof.
  intros [table Htable].
  pose proof (Htable Examples.three_clients 0 "1111") as H0.
  pose proof (Htable Examples.three_clients 1 "1111") as H1.
  rewrite on_message_cases in H0, H1. simpl in H0, H1.
  rewrite H0 in H1. discriminate.
Qed.

(** C2, amended.  A 'register' frame is an unhandled type to the relay:
    it warns, writes to no client, and keeps nothing of the identity or of
    the channel. *)
Theorem register_is_unhandled socket rest wss :
  on_message socket (OfString (JSONText (VObj (("type", VStr "register") :: rest)))) wss =
  (Normal tt,
   {| clients := clients wss;
      console := Warn "Unhandled message type:" (VStr "register") :: console wss |}).
Proof. rewrite on_message_cases. reflexivity. Qed.

End RelayProperties.

(** * The handler monad *)

Section MonadFacts.
Context {S : Type} (I : S -> Prop).

Lemma preserves_ret {A} (a : A) : preserves I (ret a).
Proof. intros s Hs. exact Hs. Qed.

Lemma preserves_throw {A} e : preserves I (@throw S A e).
Proof. intros s Hs. exact Hs. Qed.

Lemma preserves_lift {A} (c : Completion A) : preserves I (lift c).
Proof. intros s Hs. exact Hs. Qed.

Lemma preserves_read : preserves I read.
Proof. intros s Hs. exact Hs. Qed.

Lemma preserves_modify (f : S -> S) :
  (forall s, I s -> I (f s)) -> preserves I (modify f).
Proof. intros Hf s Hs. apply Hf, Hs. Qed.

Lemma preserves_bind {A B} (m : M S A) (k : A -> M S B) :
  preserves I m -> (forall a, preserves I (k a)) -> preserves I (bind m k).
Proof.
  intros Hm Hk s Hs. unfold bind. specialize (Hm s Hs).
  destruct (m s) as [[a|e] s']; simpl in *; [apply Hk|]; assumption.
Qed.

Lemma preserves_try_catch {A} (body : M S A) (handler : Exn -> M S A) :
  preserves I body -> (forall e, preserves I (handler e)) ->
  preserves I (try_catch body handler).
Proof.
  intros Hm Hk s Hs. unfold try_catch. specialize (Hm s Hs).
  destruct (body s) as [[a|e] s']; simpl in *; [|apply Hk]; assumption.
Qed.

Lemma preserves_forEach {A} (l : list A) (f : A -> M S unit) :
  (forall x, preserves I (f x)) -> preserves I (forEach l f).
Proof.
  intros Hf. induction l as [|x l IH]; simpl.
  - apply preserves_ret.
  - apply preserves_bind; [apply Hf|intros _; exact IH].
Qed.

Lemma preserves_call c site : preserves I (@Controller.call S c site).
Proof. unfold Controller.call. destruct (Controller.fails c site); intros s Hs; exact Hs. Qed.

Lemma preserves_exec (m : M S unit) s : preserves I m -> I s -> I (exec m s).
Proof. intros Hm Hs. apply Hm, Hs. Qed.

End MonadFacts.

(** Stepping through a handler. *)
Lemma try_catch_lift_normal {S A B} (v : A) (k : A -> M S B) h :
  try_catch (bind (lift (Normal v)) k) h = try_catch (k v) h.
Proof. reflexivity. Qed.

Lemma try_catch_lift_throw {S A B} e (k : A -> M S B) h s :
  try_catch (bind (lift (Throw e)) k) h s = h e s.
Proof. reflexivity. Qed.

Lemma try_catch_read {S B} (k : S -> M S B) h s :
  try_catch (bind read k) h s = try_catch (k s) h s.
Proof. reflexivity. Qed.

Lemma bind_runs {S A B} (m : M S A) (k : A -> M S B) s a s1 :
  m s = (Normal a, s1) -> bind m k s = k a s1.
Proof. intros Hm. unfold bind. rewrite Hm. reflexivity. Qed.

(** Breaks a handler into its primitive steps; [known] is tried first, for
    the parts that are not to be broken up. *)
Ltac preserve_using known :=
  repeat first
    [ known
    | apply preserves_ret
    | apply preserves_throw
    | apply preserves_lift
    | apply preserves_read
    | apply preserves_call
    | apply preserves_bind; [|intros ?]
    | apply preserves_try_catch; [|intros ?]
    | apply preserves_forEach; intros ?
    | match goal with
      | |- preserves _ (match ?x with _ => _ end) => destruct x
      end
    | apply preserves_modify; intros ? ? ].

Ltac preserve := preserve_using fail.

(** Refutes membership in a list of distinct constructors. *)
Ltac not_in :=
  let Hin := fresh "Hin" in
  intros Hin;
  repeat (apply elem_of_cons in Hin; destruct Hin as [Hin|Hin]; [discriminate|]);
  inversion Hin.

(** * Properties of the controller *)

Module ControllerProperties.
Import Controller.

Create HintDb handlers.

#[local] Hint Unfold
  setCallState setTargetClientId setMediaReady setLocalStream setRemoteStream
  setConnectionState setIsConnected setSocket console_log console_error
  console_error_text console_log_text createWebSocket socket_send onopen onclose onerror
  sendMessage sendMessage_on on_connection createPeerConnection getLocalMedia addLocalTracks
  createOffer handleOffer addIceCandidate onicecandidate ontrack
  onconnectionstatechange initializeMedia set_readyState : handlers.

(** Everything but [setCallState] leaves the call state alone. *)
Ltac frame := autounfold with handlers; preserve; assumption.

Lemma handleOffer_call_frame s t c offer from :
  preserves (call_frame s t) (handleOffer c offer from).
Proof. frame. Qed.

Lemma createOffer_call_frame s t c target :
  preserves (call_frame s t) (createOffer c target).
Proof. frame. Qed.

Lemma sendMessage_call_frame s t message :
  preserves (call_frame s t) (sendMessage message).
Proof. frame. Qed.

Lemma addIceCandidate_call_frame s t c candidate :
  preserves (call_frame s t) (addIceCandidate c candidate).
Proof. frame. Qed.

Lemma strict_eq_str_true v s : strict_eq_str v s = true <-> v = VStr s.
Proof.
  destruct v; simpl; try (split; [discriminate|congruence]).
  rewrite bool_decide_eq_true. split; congruence.
Qed.

Lemma strict_eq_str_false v s : strict_eq_str v s = false <-> v <> VStr s.
Proof.
  rewrite <- strict_eq_str_true. destruct (strict_eq_str v s); split; congruence.
Qed.

(** A handler body that does not call [setCallState] either leaves the
    call state alone or, if it throws, ends in [idle]. *)
Lemma caught_frame (body : M World unit) label w :
  (forall s t, preserves (call_frame s t) body) ->
  let w' := exec (try_catch body (recover label)) w in
  call_frame (callState w) (transitions w) w' \/
  call_frame idle (idle :: transitions w) w'.
Proof.
  intros Hbody. unfold exec, try_catch.
  pose proof (Hbody (callState w) (transitions w) w (conj eq_refl eq_refl)) as Hw.
  destruct (body w) as [[a|e] w1]; simpl in *.
  - left. exact Hw.
  - right. destruct Hw as [_ Ht]. split; [reflexivity|]. simpl. rewrite Ht. reflexivity.
Qed.

(** A body that starts with [setCallState s] ends in [s], or in [idle]
    by way of [s]. *)
Lemma guarded_transition s (rest : M World unit) label w :
  (forall s t, preserves (call_frame s t) rest) ->
  let w' := exec (try_catch (run setCallState s then rest) (recover label)) w in
  call_frame s (s :: transitions w) w' \/
  call_frame idle (idle :: s :: transitions w) w'.
Proof.
  intros Hrest.
  apply (caught_frame rest label (with_callState s w)) in Hrest.
  exact Hrest.
Qed.

(** The writes of the call state during one run of the message handler. *)
Lemma handleWebSocketMessage_transitions c data w :
  exists new,
    transitions (exec (handleWebSocketMessage c data) w) = (new ++ transitions w)%list /\
    callState (exec (handleWebSocketMessage c data) w) = hd (callState w) new /\
    (calling ∉ new) /\
    (receiving ∈ new -> inbound "offer" w data) /\
    (connected ∈ new -> inbound "answer" w data).
Proof.
  unfold exec.
  assert (Hquiet : forall body : M World unit,
             (forall s t, preserves (call_frame s t) body) ->
             exists new,
               transitions (snd (try_catch body
                   (recover "Error handling WebSocket message:") w))
               = (new ++ transitions w)%list /\
               callState (snd (try_catch body
                   (recover "Error handling WebSocket message:") w))
               = hd (callState w) new /\
               (calling ∉ new) /\
               (receiving ∈ new -> inbound "offer" w data) /\
               (connected ∈ new -> inbound "answer" w data)).
  { intros body Hbody.
    destruct (caught_frame body "Error handling WebSocket message:" w Hbody)
      as [[Hs Ht]|[Hs Ht]]; unfold exec in Hs, Ht.
    - exists []. rewrite Hs, Ht. repeat split; intros Hin; inversion Hin.
    - exists [idle]. rewrite Hs, Ht.
      repeat split; intros Hin; apply list_elem_of_singleton in Hin; discriminate. }
  unfold handleWebSocketMessage. fold (recover "Error handling WebSocket message:").
  destruct (JSON_parse data) as [message|e] eqn:Hparse.
  2:{ apply (Hquiet (bind (lift (Throw e)) _)). intros s t. frame. }
  rewrite try_catch_lift_normal.
  destruct (get_prop message "target") as [target|e] eqn:Htarget.
  2:{ apply (Hquiet (bind (lift (Throw e)) _)). intros s t. frame. }
  rewrite try_catch_lift_normal, try_catch_read.
  destruct (truthy target && negb (strict_eq_str target (clientId w))) eqn:Hfilter.
  { apply (Hquiet (ret tt)). intros s t. frame. }
  assert (Hpass : truthy target = false \/ target = VStr (clientId w)).
  { apply andb_false_iff in Hfilter as [Hf|Hf]; [left; exact Hf|right].
    apply negb_false_iff, strict_eq_str_true in Hf. exact Hf. }
  destruct (get_prop message "type") as [type|e] eqn:Htype.
  2:{ apply (Hquiet (bind (lift (Throw e)) _)). intros s t. frame. }
  rewrite try_catch_lift_normal.
  destruct (strict_eq_str type "register") eqn:Hregister.
  { apply Hquiet. intros s t. frame. }
  destruct (strict_eq_str type "offer") eqn:Hoffer.
  { apply strict_eq_str_true in Hoffer. subst type.
    match goal with
    | |- context [try_catch (bind (setCallState receiving) (fun _ => ?rest)) _ w] =>
        destruct (guarded_transition receiving rest
                    "Error handling WebSocket message:" w) as [[Hs Ht]|[Hs Ht]]
    end.
    - intros s t. apply preserves_bind; [frame|]. intros from.
      apply preserves_bind; [frame|]. intros _.
      apply preserves_bind; [frame|]. intros offer.
      apply preserves_bind; [apply handleOffer_call_frame|]. intros answer.
      apply sendMessage_call_frame.
    - exists [receiving]. unfold exec in Hs, Ht. rewrite Hs, Ht.
      split; [reflexivity|]. split; [reflexivity|]. split; [not_in|].
      split; [|not_in]. intros _. exists message, target. auto.
    - exists [idle; receiving]. unfold exec in Hs, Ht. rewrite Hs, Ht.
      split; [reflexivity|]. split; [reflexivity|]. split; [not_in|].
      split; [|not_in]. intros _. exists message, target. auto. }
  destruct (strict_eq_str type "answer") eqn:Hanswer.
  { apply strict_eq_str_true in Hanswer. subst type.
    match goal with
    | |- context [try_catch (bind (setCallState connected) (fun _ => ?rest)) _ w] =>
        destruct (guarded_transition connected rest
                    "Error handling WebSocket message:" w) as [[Hs Ht]|[Hs Ht]]
    end.
    - intros s t. frame.
    - exists [connected]. unfold exec in Hs, Ht. rewrite Hs, Ht.
      split; [reflexivity|]. split; [reflexivity|]. split; [not_in|].
      split; [not_in|]. intros _. exists message, target. auto.
    - exists [idle; connected]. unfold exec in Hs, Ht. rewrite Hs, Ht.
      split; [reflexivity|]. split; [reflexivity|]. split; [not_in|].
      split; [not_in|]. intros _. exists message, target. auto. }
  destruct (strict_eq_str type "ice-candidate") eqn:Hice.
  { apply Hquiet. intros s t. apply preserves_bind; [frame|]. intros candidate.
    apply addIceCandidate_call_frame. }
  apply (Hquiet (ret tt)). intros s t. frame.
Qed.

Lemma initiateCall_transitions c w :
  call_frame calling (calling :: transitions w) (exec (initiateCall c) w) \/
  call_frame idle (idle :: calling :: transitions w) (exec (initiateCall c) w).
Proof.
  unfold initiateCall. fold (recover "Call initiation failed:").
  apply guarded_transition. intros s t.
  apply preserves_bind; [frame|]. intros w'.
  apply preserves_bind; [apply createOffer_call_frame|]. intros offer.
  apply sendMessage_call_frame.
Qed.

(** The writes of the call state during one step: 'calling' is written only
    by the call button, pressed in 'idle'; 'receiving' only by an inbound
    offer that passes the target filter; 'connected' only by an inbound
    answer that passes the target filter.  The state after the step is the
    last write, or the state before if there is none. *)
Lemma step_writes c e w :
  exists new,
    transitions (step c e w) = (new ++ transitions w)%list /\
    callState (step c e w) = hd (callState w) new /\
    (calling ∈ new -> e = ClickCall /\ callState w = idle) /\
    (receiving ∈ new -> exists data, e = SocketMessage data /\ inbound "offer" w data) /\
    (connected ∈ new -> exists data, e = SocketMessage data /\ inbound "answer" w data).
Proof.
  assert (Hsame : forall w', call_frame (callState w) (transitions w) w' ->
            exists new,
              transitions w' = (new ++ transitions w)%list /\
              callState w' = hd (callState w) new /\
              (calling ∈ new -> e = ClickCall /\ callState w = idle) /\
              (receiving ∈ new ->
                 exists data, e = SocketMessage data /\ inbound "offer" w data) /\
              (connected ∈ new ->
                 exists data, e = SocketMessage data /\ inbound "answer" w data)).
  { intros w' [Hs Ht]. exists []. rewrite Hs, Ht.
    split; [reflexivity|]. split; [reflexivity|]. split; [not_in|]. split; not_in. }
  assert (Hquiet : forall m : M World unit,
            (forall s t, preserves (call_frame s t) m) ->
            call_frame (callState w) (transitions w) (exec m w)).
  { intros m Hm. apply Hm. split; reflexivity. }
  destruct e as [random|ws|ws|ws|ws| |data| |text| |pc candidate|pc stream|pc state];
    simpl.
  - apply Hsame. split; reflexivity.
  - apply Hsame. destruct (sockets w !! ws) as [s|]; [|split; reflexivity].
    destruct (bool_decide _); [|split; reflexivity].
    apply Hquiet. intros s0 t0. frame.
  - apply Hsame. destruct (sockets w !! ws) as [s|]; [|split; reflexivity].
    destruct (_ || _); [|split; reflexivity].
    apply Hquiet. intros s0 t0. frame.
  - apply Hsame. destruct (sockets w !! ws) as [s|]; [|split; reflexivity].
    destruct (bool_decide _); [split; reflexivity|].
    apply Hquiet. intros s0 t0. frame.
  - apply Hsame. destruct (sockets w !! ws) as [s|]; [|split; reflexivity].
    apply Hquiet. intros s0 t0. frame.
  - apply Hsame. destruct (reconnectTimers w) as [|n]; [split; reflexivity|].
    apply Hquiet. intros s0 t0. frame.
  - destruct (socket w) as [ws|]; [|apply Hsame; split; reflexivity].
    destruct (handleWebSocketMessage_transitions c data w)
      as (new & Ht & Hs & Hcalling & Hreceiving & Hconnected).
    exists new. split; [exact Ht|]. split; [exact Hs|].
    split; [intros Hin; contradiction|]. split; intros Hin; exists data; auto.
  - apply Hsame. apply Hquiet. intros s0 t0. frame.
  - apply Hsame. split; reflexivity.
  - destruct (isCallButtonDisabled w) eqn:Hdisabled; [apply Hsame; split; reflexivity|].
    assert (Hidle : callState w = idle).
    { unfold isCallButtonDisabled in Hdisabled.
      rewrite !orb_false_iff in Hdisabled.
      destruct Hdisabled as [[_ Hdisabled] _].
      apply negb_false_iff, bool_decide_eq_true in Hdisabled. exact Hdisabled. }
    destruct (initiateCall_transitions c w) as [[Hs Ht]|[Hs Ht]].
    + exists [calling]. rewrite Hs, Ht.
      split; [reflexivity|]. split; [reflexivity|]. split; [auto|]. split; not_in.
    + exists [idle; calling]. rewrite Hs, Ht.
      split; [reflexivity|]. split; [reflexivity|]. split; [auto|]. split; not_in.
  - apply Hsame. destruct (connections w !! pc) as [p|]; [|split; reflexivity].
    apply Hquiet. intros s0 t0. unfold onicecandidate.
    destruct (truthy candidate); [|frame].
    apply preserves_bind; [frame|]. intros _.
    apply preserves_bind; [frame|]. intros serialized.
    frame.
  - apply Hsame. destruct (connections w !! pc) as [p|]; [|split; reflexivity].
    apply Hquiet. intros s0 t0. frame.
  - apply Hsame. destruct (connections w !! pc) as [p|]; [|split; reflexivity].
    apply Hquiet. intros s0 t0. frame.
Qed.

(** C3, amended.  One step changes the call state to 'calling' only by the
    call button pressed in 'idle', to 'receiving' only by an inbound offer
    that passes the target filter, and to 'connected' only by an inbound
    answer that passes the target filter, whatever the state it arrives in
    ('idle' included); and these are the only events during which the
    respective state is written at all. *)
Theorem call_state_transitions c e w :
  (callState (step c e w) <> callState w ->
   match callState (step c e w) with
   | idle => True
   | calling => e = ClickCall /\ callState w = idle
   | receiving => exists data, e = SocketMessage data /\ inbound "offer" w data
   | connected => exists data, e = SocketMessage data /\ inbound "answer" w data
   end) /\
  (exists new,
     transitions (step c e w) = (new ++ transitions w)%list /\
     (calling ∈ new -> e = ClickCall /\ callState w = idle) /\
     (receiving ∈ new -> exists data, e = SocketMessage data /\ inbound "offer" w data) /\
     (connected ∈ new -> exists data, e = SocketMessage data /\ inbound "answer" w data)).
Proof.
  destruct (step_writes c e w)
    as (new & Ht & Hs & Hcalling & Hreceiving & Hconnected).
  split.
  - intros Hchanged.
    destruct new as [|s new]; simpl in Hs; [contradiction|].
    rewrite Hs. rewrite Hs in Hchanged.
    destruct s; [exact I|apply Hcalling|apply Hreceiving|apply Hconnected]; left.
  - exists new. auto.
Qed.

(** The step that takes the ready client to 'connected' is an inbound
    answer. *)
Lemma call_state_transitions_witness :
  exists data,
    SocketMessage (JSONText Scenario.answer_for_2222) = SocketMessage data /\
    inbound "answer" Scenario.ready data.
Proof.
  destruct (call_state_transitions Scenario.willing
              (SocketMessage (JSONText Scenario.answer_for_2222)) Scenario.ready)
    as [Hafter _].
  apply Hafter. vm_compute. discriminate.
Defined.

(** An answer the media stack rejects while the client is calling: the call
    state is set to 'connected' and then to 'idle'. *)
Example rejected_answer_ends_idle :
  transitions (step Scenario.refusing
                 (SocketMessage (JSONText Scenario.answer_for_2222)) Scenario.busy)
  = [idle; connected; calling].
Proof. vm_compute. reflexivity. Qed.

(** C3, as stated, fails: an answer addressed to this client takes it from
    'idle' to 'connected' in one step, with no call in progress and no
    connection; and a client that has answered an offer is 'receiving',
    not 'connected'. *)
Lemma idle_to_connected_in_one_step :
  callState Scenario.ready = idle /\
  peerConnectionRef Scenario.ready = None /\
  callState (step Scenario.willing
               (SocketMessage (JSONText Scenario.answer_for_2222)) Scenario.ready)
  = connected /\
  callState (step Scenario.willing
               (SocketMessage (JSONText Scenario.offer_for_2222)) Scenario.ready)
  = receiving.
Proof. repeat split. Qed.

(** C8, as stated, fails: an offer whose target is the empty string, which
    is present and is not this client's id, is handled. *)
Lemma empty_target_is_processed :
  get_prop Scenario.offer_with_empty_target "target" = Normal (VStr "") /\
  VStr "" <> VStr (clientId Scenario.ready) /\
  callState Scenario.ready = idle /\
  targetClientId Scenario.ready = VNull /\
  peerConnectionRef Scenario.ready = None /\
  let w' := step Scenario.willing
              (SocketMessage (JSONText Scenario.offer_with_empty_target))
              Scenario.ready in
  callState w' = receiving /\
  targetClientId w' = VStr "1111" /\
  peerConnectionRef w' = Some 0.
Proof. repeat split. discriminate. Qed.

(** C8, amended.  A frame whose target is truthy (for a string: not empty)
    and is not this client's id is discarded: the handler returns at once
    and the client is exactly as it was. *)
Theorem foreign_target_discarded c data message target w :
  JSON_parse data = Normal message ->
  get_prop message "target" = Normal target ->
  truthy target = true ->
  target <> VStr (clientId w) ->
  handleWebSocketMessage c data w = (Normal tt, w) /\
  step c (SocketMessage data) w = w.
Proof.
  intros Hparse Htarget Htruthy Hforeign.
  assert (Hrun : handleWebSocketMessage c data w = (Normal tt, w)).
  { unfold handleWebSocketMessage.
    rewrite Hparse, try_catch_lift_normal, Htarget, try_catch_lift_normal,
      try_catch_read, Htruthy.
    apply strict_eq_str_false in Hforeign. rewrite Hforeign. reflexivity. }
  split; [exact Hrun|]. simpl. destruct (socket w); [|reflexivity].
  unfold exec. rewrite Hrun. reflexivity.
Qed.

(** An offer for 3333 at the client 2222. *)
Lemma foreign_target_discarded_witness :
  handleWebSocketMessage Scenario.willing (JSONText Scenario.offer_for_3333)
    Scenario.ready = (Normal tt, Scenario.ready) /\
  step Scenario.willing (SocketMessage (JSONText Scenario.offer_for_3333))
    Scenario.ready = Scenario.ready.
Proof.
  apply (foreign_target_discarded Scenario.willing
           (JSONText Scenario.offer_for_3333) Scenario.offer_for_3333
           (VStr "3333")).
  - reflexivity.
  - reflexivity.
  - reflexivity.
  - intros Hown. vm_compute in Hown. discriminate Hown.
Defined.

(** ** Candidates, and answers when there is no connection *)

Lemma get_prop_defined message key key' v :
  get_prop message key = Normal v -> exists v', get_prop message key' = Normal v'.
Proof. destruct message; simpl; try discriminate; eauto. Qed.

Lemma filter_passes target id :
  truthy target = false \/ target = VStr id ->
  truthy target && negb (strict_eq_str target id) = false.
Proof.
  intros [Hfalsy| ->]; [rewrite Hfalsy; reflexivity|].
  unfold strict_eq_str. rewrite (bool_decide_eq_true_2 (id = id)) by reflexivity.
  apply andb_false_r.
Qed.

(** Evaluates the comparisons of the switch against a known type. *)
Ltac switch :=
  repeat match goal with
         | |- context [strict_eq_str (VStr ?a) ?b] =>
             let r := eval vm_compute in (strict_eq_str (VStr a) b) in
             change (strict_eq_str (VStr a) b) with r
         end;
  cbv iota.

(** Runs the handler on a frame that passes the filter, up to its switch. *)
Ltac enter_handler Hinbound :=
  let message := fresh "message" in
  let target := fresh "target" in
  let Hparse := fresh "Hparse" in
  let Htarget := fresh "Htarget" in
  let Hpass := fresh "Hpass" in
  let Htype := fresh "Htype" in
  destruct Hinbound as (message & target & Hparse & Htarget & Hpass & Htype);
  unfold handleWebSocketMessage;
  rewrite Hparse, try_catch_lift_normal, Htarget, try_catch_lift_normal,
    try_catch_read, (filter_passes _ _ Hpass), Htype, try_catch_lift_normal;
  switch.

Lemma addIceCandidate_without_link c candidate w :
  peerConnectionRef w = None -> addIceCandidate c candidate w = (Normal tt, w).
Proof. intros Href. unfold addIceCandidate, bind, read. rewrite Href. reflexivity. Qed.

Lemma addIceCandidate_falsy c candidate w :
  truthy candidate = false -> addIceCandidate c candidate w = (Normal tt, w).
Proof.
  intros Hfalsy. unfold addIceCandidate, bind, read. rewrite Hfalsy.
  destruct (peerConnectionRef w); reflexivity.
Qed.

Lemma addIceCandidate_rejected c candidate current w :
  peerConnectionRef w = Some current ->
  truthy candidate = true ->
  fails c NewRTCIceCandidate = true \/ fails c AddIceCandidate = true ->
  exists error,
    addIceCandidate c candidate w =
    (Normal tt, with_console (Error "Error adding ICE candidate:" error :: console w) w).
Proof.
  intros Href Htruthy Hfails.
  unfold addIceCandidate, bind, read, try_catch, call. rewrite Href, Htruthy.
  destruct (fails c NewRTCIceCandidate) eqn:Hnew.
  - eexists. reflexivity.
  - destruct Hfails as [Hfails|Hfails]; [discriminate|]. rewrite Hfails.
    eexists. reflexivity.
Qed.

(** C4, as stated, fails: with no connection at all, an answer addressed to
    this client changes the call state. *)
Lemma answer_without_link_is_not_a_noop :
  peerConnectionRef Scenario.ready = None /\
  inbound "answer" Scenario.ready (JSONText Scenario.answer_for_2222) /\
  callState Scenario.ready = idle /\
  callState (step Scenario.willing (SocketMessage (JSONText Scenario.answer_for_2222))
               Scenario.ready) = connected /\
  step Scenario.willing (SocketMessage (JSONText Scenario.answer_for_2222))
    Scenario.ready <> Scenario.ready.
Proof.
  split; [reflexivity|]. split.
  - exists Scenario.answer_for_2222, (VStr "2222"). repeat split. right. reflexivity.
  - split; [reflexivity|]. split; [reflexivity|].
    intros Hsame. apply (f_equal callState) in Hsame. vm_compute in Hsame.
    discriminate Hsame.
Qed.

(** ** An inbound offer *)

Lemma with_connections_twice x y w :
  with_connections x (with_connections y w) = with_connections x w.
Proof. reflexivity. Qed.

Lemma with_connections_same w : with_connections (connections w) w = w.
Proof. destruct w; reflexivity. Qed.

(** The loop of [addLocalTracks] on a media stack that takes every track. *)
Lemma addTrack_loop c pc tracks w :
  fails c AddTrack = false ->
  forEach tracks (fun track =>
    run call c AddTrack then on_connection pc (pc_addTrack track)) w
  = (Normal tt,
     with_connections
       (alter (fun p => foldl (fun p track => pc_addTrack track p) p tracks) pc
          (connections w)) w).
Proof.
  intros Hok. revert w. induction tracks as [|track tracks IH]; intros w.
  - simpl. unfold ret. rewrite list_alter_id by reflexivity.
    rewrite with_connections_same. reflexivity.
  - simpl. unfold bind at 1. unfold bind at 1. unfold call at 1. rewrite Hok.
    unfold ret, on_connection, modify. rewrite IH.
    change (connections (with_connections ?x w)) with x.
    rewrite with_connections_twice, list_alter_alter_eq. reflexivity.
Qed.

Lemma length_close_current ref pcs : length (close_current ref pcs) = length pcs.
Proof. destruct ref; simpl; [apply length_alter|reflexivity]. Qed.

Lemma createPeerConnection_runs c targetClientId w :
  fails c NewRTCPeerConnection = false ->
  createPeerConnection c targetClientId w =
  (Normal (length (connections w)),
   with_peerConnectionRef (Some (length (connections w)))
     (with_connections
        (close_current (peerConnectionRef w) (connections w) ++
         [mkRTCPeerConnection false targetClientId (socket w) []
            VUndefined VUndefined []]) w)).
Proof.
  intros Hok. unfold createPeerConnection, call. rewrite Hok.
  unfold bind, read, on_connection, modify, ret.
  destruct (peerConnectionRef w) as [current|]; simpl; [|reflexivity].
  rewrite length_alter. reflexivity.
Qed.

Lemma addLocalTracks_runs c pc w :
  fails c AddTrack = false ->
  exists g entries,
    keeps_link g /\
    addLocalTracks c pc w =
    (Normal tt,
     with_console (entries ++ console w)%list
       (with_connections (alter g pc (connections w)) w)).
Proof.
  intros Hok. unfold addLocalTracks. unfold bind at 1. unfold read.
  destruct (localStream w) as [stream|].
  - exists (fun p => foldl (fun p track => pc_addTrack track p) p (getTracks stream)), [].
    split.
    + intros p. generalize p. induction (getTracks stream) as [|track tracks IH];
        intros q; simpl; [repeat split|]. apply (IH (pc_addTrack track q)).
    + rewrite addTrack_loop by exact Hok. destruct w; reflexivity.
  - exists (fun p => p), [ErrorText "No local stream available."]. split.
    + intros p. repeat split.
    + unfold console_error_text, modify. rewrite list_alter_id by reflexivity.
      destruct w; reflexivity.
Qed.

(** [handleOffer] on a media stack that takes everything: the connection
    that was current is closed, a new one is made for the sender, holds the
    offer and the answer, and is the current one. *)
Lemma handleOffer_runs c offer from w :
  (forall site, fails c site = false) ->
  exists w1,
    handleOffer c offer from w = (Normal (answer_sdp c), w1) /\
    sockets w1 = sockets w /\ socket w1 = socket w /\ clientId w1 = clientId w /\
    callState w1 = callState w /\ transitions w1 = transitions w /\
    targetClientId w1 = targetClientId w /\
    peerConnectionRef w1 = Some (length (connections w)) /\
    length (connections w1) = Datatypes.S (length (connections w)) /\
    (forall i, i < length (connections w) ->
       connections w1 !! i = close_current (peerConnectionRef w) (connections w) !! i) /\
    (exists pc, connections w1 !! length (connections w) = Some pc /\
                closed pc = false /\ target pc = from /\
                remoteDescription pc = offer /\ localDescription pc = answer_sdp c).
Proof.
  intros Hok. unfold handleOffer.
  rewrite (bind_runs _ _ _ _ _ (createPeerConnection_runs c from w (Hok _))).
  set (n := length (connections w)).
  set (w0 := with_peerConnectionRef _ _).
  destruct (addLocalTracks_runs c n w0 (Hok _)) as (g & entries & Hg & Htracks).
  rewrite (bind_runs _ _ _ _ _ Htracks).
  unfold call. rewrite !Hok. unfold bind, ret, on_connection, modify.
  eexists. split; [reflexivity|]. simpl.
  assert (Hn : n = length (close_current (peerConnectionRef w) (connections w)))
    by (symmetry; apply length_close_current).
  repeat split.
  - rewrite !length_alter, length_app, length_close_current. simpl. fold n. lia.
  - intros i Hi. rewrite !list_lookup_alter_ne by lia.
    apply lookup_app_l. rewrite length_close_current. exact Hi.
  - rewrite !list_lookup_alter_eq, (list_lookup_middle _ _ _ n Hn).
    simpl. eexists. split; [reflexivity|]. simpl.
    destruct (Hg (mkRTCPeerConnection false from (socket w) [] VUndefined VUndefined []))
      as (Hclosed & Htarget & _).
    rewrite Hclosed, Htarget. repeat split.
Qed.

Lemma sendMessage_runs message w :
  exists w',
    sendMessage message w = (Normal tt, w') /\
    callState w' = callState w /\ transitions w' = transitions w /\
    targetClientId w' = targetClientId w /\
    peerConnectionRef w' = peerConnectionRef w /\
    connections w' = connections w /\
    (forall ws sock,
       socket w = Some ws -> sockets w !! ws = Some sock -> readyState sock = OPEN ->
       sockets w' !! ws =
       Some (send (JSON_stringify (VObj (set_prop "from" (VStr (clientId w)) message)))
               sock)).
Proof.
  unfold sendMessage, bind, read.
  destruct (socket w) as [ws|] eqn:Hsocket.
  2:{ exists w. repeat split. discriminate. }
  destruct (sockets w !! ws) as [sock|] eqn:Hsock.
  2:{ exists w. repeat split. intros ws' sock' Hws'. congruence. }
  destruct (bool_decide (readyState sock = OPEN)) eqn:Hopen.
  2:{ exists w. repeat split. intros ws' sock' Hws' Hsock' Hopen'.
      apply bool_decide_eq_false in Hopen. congruence. }
  eexists. split; [reflexivity|]. repeat split.
  intros ws' sock' Hws' Hsock' _. simpl.
  assert (ws' = ws) by congruence. subst ws'.
  rewrite list_lookup_alter_eq, Hsock'. reflexivity.
Qed.

(** C10.  An inbound offer that passes the target filter is handled the
    same in every call state: the handler's result does not depend on the
    call state it starts in.  On a media stack that takes every call it
    ends in 'receiving' with the sender as target peer, the connection that
    was current closed, a new connection for the sender holding the offer
    and the answer, and, the signalling socket being open, an 'answer' frame
    sent with the sender as its target. *)
Theorem offer_handled_in_every_state c data message w :
  inbound "offer" w data ->
  JSON_parse data = Normal message ->
  (forall s, handleWebSocketMessage c data (in_state s w)
             = handleWebSocketMessage c data w) /\
  ((forall site, fails c site = false) ->
   exists from offer w',
     get_prop message "from" = Normal from /\
     get_prop message "offer" = Normal offer /\
     handleWebSocketMessage c data w = (Normal tt, w') /\
     callState w' = receiving /\
     transitions w' = receiving :: transitions w /\
     targetClientId w' = from /\
     peerConnectionRef w' = Some (length (connections w)) /\
     (forall i pc, peerConnectionRef w = Some i -> connections w !! i = Some pc ->
        connections w' !! i = Some (pc_close pc)) /\
     (exists pc, connections w' !! length (connections w) = Some pc /\
                 closed pc = false /\ target pc = from /\
                 remoteDescription pc = offer /\
                 localDescription pc = answer_sdp c) /\
     (forall ws sock,
        socket w = Some ws -> sockets w !! ws = Some sock -> readyState sock = OPEN ->
        sockets w' !! ws =
        Some (send (JSON_stringify
                      (VObj [("type", VStr "answer"); ("answer", answer_sdp c);
                             ("target", from); ("from", VStr (clientId w))])) sock))).
Proof.
  intros Hinbound Hparse0. split.
  - intros s.
    destruct Hinbound as (message' & target & Hparse & Htarget & Hpass & Htype).
    unfold handleWebSocketMessage.
    rewrite Hparse, !try_catch_lift_normal, Htarget, !try_catch_lift_normal,
      !try_catch_read.
    change (clientId (in_state s w)) with (clientId w).
    rewrite (filter_passes _ _ Hpass), Htype, !try_catch_lift_normal.
    switch. reflexivity.
  - intros Hok. enter_handler Hinbound.
    assert (message0 = message) by congruence. subst message0.
    destruct (get_prop_defined _ _ "from" _ Htarget) as [from Hfrom].
    destruct (get_prop_defined _ _ "offer" _ Htarget) as [offer Hoffer].
    exists from, offer. unfold try_catch.
    erewrite bind_runs by reflexivity.
    rewrite Hfrom. erewrite bind_runs by reflexivity.
    erewrite bind_runs by reflexivity.
    rewrite Hoffer. erewrite bind_runs by reflexivity.
    destruct (handleOffer_runs c offer from
                (with_targetClientId from (with_callState receiving w)) Hok)
      as (w1 & Hrun & Hsockets & Hsocket & Hid & Hstate & Htrans & Htargetid
          & Href & Hlen & Hold & Hnew).
    rewrite (bind_runs _ _ _ _ _ Hrun).
    destruct (sendMessage_runs [("type", VStr "answer"); ("answer", answer_sdp c);
                                ("target", from)] w1)
      as (w' & Hsend & Hstate' & Htrans' & Htargetid' & Href' & Hconns' & Hsent).
    rewrite Hsend. exists w'. simpl in *.
    split; [reflexivity|]. split; [reflexivity|]. split; [reflexivity|].
    split; [congruence|]. split; [congruence|]. split; [congruence|].
    split; [congruence|]. split; [|split].
    + intros i pc Hcurrent Hpc. rewrite Hconns'.
      rewrite Hold by (eapply lookup_lt_Some; exact Hpc).
      rewrite Hcurrent. simpl. rewrite list_lookup_alter_eq, Hpc. reflexivity.
    + rewrite Hconns'. exact Hnew.
    + intros ws sock Hws Hsock Hopen.
      rewrite (Hsent ws sock) by congruence. rewrite Hid. reflexivity.
Qed.

(** ** One live connection *)

Lemma close_current_leaves_none ref pcs :
  single_live ref pcs ->
  forall i pc, close_current ref pcs !! i = Some pc -> closed pc = true.
Proof.
  intros Hone i pc Hpc. destruct (closed pc) eqn:Hclosed; [reflexivity|].
  destruct ref as [current|]; simpl in Hpc.
  - destruct (decide (current = i)) as [->|Hne].
    + rewrite list_lookup_alter_eq in Hpc.
      destruct (pcs !! i) as [old|]; [|discriminate].
      injection Hpc as <-. discriminate Hclosed.
    + rewrite list_lookup_alter_ne in Hpc by exact Hne.
      specialize (Hone i pc Hpc Hclosed). congruence.
  - specialize (Hone i pc Hpc Hclosed). discriminate.
Qed.

(** [createPeerConnection] closes the current connection before it makes
    the new one, whether or not making it succeeds. *)
Lemma createPeerConnection_links_ok c targetClientId :
  preserves links_ok (createPeerConnection c targetClientId).
Proof.
  intros w Hw. unfold links_ok in *.
  pose proof (close_current_leaves_none _ _ Hw) as Hnone.
  destruct (fails c NewRTCPeerConnection) eqn:Hfails.
  - unfold createPeerConnection, call. rewrite Hfails.
    unfold bind, read, on_connection, modify, throw.
    destruct (peerConnectionRef w) as [current|]; simpl in *;
      intros i pc Hpc Hlive; rewrite (Hnone i pc Hpc) in Hlive; discriminate.
  - rewrite (createPeerConnection_runs c targetClientId w Hfails). simpl.
    intros i pc Hpc Hlive.
    destruct (decide (i < length (connections w))) as [Hi|Hi].
    + rewrite lookup_app_l in Hpc by (rewrite length_close_current; exact Hi).
      rewrite (Hnone i pc Hpc) in Hlive. discriminate.
    + assert (Hlen : i < length (close_current (peerConnectionRef w) (connections w)
                                 ++ [mkRTCPeerConnection false targetClientId
                                       (socket w) [] VUndefined VUndefined []]))
        by (eapply lookup_lt_Some; exact Hpc).
      rewrite length_app, length_close_current in Hlen. simpl in Hlen.
      f_equal. lia.
Qed.

Lemma on_connection_links_ok pc f :
  (forall p, closed (f p) = closed p) ->
  preserves links_ok (on_connection pc f).
Proof.
  intros Hf w Hw i p Hp Hlive. simpl in *.
  destruct (decide (pc = i)) as [->|Hne].
  - rewrite list_lookup_alter_eq in Hp.
    destruct (connections w !! i) as [old|] eqn:Hold; [|discriminate].
    injection Hp as <-. rewrite Hf in Hlive. exact (Hw i old Hold Hlive).
  - rewrite list_lookup_alter_ne in Hp by exact Hne. exact (Hw i p Hp Hlive).
Qed.

Create HintDb above_links.

#[local] Hint Unfold
  setCallState setTargetClientId setMediaReady setLocalStream setRemoteStream
  setConnectionState setIsConnected setSocket console_log console_error
  console_error_text console_log_text createWebSocket socket_send onopen onclose onerror
  sendMessage sendMessage_on getLocalMedia addLocalTracks
  createOffer handleOffer addIceCandidate onicecandidate ontrack
  onconnectionstatechange initializeMedia set_readyState
  handleWebSocketMessage initiateCall : above_links.

(** Everything but [createPeerConnection] and [on_connection] leaves the
    connections alone. *)
Ltac links :=
  autounfold with above_links;
  preserve_using
    ltac:(idtac; match goal with
          | |- preserves _ (createPeerConnection _ _) =>
              apply createPeerConnection_links_ok
          | |- preserves _ (on_connection _ _) =>
              apply on_connection_links_ok; intros ?; reflexivity
          end);
  assumption.

Lemma handleWebSocketMessage_links_ok c data :
  preserves links_ok (handleWebSocketMessage c data).
Proof. links. Qed.

Lemma initiateCall_links_ok c : preserves links_ok (initiateCall c).
Proof. links. Qed.

Lemma step_links_ok c e w : links_ok w -> links_ok (step c e w).
Proof.
  intros Hw.
  destruct e as [random|ws|ws|ws|ws| |data| |text| |pc candidate|pc stream|pc state];
    simpl; try exact Hw.
  - destruct (sockets w !! ws) as [s|]; [|exact Hw].
    destruct (bool_decide _); [|exact Hw]. apply preserves_exec; [links|exact Hw].
  - destruct (sockets w !! ws) as [s|]; [|exact Hw].
    destruct (_ || _); [|exact Hw]. apply preserves_exec; [links|exact Hw].
  - destruct (sockets w !! ws) as [s|]; [|exact Hw].
    destruct (bool_decide _); [exact Hw|]. apply preserves_exec; [links|exact Hw].
  - destruct (sockets w !! ws) as [s|]; [|exact Hw].
    apply preserves_exec; [links|exact Hw].
  - destruct (reconnectTimers w) as [|n]; [exact Hw|].
    apply preserves_exec; [links|exact Hw].
  - destruct (socket w) as [ws|]; [|exact Hw].
    apply preserves_exec; [apply handleWebSocketMessage_links_ok|exact Hw].
  - apply preserves_exec; [links|exact Hw].
  - destruct (isCallButtonDisabled w); [exact Hw|].
    apply preserves_exec; [apply initiateCall_links_ok|exact Hw].
  - destruct (connections w !! pc) as [p|]; [|exact Hw].
    apply preserves_exec; [|exact Hw]. unfold onicecandidate.
    destruct (truthy candidate); links.
  - destruct (connections w !! pc) as [p|]; [|exact Hw].
    apply preserves_exec; [links|exact Hw].
  - destruct (connections w !! pc) as [p|]; [|exact Hw].
    apply preserves_exec; [links|exact Hw].
Qed.

Lemma reachable_links_ok w : reachable w -> links_ok w.
Proof.
  induction 1 as [random storage|c e w Hreach IH].
  - unfold mount. destruct (generateClientId random storage) as [id storage'].
    intros i pc Hpc. simpl in Hpc. rewrite lookup_nil in Hpc. discriminate.
  - apply step_links_ok, IH.
Qed.

(** At most one connection of a list is live when every live one is at the
    same place. *)
Lemma single_live_count ref pcs :
  single_live ref pcs -> length (live_links pcs) <= 1.
Proof.
  unfold live_links. revert ref. induction pcs as [|pc pcs IH]; intros ref Hone.
  - simpl. lia.
  - rewrite filter_cons. destruct (decide (closed pc = false)) as [Hlive|Hdead].
    + assert (Hrest : filter (fun pc => closed pc = false) pcs = []).
      { destruct (filter (fun pc => closed pc = false) pcs) as [|q rest] eqn:Hfilter;
          [reflexivity|].
        assert (Hq : q ∈ filter (fun pc => closed pc = false) pcs)
          by (rewrite Hfilter; left).
        apply list_elem_of_filter in Hq as [Hqlive Hq].
        apply list_elem_of_lookup in Hq as [j Hj].
        pose proof (Hone 0 pc eq_refl Hlive) as H0.
        pose proof (Hone (Datatypes.S j) q Hj Hqlive) as Hj'. congruence. }
      rewrite Hrest. simpl. lia.
    + apply (IH (match ref with Some (Datatypes.S i) => Some i | _ => None end)).
      intros i q Hq Hqlive. rewrite (Hone (Datatypes.S i) q Hq Hqlive). reflexivity.
Qed.

Lemma run_events_reachable es w :
  reachable w -> reachable (Scenario.run_events es w).
Proof.
  revert w. induction es as [|e es IH]; intros w Hw; [exact Hw|].
  apply IH. apply reachable_step, Hw.
Qed.

(** What was the current connection is closed when [createPeerConnection]
    returns or throws. *)
Lemma createPeerConnection_closes_current c targetClientId w i pc :
  peerConnectionRef w = Some i ->
  connections w !! i = Some pc ->
  connections (snd (createPeerConnection c targetClientId w)) !! i = Some (pc_close pc).
Proof.
  intros Href Hpc. destruct (fails c NewRTCPeerConnection) eqn:Hfails.
  - unfold createPeerConnection, call. rewrite Hfails.
    unfold bind, read, on_connection, modify, throw. rewrite Href. simpl.
    rewrite list_lookup_alter_eq, Hpc. reflexivity.
  - rewrite (createPeerConnection_runs c targetClientId w Hfails). simpl.
    rewrite Href. simpl.
    rewrite lookup_app_l by (rewrite length_alter; eapply lookup_lt_Some; exact Hpc).
    rewrite list_lookup_alter_eq, Hpc. reflexivity.
Qed.

(** C5.  In every state the client can reach there is at most one live
    connection, and it is the one [peerConnectionRef] holds;
    [createPeerConnection], which [createOffer] and [handleOffer] start
    with, closes the current connection before it makes another; two calls
    to [initiateCall] in a row leave at most one live connection. *)
Theorem single_live_link w :
  reachable w ->
  single_live (peerConnectionRef w) (connections w) /\
  length (live_links (connections w)) <= 1 /\
  (forall c targetClientId i pc,
     peerConnectionRef w = Some i -> connections w !! i = Some pc ->
     connections (snd (createPeerConnection c targetClientId w)) !! i
     = Some (pc_close pc)) /\
  (forall c1 c2,
     length (live_links
               (connections (exec (initiateCall c2) (exec (initiateCall c1) w))))
     <= 1).
Proof.
  intros Hreach. pose proof (reachable_links_ok w Hreach) as Hw.
  split; [exact Hw|]. split; [exact (single_live_count _ _ Hw)|]. split.
  - intros c targetClientId i pc. apply createPeerConnection_closes_current.
  - intros c1 c2. eapply single_live_count.
    apply (initiateCall_links_ok c2), (initiateCall_links_ok c1), Hw.
Qed.

(** After two calls the first connection is closed and the second is the
    only live one. *)
Lemma single_live_link_witness :
  live_links (connections Scenario.after_two_calls)
  = [mkRTCPeerConnection false (VStr "1111") (Some 0) [1; 0]
       (Examples.sdp "offer" "v=0 o=2222") VUndefined []] /\
  length (connections Scenario.after_two_calls) = 2 /\
  length (live_links (connections Scenario.after_two_calls)) <= 1.
Proof.
  assert (Hreach : reachable Scenario.after_two_calls).
  { unfold Scenario.after_two_calls, Scenario.ready.
    apply run_events_reachable, run_events_reachable, reachable_mount. }
  destruct (single_live_link Scenario.after_two_calls Hreach) as (_ & Hcount & _).
  split; [vm_compute; reflexivity|]. split; [vm_compute; reflexivity|].
  exact Hcount.
Defined.

(** ** The persisted identity *)

Lemma pretty_N_go_nonempty x s : s <> "" -> pretty_N_go x s <> "".
Proof.
  revert s. induction (N.lt_wf_0 x) as [x _ IH]; intros s Hs.
  destruct (decide (x = 0)%N) as [->|Hx].
  - rewrite pretty_N_go_0. exact Hs.
  - rewrite pretty_N_go_step by lia. apply IH; [apply N.div_lt; lia|discriminate].
Qed.

Lemma pretty_positive_nonempty (p : positive) : pretty p <> "".
Proof.
  unfold pretty, pretty_positive, pretty, pretty_N.
  destruct (decide (N.pos p = 0)%N) as [Hp|_]; [discriminate|].
  rewrite pretty_N_go_step by lia. apply pretty_N_go_nonempty. discriminate.
Qed.

(** A generated id is never the empty string, so it is truthy when it is
    read back. *)
Lemma fresh_id_nonempty random : fresh_id random <> "".
Proof.
  unfold fresh_id, pretty, pretty_Z.
  destruct (Qfloor _) as [|p|p].
  - discriminate.
  - apply pretty_positive_nonempty.
  - discriminate.
Qed.

(** [generateClientId]: what it returns is persisted and not empty; an id
    that is already there is returned and the storage left as it is; once
    it has run, it returns the same id, whatever [Math.random] draws. *)
Lemma generateClientId_stable random storage :
  let (id, storage') := generateClientId random storage in
  id <> "" /\
  storage' !! storage_key = Some id /\
  (forall old, storage !! storage_key = Some old -> old <> "" ->
               id = old /\ storage' = storage) /\
  (forall random', generateClientId random' storage' = (id, storage')).
Proof.
  unfold generateClientId, storage_key.
  destruct (storage !! "voip-client-id") as [old|] eqn:Hold.
  - destruct (bool_decide (old = "")) eqn:Hempty.
    + apply bool_decide_eq_true in Hempty. subst old.
      split; [apply fresh_id_nonempty|]. split; [apply lookup_insert_eq|].
      split; [intros old Hsome; congruence|].
      intros random'. rewrite lookup_insert_eq.
      rewrite bool_decide_eq_false_2 by apply fresh_id_nonempty. reflexivity.
    + apply bool_decide_eq_false in Hempty.
      split; [exact Hempty|]. split; [exact Hold|].
      split; [intros old' Hsome _; split; congruence|].
      intros random'. rewrite Hold, bool_decide_eq_false_2 by exact Hempty. reflexivity.
  - split; [apply fresh_id_nonempty|]. split; [apply lookup_insert_eq|].
    split; [intros old Hsome; discriminate|].
    intros random'. rewrite lookup_insert_eq.
    rewrite bool_decide_eq_false_2 by apply fresh_id_nonempty. reflexivity.
Qed.

Lemma socket_send_identity id ws text :
  registers id text -> preserves (identity id) (socket_send ws text).
Proof.
  intros Htext w (Hid & Hstored & Hne & Hframes).
  split; [exact Hid|]. split; [exact Hstored|]. split; [exact Hne|].
  intros ws' s frame Hs Hframe. simpl in Hs.
  destruct (decide (ws = ws')) as [->|Hother].
  - rewrite list_lookup_alter_eq in Hs.
    destruct (sockets w !! ws') as [old|] eqn:Hold; [|discriminate].
    injection Hs as <-. simpl in Hframe.
    apply elem_of_cons in Hframe as [->|Hframe]; [exact Htext|].
    exact (Hframes ws' old frame Hold Hframe).
  - rewrite list_lookup_alter_ne in Hs by exact Hother.
    exact (Hframes ws' s frame Hs Hframe).
Qed.

Lemma set_readyState_identity id ws state :
  preserves (identity id) (set_readyState ws state).
Proof.
  intros w (Hid & Hstored & Hne & Hframes).
  split; [exact Hid|]. split; [exact Hstored|]. split; [exact Hne|].
  intros ws' s frame Hs Hframe. simpl in Hs.
  destruct (decide (ws = ws')) as [->|Hother].
  - rewrite list_lookup_alter_eq in Hs.
    destruct (sockets w !! ws') as [old|] eqn:Hold; [|discriminate].
    injection Hs as <-. exact (Hframes ws' old frame Hold Hframe).
  - rewrite list_lookup_alter_ne in Hs by exact Hother.
    exact (Hframes ws' s frame Hs Hframe).
Qed.

Lemma createWebSocket_identity id : preserves (identity id) createWebSocket.
Proof.
  intros w (Hid & Hstored & Hne & Hframes).
  split; [exact Hid|]. split; [exact Hstored|]. split; [exact Hne|].
  intros ws s frame Hs Hframe. simpl in Hs.
  apply lookup_app_Some in Hs as [Hs|[_ Hs]].
  - exact (Hframes ws s frame Hs Hframe).
  - apply list_lookup_singleton_Some in Hs as [_ <-]. inversion Hframe.
Qed.

(** [onopen] registers with the client's id. *)
Lemma onopen_identity id ws : preserves (identity id) (onopen ws).
Proof.
  unfold onopen. apply preserves_bind; [frame|intros _].
  intros w Hw. rewrite (bind_runs read _ w w w eq_refl).
  pose proof Hw as (Hid & _).
  apply (preserves_bind (identity id)); [|intros _; frame|exact Hw].
  apply socket_send_identity. rewrite Hid.
  intros props Hframe _. injection Hframe as <-. reflexivity.
Qed.

(** A message of another type than 'register' goes out without disturbing
    the identity. *)
Lemma sendMessage_identity id type rest :
  type <> "register" ->
  preserves (identity id) (sendMessage (("type", VStr type) :: rest)).
Proof.
  intros Htype w Hw. unfold sendMessage.
  rewrite (bind_runs read _ w w w eq_refl).
  destruct (socket w) as [ws|]; [|exact Hw].
  destruct (sockets w !! ws) as [s|]; [|exact Hw].
  destruct (bool_decide (readyState s = OPEN)); [|exact Hw].
  apply socket_send_identity; [|exact Hw].
  intros props Hframe Hregister. injection Hframe as <-.
  simpl in Hregister. congruence.
Qed.

Lemma sendMessage_on_identity id ws type rest :
  type <> "register" ->
  preserves (identity id) (sendMessage_on ws (("type", VStr type) :: rest)).
Proof.
  intros Htype w Hw. unfold sendMessage_on.
  rewrite (bind_runs read _ w w w eq_refl).
  destruct ws as [ws|]; [|exact Hw].
  destruct (sockets w !! ws) as [s|]; [|exact Hw].
  destruct (bool_decide (readyState s = OPEN)); [|exact Hw].
  apply socket_send_identity; [|exact Hw].
  intros props Hframe Hregister. injection Hframe as <-.
  simpl in Hregister. congruence.
Qed.

Create HintDb above_sockets.

#[local] Hint Unfold
  setCallState setTargetClientId setMediaReady setLocalStream setRemoteStream
  setConnectionState setIsConnected setSocket console_log console_error
  console_error_text console_log_text onclose onerror on_connection createPeerConnection
  getLocalMedia addLocalTracks createOffer handleOffer addIceCandidate
  onicecandidate ontrack onconnectionstatechange initializeMedia
  handleWebSocketMessage initiateCall : above_sockets.

(** Everything but the writes to a signalling socket leaves the identity
    and the frames alone. *)
Ltac ident :=
  autounfold with above_sockets;
  preserve_using
    ltac:(idtac; match goal with
          | |- preserves _ (onopen _) => apply onopen_identity
          | |- preserves _ (sendMessage _) => apply sendMessage_identity; discriminate
          | |- preserves _ (sendMessage_on _ _) =>
              apply sendMessage_on_identity; discriminate
          | |- preserves _ (set_readyState _ _) => apply set_readyState_identity
          | |- preserves _ createWebSocket => apply createWebSocket_identity
          end);
  assumption.

Lemma step_identity id c e w : identity id w -> identity id (step c e w).
Proof.
  intros Hw.
  destruct e as [random|ws|ws|ws|ws| |data| |text| |pc candidate|pc stream|pc state];
    simpl; try exact Hw.
  - destruct Hw as (Hid & Hstored & Hne & Hframes).
    pose proof (generateClientId_stable random (localStorage w)) as Hstable.
    destruct (generateClientId random (localStorage w)) as [id' storage'].
    destruct Hstable as (_ & _ & Hkept & _).
    destruct (Hkept id Hstored Hne) as [_ ->].
    split; [exact Hid|]. split; [exact Hstored|]. split; [exact Hne|exact Hframes].
  - destruct (sockets w !! ws) as [s|]; [|exact Hw].
    destruct (bool_decide _); [|exact Hw]. apply preserves_exec; [ident|exact Hw].
  - destruct (sockets w !! ws) as [s|]; [|exact Hw].
    destruct (_ || _); [|exact Hw]. apply preserves_exec; [ident|exact Hw].
  - destruct (sockets w !! ws) as [s|]; [|exact Hw].
    destruct (bool_decide _); [exact Hw|]. apply preserves_exec; [ident|exact Hw].
  - destruct (sockets w !! ws) as [s|]; [|exact Hw].
    apply preserves_exec; [ident|exact Hw].
  - destruct (reconnectTimers w) as [|n]; [exact Hw|].
    apply preserves_exec; [ident|exact Hw].
  - destruct (socket w) as [ws|]; [|exact Hw].
    apply preserves_exec; [ident|exact Hw].
  - apply preserves_exec; [ident|exact Hw].
  - destruct (isCallButtonDisabled w); [exact Hw|].
    apply preserves_exec; [ident|exact Hw].
  - destruct (connections w !! pc) as [p|]; [|exact Hw].
    apply preserves_exec; [ident|exact Hw].
  - destruct (connections w !! pc) as [p|]; [|exact Hw].
    apply preserves_exec; [ident|exact Hw].
  - destruct (connections w !! pc) as [p|]; [|exact Hw].
    apply preserves_exec; [ident|exact Hw].
Qed.

Lemma reachable_identity w : reachable w -> identity (clientId w) w.
Proof.
  induction 1 as [random storage|c e w Hreach IH].
  - unfold mount.
    pose proof (generateClientId_stable random storage) as Hstable.
    destruct (generateClientId random storage) as [id storage'].
    destruct Hstable as (Hne & Hstored & _).
    split; [reflexivity|]. split; [exact Hstored|]. split; [exact Hne|].
    intros ws s frame Hs Hframe. simpl in Hs.
    apply list_lookup_singleton_Some in Hs as [_ <-]. inversion Hframe.
  - pose proof (step_identity _ c e w IH) as Hstep.
    destruct Hstep as (Hid & Hrest). rewrite Hid. split; [exact Hid|exact Hrest].
Qed.

(** What [SocketOpen] does to a socket that was connecting. *)
Lemma register_on_open c ws s w :
  sockets w !! ws = Some s ->
  readyState s = CONNECTING ->
  sockets (step c (SocketOpen ws) w) !! ws =
  Some (mkWebSocket OPEN
          (JSONText (VObj [("type", VStr "register"); ("clientId", VStr (clientId w))])
           :: sent s)).
Proof.
  intros Hs Hconnecting. simpl. rewrite Hs, Hconnecting. simpl.
  rewrite !list_lookup_alter_eq, Hs. reflexivity.
Qed.

(** C9.  The identity is generated once and is stable.  [generateClientId]
    stores what it returns, returns what is stored when that is not empty,
    and from then on returns the same id.  In every state the client can
    reach, its id is the persisted one, no event changes it, the client
    writes a 'register' frame with that id to a socket that opens (the
    first, or one made by the reconnection timer after a drop), and every
    'register' frame written to any of its sockets carries it. *)
Theorem identity_is_stable :
  (forall random storage,
     let (id, storage') := generateClientId random storage in
     id <> "" /\
     storage' !! storage_key = Some id /\
     (forall old, storage !! storage_key = Some old -> old <> "" ->
                  id = old /\ storage' = storage) /\
     (forall random', generateClientId random' storage' = (id, storage'))) /\
  (forall w,
     reachable w ->
     localStorage w !! storage_key = Some (clientId w) /\
     (forall c e, clientId (step c e w) = clientId w) /\
     (forall c ws s,
        sockets w !! ws = Some s -> readyState s = CONNECTING ->
        sockets (step c (SocketOpen ws) w) !! ws =
        Some (mkWebSocket OPEN
                (JSONText (VObj [("type", VStr "register");
                                 ("clientId", VStr (clientId w))]) :: sent s))) /\
     (forall ws s frame,
        sockets w !! ws = Some s -> frame ∈ sent s -> registers (clientId w) frame)).
Proof.
  split; [exact generateClientId_stable|].
  intros w Hreach. destruct (reachable_identity w Hreach) as (_ & Hstored & _ & Hframes).
  split; [exact Hstored|]. split; [|split].
  - intros c e. destruct (step_identity _ c e w (reachable_identity w Hreach)) as [Hid _].
    exact Hid.
  - intros c ws s. apply register_on_open.
  - exact Hframes.
Qed.

(** The channel drops and comes back: both sockets were registered as
    2222. *)
Lemma identity_is_stable_witness :
  sockets Scenario.reconnected =
  [mkWebSocket CLOSED [JSONText (Examples.register_as "2222")];
   mkWebSocket OPEN [JSONText (Examples.register_as "2222")]] /\
  localStorage Scenario.reconnected !! storage_key = Some "2222" /\
  clientId Scenario.reconnected = "2222" /\
  registers (clientId Scenario.reconnected) (JSONText (Examples.register_as "2222")).
Proof.
  assert (Hreach : reachable Scenario.reconnected).
  { unfold Scenario.reconnected. apply run_events_reachable, reachable_mount. }
  destruct identity_is_stable as [_ Hstable].
  destruct (Hstable Scenario.reconnected Hreach) as (Hstored & _ & _ & Hframes).
  split; [vm_compute; reflexivity|]. split; [exact Hstored|].
  split; [vm_compute; reflexivity|].
  apply (Hframes 1 (mkWebSocket OPEN [JSONText (Examples.register_as "2222")])).
  - vm_compute. reflexivity.
  - left.
Defined.

(** An offer that arrives while the client is calling someone else. *)
Lemma offer_handled_in_every_state_witness :
  callState Scenario.busy = calling /\
  peerConnectionRef Scenario.busy = Some 0 /\
  (forall s, handleWebSocketMessage Scenario.willing (JSONText Scenario.offer_for_2222)
               (in_state s Scenario.busy)
             = handleWebSocketMessage Scenario.willing (JSONText Scenario.offer_for_2222)
                 Scenario.busy) /\
  exists w',
    handleWebSocketMessage Scenario.willing (JSONText Scenario.offer_for_2222)
      Scenario.busy = (Normal tt, w') /\
    callState w' = receiving /\
    targetClientId w' = VStr "1111" /\
    peerConnectionRef w' = Some 1.
Proof.
  assert (Hinbound : inbound "offer" Scenario.busy (JSONText Scenario.offer_for_2222)).
  { exists Scenario.offer_for_2222, (VStr "2222"). repeat split. right. reflexivity. }
  destruct (offer_handled_in_every_state Scenario.willing
              (JSONText Scenario.offer_for_2222) Scenario.offer_for_2222
              Scenario.busy Hinbound eq_refl) as [Hsame Hruns].
  destruct (Hruns (fun site => eq_refl))
    as (from & offer & w' & Hfrom & _ & Hrun & Hstate & _ & Htarget & Href & _).
  split; [vm_compute; reflexivity|]. split; [vm_compute; reflexivity|].
  split; [exact Hsame|]. exists w'.
  split; [exact Hrun|]. split; [exact Hstate|]. split.
  - rewrite Htarget. injection Hfrom as <-. reflexivity.
  - rewrite Href. vm_compute. reflexivity.
Defined.

(** ** Answers and candidates and the current connection *)

Lemma createPeerConnection_ref_tracks c targetClientId :
  preserves ref_tracks_connections (createPeerConnection c targetClientId).
Proof.
  intros w Hw. destruct (fails c NewRTCPeerConnection) eqn:Hfails.
  - unfold createPeerConnection, call. rewrite Hfails.
    unfold bind, read, on_connection, modify, throw.
    unfold ref_tracks_connections in *.
    destruct (peerConnectionRef w) as [current|] eqn:Href; simpl; rewrite ?Href.
    + split; [discriminate|]. intros Hnil. apply Hw.
      apply (f_equal length) in Hnil. rewrite length_alter in Hnil.
      destruct (connections w); [reflexivity|discriminate].
    + exact Hw.
  - rewrite (createPeerConnection_runs c targetClientId w Hfails).
    unfold ref_tracks_connections. simpl. split; [discriminate|].
    intros Hnil. apply (f_equal length) in Hnil. rewrite length_app in Hnil.
    simpl in Hnil. lia.
Qed.

Lemma on_connection_ref_tracks pc f :
  preserves ref_tracks_connections (on_connection pc f).
Proof.
  intros w [Hnone Hnil]. unfold ref_tracks_connections. simpl. split.
  - intros Href. rewrite (Hnone Href). reflexivity.
  - intros Hempty. apply Hnil. apply (f_equal length) in Hempty.
    rewrite length_alter in Hempty. destruct (connections w); [reflexivity|discriminate].
Qed.

Ltac tracks :=
  autounfold with above_links;
  preserve_using
    ltac:(idtac; match goal with
          | |- preserves _ (createPeerConnection _ _) =>
              apply createPeerConnection_ref_tracks
          | |- preserves _ (on_connection _ _) => apply on_connection_ref_tracks
          end);
  assumption.

Lemma step_ref_tracks c e w :
  ref_tracks_connections w -> ref_tracks_connections (step c e w).
Proof.
  intros Hw.
  destruct e as [random|ws|ws|ws|ws| |data| |text| |pc candidate|pc stream|pc state];
    simpl; try exact Hw.
  - destruct (sockets w !! ws) as [s|]; [|exact Hw].
    destruct (bool_decide _); [|exact Hw]. apply preserves_exec; [tracks|exact Hw].
  - destruct (sockets w !! ws) as [s|]; [|exact Hw].
    destruct (_ || _); [|exact Hw]. apply preserves_exec; [tracks|exact Hw].
  - destruct (sockets w !! ws) as [s|]; [|exact Hw].
    destruct (bool_decide _); [exact Hw|]. apply preserves_exec; [tracks|exact Hw].
  - destruct (sockets w !! ws) as [s|]; [|exact Hw].
    apply preserves_exec; [tracks|exact Hw].
  - destruct (reconnectTimers w) as [|n]; [exact Hw|].
    apply preserves_exec; [tracks|exact Hw].
  - destruct (socket w) as [ws|]; [|exact Hw].
    apply preserves_exec; [tracks|exact Hw].
  - apply preserves_exec; [tracks|exact Hw].
  - destruct (isCallButtonDisabled w); [exact Hw|].
    apply preserves_exec; [tracks|exact Hw].
  - destruct (connections w !! pc) as [p|]; [|exact Hw].
    apply preserves_exec; [|exact Hw]. unfold onicecandidate.
    destruct (truthy candidate); tracks.
  - destruct (connections w !! pc) as [p|]; [|exact Hw].
    apply preserves_exec; [tracks|exact Hw].
  - destruct (connections w !! pc) as [p|]; [|exact Hw].
    apply preserves_exec; [tracks|exact Hw].
Qed.

Lemma reachable_ref_tracks w : reachable w -> ref_tracks_connections w.
Proof.
  induction 1 as [random storage|c e w Hreach IH].
  - unfold mount. destruct (generateClientId random storage) as [id storage'].
    split; reflexivity.
  - apply step_ref_tracks, IH.
Qed.

(** C4, amended.  For a frame that passes the target filter.  While
    [peerConnectionRef.current] is null, which in a state the client can
    reach is exactly while it has made no connection yet: a candidate is a
    no-op; an answer raises no fault and applies nothing, but sets the call
    state to 'connected'.  Once a connection has been made the ref keeps
    it, also after it has been closed, and an answer or a candidate is then
    handed to that connection, which holds it when the media stack takes
    it.  An empty (falsy) candidate is a no-op in every state; a candidate
    the media stack rejects is logged by [addIceCandidate] and changes
    nothing else, the call state included. *)
Theorem missing_link_and_bad_candidate c data w :
  (peerConnectionRef w = None -> inbound "ice-candidate" w data ->
   handleWebSocketMessage c data w = (Normal tt, w)) /\
  (peerConnectionRef w = None -> inbound "answer" w data ->
   handleWebSocketMessage c data w = (Normal tt, with_callState connected w)) /\
  (forall message candidate,
     inbound "ice-candidate" w data ->
     JSON_parse data = Normal message ->
     get_prop message "candidate" = Normal candidate ->
     truthy candidate = false ->
     handleWebSocketMessage c data w = (Normal tt, w)) /\
  (forall message candidate current,
     inbound "ice-candidate" w data ->
     JSON_parse data = Normal message ->
     get_prop message "candidate" = Normal candidate ->
     truthy candidate = true ->
     peerConnectionRef w = Some current ->
     fails c NewRTCIceCandidate = true \/ fails c AddIceCandidate = true ->
     exists error,
       handleWebSocketMessage c data w =
       (Normal tt, with_console (Error "Error adding ICE candidate:" error :: console w) w)) /\
  (reachable w -> (peerConnectionRef w = None <-> connections w = [])) /\
  (forall message candidate current,
     inbound "ice-candidate" w data ->
     JSON_parse data = Normal message ->
     get_prop message "candidate" = Normal candidate ->
     truthy candidate = true ->
     peerConnectionRef w = Some current ->
     fails c NewRTCIceCandidate = false ->
     fails c AddIceCandidate = false ->
     handleWebSocketMessage c data w =
     (Normal tt,
      with_connections (alter (pc_addIceCandidate candidate) current (connections w)) w)) /\
  (forall message answer current,
     inbound "answer" w data ->
     JSON_parse data = Normal message ->
     get_prop message "answer" = Normal answer ->
     peerConnectionRef w = Some current ->
     fails c NewRTCSessionDescription = false ->
     fails c SetRemoteDescription = false ->
     handleWebSocketMessage c data w =
     (Normal tt,
      with_connections
        (alter (pc_setRemoteDescription answer) current (connections w))
        (with_callState connected w))).
Proof.
  split; [|split; [|split; [|split; [|split; [|split]]]]].
  - intros Href Hinbound. enter_handler Hinbound.
    destruct (get_prop_defined _ _ "candidate" _ Htarget) as [candidate Hcandidate].
    rewrite Hcandidate, try_catch_lift_normal. unfold try_catch.
    rewrite (addIceCandidate_without_link _ _ _ Href). reflexivity.
  - intros Href Hinbound. enter_handler Hinbound.
    unfold try_catch, bind, setCallState, modify, read. simpl. rewrite Href. reflexivity.
  - intros message0 candidate Hinbound Hparse0 Hcandidate Hfalsy.
    enter_handler Hinbound.
    assert (message = message0) by congruence. subst message0.
    rewrite Hcandidate, try_catch_lift_normal. unfold try_catch.
    rewrite (addIceCandidate_falsy _ _ _ Hfalsy). reflexivity.
  - intros message0 candidate current Hinbound Hparse0 Hcandidate Htruthy Href Hfails.
    enter_handler Hinbound.
    assert (message = message0) by congruence. subst message0.
    rewrite Hcandidate, try_catch_lift_normal. unfold try_catch.
    destruct (addIceCandidate_rejected c candidate current w Href Htruthy Hfails)
      as [error Hrun].
    rewrite Hrun. exists error. reflexivity.
  - intros Hreach. exact (reachable_ref_tracks w Hreach).
  - intros message0 candidate current Hinbound Hparse0 Hcandidate Htruthy Href Hnew Hadd.
    enter_handler Hinbound.
    assert (message = message0) by congruence. subst message0.
    rewrite Hcandidate, try_catch_lift_normal.
    unfold try_catch, addIceCandidate. rewrite (bind_runs read _ _ _ _ eq_refl).
    rewrite Href, Htruthy. unfold call. rewrite Hnew, Hadd. reflexivity.
  - intros message0 answer current Hinbound Hparse0 Hanswer Href Hnew Hset.
    enter_handler Hinbound.
    assert (message = message0) by congruence. subst message0.
    unfold try_catch. erewrite bind_runs by reflexivity.
    rewrite (bind_runs read _ _ _ _ eq_refl).
    cbn [peerConnectionRef with_callState]. rewrite Href, Hanswer.
    unfold call. rewrite Hnew, Hset. reflexivity.
Qed.

(** A candidate and an answer before any call; an empty and a rejected
    candidate during one; and a candidate after the connection of the call
    has been closed, when no connection is live. *)
Lemma missing_link_and_bad_candidate_witness :
  handleWebSocketMessage Scenario.willing
    (JSONText (Scenario.candidate_for_2222 Examples.candidate_1)) Scenario.ready
  = (Normal tt, Scenario.ready) /\
  handleWebSocketMessage Scenario.willing (JSONText Scenario.answer_for_2222)
    Scenario.ready
  = (Normal tt, with_callState connected Scenario.ready) /\
  handleWebSocketMessage Scenario.willing
    (JSONText (Scenario.candidate_for_2222 (VStr ""))) Scenario.in_call
  = (Normal tt, Scenario.in_call) /\
  (exists error,
     handleWebSocketMessage Scenario.rejecting
       (JSONText (Scenario.candidate_for_2222 Examples.candidate_1)) Scenario.in_call
     = (Normal tt,
        with_console (Error "Error adding ICE candidate:" error
                      :: console Scenario.in_call) Scenario.in_call)) /\
  live_links (connections Scenes.stale) = [] /\
  handleWebSocketMessage Scenario.willing
    (JSONText (Scenario.candidate_for_2222 Examples.candidate_1)) Scenes.stale
  = (Normal tt,
     with_connections
       (alter (pc_addIceCandidate Examples.candidate_1) 0 (connections Scenes.stale))
       Scenes.stale).
Proof.
  assert (Hinbound : forall type message w,
            clientId w = "2222" ->
            get_prop message "target" = Normal (VStr "2222") ->
            get_prop message "type" = Normal (VStr type) ->
            inbound type w (JSONText message)).
  { intros type message w Hid Htarget Htype. exists message, (VStr "2222").
    rewrite Hid. auto. }
  split; [|split; [|split; [|split; [|split]]]].
  - apply (missing_link_and_bad_candidate Scenario.willing
             (JSONText (Scenario.candidate_for_2222 Examples.candidate_1))
             Scenario.ready); [reflexivity|].
    apply Hinbound; reflexivity.
  - apply (missing_link_and_bad_candidate Scenario.willing
             (JSONText Scenario.answer_for_2222) Scenario.ready); [reflexivity|].
    apply Hinbound; reflexivity.
  - apply (proj1 (proj2 (proj2 (missing_link_and_bad_candidate Scenario.willing
             (JSONText (Scenario.candidate_for_2222 (VStr ""))) Scenario.in_call)))
             (Scenario.candidate_for_2222 (VStr "")) (VStr ""));
      [apply Hinbound; reflexivity|reflexivity|reflexivity|reflexivity].
  - apply (proj1 (proj2 (proj2 (proj2 (missing_link_and_bad_candidate Scenario.rejecting
             (JSONText (Scenario.candidate_for_2222 Examples.candidate_1))
             Scenario.in_call))))
             (Scenario.candidate_for_2222 Examples.candidate_1) Examples.candidate_1 0);
      [apply Hinbound; reflexivity|reflexivity|reflexivity|reflexivity|reflexivity|].
    right. reflexivity.
  - vm_compute. reflexivity.
  - destruct (missing_link_and_bad_candidate Scenario.willing
                (JSONText (Scenario.candidate_for_2222 Examples.candidate_1))
                Scenes.stale) as (_ & _ & _ & _ & _ & Htaken & _).
    apply (Htaken (Scenario.candidate_for_2222 Examples.candidate_1)
             Examples.candidate_1 0);
      [apply Hinbound; vm_compute; reflexivity|reflexivity|reflexivity|reflexivity
      |vm_compute; reflexivity|reflexivity|reflexivity].
Defined.

End ControllerProperties.

(** * Properties of the earlier hook *)

Module WebRTC_jsProperties.
Import Controller WebRTC_js.

Lemma on_connection_one_link pc f : preserves one_link (on_connection pc f).
Proof.
  intros h Hh. unfold one_link in *. simpl.
  destruct (peerConnectionRef h) as [current|].
  - rewrite length_alter. exact Hh.
  - rewrite Hh. reflexivity.
Qed.

(** [createOffer] and [handleOffer] make a connection only when there is
    none. *)
Lemma ensurePeerConnection_one_link c : preserves one_link (ensurePeerConnection c).
Proof.
  intros h Hh. unfold ensurePeerConnection.
  rewrite (bind_runs read _ h h h eq_refl).
  destruct (peerConnectionRef h) as [current|] eqn:Href; [exact Hh|].
  unfold one_link in Hh. rewrite Href in Hh.
  unfold createPeerConnection, call.
  destruct (fails c NewRTCPeerConnection); simpl.
  - unfold one_link. simpl. rewrite Href. exact Hh.
  - unfold one_link. simpl. rewrite Hh. split; reflexivity.
Qed.

Create HintDb hook.

#[local] Hint Unfold addLocalTracks createOffer handleOffer addIceCandidate
  getLocalMedia : hook.

Ltac hook :=
  autounfold with hook;
  preserve_using
    ltac:(idtac; match goal with
          | |- preserves _ (ensurePeerConnection _) => apply ensurePeerConnection_one_link
          | |- preserves _ (on_connection _ _) => apply on_connection_one_link
          end);
  assumption.

Lemma step_one_link c a h : one_link h -> one_link (step c a h).
Proof.
  intros Hh. destruct a as [| |offer|candidate|candidate|stream]; simpl.
  - refine ((_ : preserves one_link (getLocalMedia c)) h Hh). hook.
  - refine ((_ : preserves one_link (createOffer c)) h Hh). hook.
  - refine ((_ : preserves one_link (handleOffer c offer)) h Hh). hook.
  - refine ((_ : preserves one_link (addIceCandidate c candidate)) h Hh). hook.
  - destruct (truthy candidate); exact Hh.
  - exact Hh.
Qed.

(** In webrtc.js too there is never more than one connection: the hook
    keeps the first it makes and never makes another. *)
Lemma single_link h : reachable h -> length (connections h) <= 1.
Proof.
  intros Hreach.
  assert (Hh : one_link h).
  { induction Hreach as [|c a h Hreach IH]; [reflexivity|apply step_one_link, IH]. }
  unfold one_link in Hh. destruct (peerConnectionRef h) as [current|].
  - lia.
  - rewrite Hh. simpl. lia.
Qed.

End WebRTC_jsProperties.

(** * The two together *)

Module RoundTrip.

(** The frame a controller writes to its socket when its connection reports
    a local candidate is one the relay does not forward. *)
Example local_candidate_stops_at_the_relay :
  let frame :=
    JSONText (VObj [("type", VStr "ice-candidate");
                    ("candidate", Examples.candidate_1);
                    ("target", VStr "1111"); ("from", VStr "2222")]) in
  (Controller.sockets
     (Controller.step Scenario.willing
        (Controller.IceCandidate 0 Examples.candidate_1) Scenario.in_call) !! 0
   ≫= fun s => head (sent s)) = Some frame /\
  snd (Relay.on_message 0 (Relay.OfString frame) Examples.three_clients) =
  {| Relay.clients := Relay.clients Examples.three_clients;
     Relay.console := [Warn "Unhandled message type:" (VStr "ice-candidate")] |}.
Proof. split; vm_compute; reflexivity. Qed.

End RoundTrip.

(** * More on the relay *)

Module RelayFurther.
Import Relay RelayProperties.

(** [JSON.stringify] gives back the value [JSON.parse] returned. *)
Lemma serializable_json : forall v, is_json v = true -> serializable v = v.
Proof.
  fix IH 1. intros [| | | | |items|props] Hjson; simpl in *;
    try reflexivity; try discriminate.
  - f_equal. revert Hjson. induction items as [|x items IHitems]; intros Hjson;
      [reflexivity|].
    simpl in *. apply andb_true_iff in Hjson as [Hx Hitems].
    rewrite (IHitems Hitems). f_equal.
    rewrite (IH x Hx). destruct x; try reflexivity. discriminate.
  - f_equal. revert Hjson. induction props as [|[k x] props IHprops]; intros Hjson;
      [reflexivity|].
    simpl in *. apply andb_true_iff in Hjson as [Hx Hprops].
    rewrite (IHprops Hprops), (IH x Hx). destruct x; try reflexivity. discriminate.
Qed.

(** X1.  Whatever the frame, the handler returns normally, adds and removes
    no client and changes no socket's state; a client is written to only
    when the frame parses to a value whose type is 'offer', 'answer' or
    'candidate', and that client is never the sender. *)
Theorem relay_touches_only_to_forward socket rawMessage wss :
  exists wss',
    on_message socket rawMessage wss = (Normal tt, wss') /\
    (forall id, readyState <$> clients wss' !! id = readyState <$> clients wss !! id) /\
    (forall id, clients wss' !! id <> clients wss !! id ->
       id <> socket /\
       exists parsedMessage type,
         JSON_parse (toString rawMessage) = Normal parsedMessage /\
         get_prop parsedMessage "type" = Normal type /\
         (type = VStr "offer" \/ type = VStr "answer" \/ type = VStr "candidate")).
Proof.
  rewrite on_message_cases.
  destruct (JSON_parse (toString rawMessage)) as [parsedMessage|e] eqn:Hparse;
    [|eexists; split; [reflexivity|]; split; [reflexivity|]; intros id Hid;
      contradiction].
  destruct (get_prop parsedMessage "type") as [type|e] eqn:Htype;
    [|eexists; split; [reflexivity|]; split; [reflexivity|]; intros id Hid;
      contradiction].
  destruct (forwarded type) eqn:Hforwarded;
    [|eexists; split; [reflexivity|]; split; [reflexivity|]; intros id Hid;
      contradiction].
  eexists. split; [reflexivity|]. split.
  - intros id. rewrite broadcast_lookup.
    destruct (clients wss !! id) as [client|]; [|reflexivity]. simpl.
    destruct (_ && _); reflexivity.
  - intros id Hid. rewrite broadcast_lookup in Hid.
    destruct (clients wss !! id) as [client|]; [|contradiction]. simpl in Hid.
    split.
    + intros ->. rewrite bool_decide_eq_true_2 in Hid by reflexivity.
      simpl in Hid. contradiction.
    + exists parsedMessage, type. split; [reflexivity|]. split; [exact Htype|].
      apply forwarded_spec, Hforwarded.
Qed.

(** X2.  A forwarded frame that holds no number, as an offer or an answer
    with its session description, [target] and [from], reaches every other
    open client as the same JSON value that came in: the relay parses and
    re-serializes it without changing it. *)
Theorem relay_forwards_verbatim socket rawMessage parsedMessage type wss id client :
  JSON_parse (toString rawMessage) = Normal parsedMessage ->
  is_json parsedMessage = true ->
  no_numbers parsedMessage = true ->
  get_prop parsedMessage "type" = Normal type ->
  forwarded type = true ->
  clients wss !! id = Some client ->
  id <> socket ->
  readyState client = OPEN ->
  clients (snd (on_message socket rawMessage wss)) !! id
  = Some (send (toString rawMessage) client).
Proof.
  intros Hparse Hjson _ Htype Hforwarded Hclient Hother Hopen.
  rewrite on_message_cases, Hparse, Htype, Hforwarded. simpl snd.
  rewrite broadcast_lookup, Hclient. simpl.
  rewrite (bool_decide_eq_false_2 _ Hother), (bool_decide_eq_true_2 _ Hopen). simpl.
  unfold JSON_stringify. rewrite (serializable_json _ Hjson).
  destruct (toString rawMessage) as [text|v]; [discriminate|].
  injection Hparse as ->. reflexivity.
Qed.

(** The offer of client 0 arrives at client 1 as it was sent. *)
Lemma relay_forwards_verbatim_witness :
  clients (snd (on_message 0 (OfBuffer (JSONText Examples.offer_from_1111))
                  Examples.three_clients)) !! 1
  = Some (mkWebSocket OPEN [JSONText Examples.offer_from_1111]).
Proof.
  apply (relay_forwards_verbatim 0 (OfBuffer (JSONText Examples.offer_from_1111))
           Examples.offer_from_1111 (VStr "offer") Examples.three_clients 1
           (mkWebSocket OPEN [])); try reflexivity.
  lia.
Defined.

End RelayFurther.

(** * Properties of the arithmetic on numbers *)

Module NumberFacts.
Local Open Scope Q_scope.

Lemma two_to_pos n : (0 <= n)%Z -> 0 < two_to n.
Proof.
  intros Hn. unfold two_to. change 0 with (inject_Z 0). rewrite <- Zlt_Qlt.
  apply Z.pow_pos_nonneg; lia.
Qed.

Lemma two_to_add a b : (0 <= a)%Z -> (0 <= b)%Z -> two_to (a + b) == two_to a * two_to b.
Proof.
  intros Ha Hb. unfold two_to. rewrite Z.pow_add_r by assumption.
  rewrite inject_Z_mult. reflexivity.
Qed.

Lemma nearest_even_floor z : (Qfloor z <= nearest_even z <= Qfloor z + 1)%Z.
Proof.
  unfold nearest_even. destruct (z - inject_Z (Qfloor z) ?= 1 # 2); [|lia|lia].
  destruct (Z.even (Qfloor z)); lia.
Qed.

Lemma floor_le_integer z k : z <= inject_Z k -> (Qfloor z <= k)%Z.
Proof.
  intros Hz. rewrite Zle_Qle. apply Qle_trans with z; [apply Qfloor_le|exact Hz].
Qed.

Lemma integer_le_floor z k : inject_Z k <= z -> (k <= Qfloor z)%Z.
Proof.
  intros Hz. rewrite <- (Qfloor_Z k). apply Qfloor_resp_le, Hz.
Qed.

Lemma nearest_even_ge z k : inject_Z k <= z -> (k <= nearest_even z)%Z.
Proof.
  intros Hz. pose proof (integer_le_floor z k Hz). pose proof (nearest_even_floor z). lia.
Qed.

Lemma nearest_even_below_half z k : z < inject_Z k + (1 # 2) -> (nearest_even z <= k)%Z.
Proof.
  intros Hz.
  assert (Hfloor : (Qfloor z <= k)%Z).
  { assert (Hlt : (Qfloor z < k + 1)%Z).
    { rewrite Zlt_Qlt. apply Qle_lt_trans with z; [apply Qfloor_le|].
      rewrite inject_Z_plus. change (inject_Z 1) with 1. lra. }
    lia. }
  destruct (Z.eq_dec (Qfloor z) k) as [Heq|Hne].
  - unfold nearest_even. rewrite Heq.
    assert (Hcmp : (z - inject_Z k ?= 1 # 2) = Lt) by (rewrite <- Qlt_alt; lra).
    rewrite Hcmp. lia.
  - pose proof (nearest_even_floor z). lia.
Qed.

Lemma nearest_even_le z k : z <= inject_Z k -> (nearest_even z <= k)%Z.
Proof. intros Hz. apply nearest_even_below_half. lra. Qed.

Lemma excess_bits_nonneg x : (0 <= excess_bits x)%Z.
Proof. unfold excess_bits. lia. Qed.

Lemma excess_bits_le x s :
  (0 <= s)%Z -> x * two_to 1074 < two_to (s + 53) -> (excess_bits x <= s)%Z.
Proof.
  intros Hs Hx. unfold excess_bits.
  destruct (Z_lt_le_dec 0 (Qfloor (x * two_to 1074))) as [Hpos|Hnonpos].
  - assert (Hlog : (Z.log2 (Qfloor (x * two_to 1074)) < s + 53)%Z).
    { apply Z.log2_lt_pow2; [exact Hpos|]. rewrite Zlt_Qlt.
      apply Qle_lt_trans with (x * two_to 1074); [apply Qfloor_le|exact Hx]. }
    lia.
  - rewrite Z.log2_nonpos by exact Hnonpos. lia.
Qed.

Lemma excess_bits_eq x s :
  (0 <= s)%Z -> two_to (s + 52) <= x * two_to 1074 -> x * two_to 1074 < two_to (s + 53) ->
  excess_bits x = s.
Proof.
  intros Hs Hlow Hhigh. unfold excess_bits.
  assert (Hlog : Z.log2 (Qfloor (x * two_to 1074)) = (s + 52)%Z).
  { apply Z.log2_unique; [lia|]. split.
    - apply integer_le_floor. exact Hlow.
    - rewrite Zlt_Qlt. replace (Z.succ (s + 52)) with (s + 53)%Z by lia.
      apply Qle_lt_trans with (x * two_to 1074); [apply Qfloor_le|exact Hhigh]. }
  rewrite Hlog. lia.
Qed.

Lemma grid_units s K : grid s K * two_to 1074 == inject_Z (K * 2 ^ s).
Proof.
  unfold grid. pose proof (two_to_pos 1074 ltac:(lia)). field. lra.
Qed.

Lemma to_units x y : x <= y <-> x * two_to 1074 <= y * two_to 1074.
Proof.
  pose proof (two_to_pos 1074 ltac:(lia)) as Hpos. split.
  - intros Hxy. apply Qmult_le_compat_r; lra.
  - intros Hxy. apply Qmult_le_r in Hxy; assumption.
Qed.

Lemma to_units_lt x y : x < y <-> x * two_to 1074 < y * two_to 1074.
Proof.
  pose proof (two_to_pos 1074 ltac:(lia)) as Hpos. split.
  - intros Hxy. apply Qmult_lt_compat_r; assumption.
  - intros Hxy. apply Qmult_lt_r in Hxy; assumption.
Qed.

Lemma grid_le s K K' : (0 <= s)%Z -> (K <= K')%Z -> grid s K <= grid s K'.
Proof.
  intros Hs HK. apply to_units. rewrite !grid_units, <- Zle_Qle.
  apply Z.mul_le_mono_nonneg_r; [apply Z.pow_nonneg; lia|exact HK].
Qed.

Lemma grid_lt_inv s K K' : (0 <= s)%Z -> grid s K < grid s K' -> (K < K')%Z.
Proof.
  intros Hs HK. apply to_units_lt in HK. rewrite !grid_units, <- Zlt_Qlt in HK.
  apply Z.mul_lt_mono_pos_r in HK; [exact HK|apply Z.pow_pos_nonneg; lia].
Qed.

Lemma round53_pos_grid x :
  round53_pos x == grid (excess_bits x)
                     (nearest_even (x * two_to 1074 / two_to (excess_bits x))).
Proof. reflexivity. Qed.

Lemma below_top x s :
  (0 <= s)%Z -> x < grid s (2 ^ 53) -> x * two_to 1074 < two_to (s + 53).
Proof.
  intros Hs Hx. apply to_units_lt in Hx. rewrite grid_units in Hx.
  unfold two_to. replace (s + 53)%Z with (53 + s)%Z by lia.
  rewrite Z.pow_add_r by lia. exact Hx.
Qed.

(** Rounding does not cross a point of the grid above. *)
Lemma round53_pos_le x K s :
  (0 <= s)%Z -> x <= grid s K -> x < grid s (2 ^ 53) -> round53_pos x <= grid s K.
Proof.
  intros Hs Hx Htop.
  pose proof (excess_bits_le x s Hs (below_top x s Hs Htop)) as Hle.
  pose proof (excess_bits_nonneg x) as Hnonneg.
  rewrite round53_pos_grid. set (sh := excess_bits x) in *.
  apply to_units. rewrite !grid_units, <- Zle_Qle.
  replace (K * 2 ^ s)%Z with (K * 2 ^ (s - sh) * 2 ^ sh)%Z
    by (rewrite <- Z.mul_assoc, <- Z.pow_add_r by lia; f_equal; f_equal; lia).
  apply Z.mul_le_mono_nonneg_r; [apply Z.pow_nonneg; lia|].
  apply nearest_even_le. apply Qle_shift_div_r; [apply two_to_pos, Hnonneg|].
  apply to_units in Hx. rewrite grid_units in Hx.
  unfold two_to at 2. rewrite <- inject_Z_mult.
  replace (K * 2 ^ (s - sh) * 2 ^ sh)%Z with (K * 2 ^ s)%Z
    by (rewrite <- Z.mul_assoc, <- Z.pow_add_r by lia; f_equal; f_equal; lia).
  exact Hx.
Qed.

(** Nor a point of the grid below. *)
Lemma round53_pos_ge x K s :
  (0 <= s)%Z -> grid s K <= x -> x < grid s (2 ^ 53) -> grid s K <= round53_pos x.
Proof.
  intros Hs Hx Htop.
  pose proof (excess_bits_le x s Hs (below_top x s Hs Htop)) as Hle.
  pose proof (excess_bits_nonneg x) as Hnonneg.
  rewrite round53_pos_grid. set (sh := excess_bits x) in *.
  apply to_units. rewrite !grid_units, <- Zle_Qle.
  replace (K * 2 ^ s)%Z with (K * 2 ^ (s - sh) * 2 ^ sh)%Z
    by (rewrite <- Z.mul_assoc, <- Z.pow_add_r by lia; f_equal; f_equal; lia).
  apply Z.mul_le_mono_nonneg_r; [apply Z.pow_nonneg; lia|].
  apply nearest_even_ge. apply Qle_shift_div_l; [apply two_to_pos, Hnonneg|].
  apply to_units in Hx. rewrite grid_units in Hx.
  unfold two_to at 1. rewrite <- inject_Z_mult.
  replace (K * 2 ^ (s - sh) * 2 ^ sh)%Z with (K * 2 ^ s)%Z
    by (rewrite <- Z.mul_assoc, <- Z.pow_add_r by lia; f_equal; f_equal; lia).
  exact Hx.
Qed.

Lemma in_binade x s :
  (0 <= s)%Z -> grid s (2 ^ 52) <= x -> x < grid s (2 ^ 53) -> excess_bits x = s.
Proof.
  intros Hs Hlow Hhigh. apply excess_bits_eq; [exact Hs| |apply below_top; assumption].
  apply to_units in Hlow. rewrite grid_units in Hlow.
  unfold two_to. replace (s + 52)%Z with (52 + s)%Z by lia.
  rewrite Z.pow_add_r by lia. exact Hlow.
Qed.

(** Within a binade, what lies nearer to a point of its grid than to the
    next one is rounded to that point or below. *)
Lemma round53_pos_near x K s :
  (0 <= s)%Z -> grid s (2 ^ 52) <= x -> x < grid s (2 ^ 53) ->
  x < grid s K + grid s 1 * (1 # 2) ->
  round53_pos x <= grid s K.
Proof.
  intros Hs Hlow Hhigh Hnear.
  rewrite round53_pos_grid, (in_binade x s Hs Hlow Hhigh).
  apply grid_le; [exact Hs|]. apply nearest_even_below_half.
  apply Qlt_shift_div_r; [apply two_to_pos, Hs|].
  apply to_units_lt in Hnear.
  assert (Hsum : (grid s K + grid s 1 * (1 # 2)) * two_to 1074
                 == (inject_Z K + (1 # 2)) * two_to s).
  { transitivity (grid s K * two_to 1074 + grid s 1 * two_to 1074 * (1 # 2));
      [ring|].
    rewrite !grid_units, !inject_Z_mult. unfold two_to. change (inject_Z 1) with 1.
    ring. }
  rewrite Hsum in Hnear. exact Hnear.
Qed.

Lemma round53_nonneg x : 0 <= x -> round53 x = round53_pos x.
Proof.
  intros Hx. unfold round53. apply Qle_bool_iff in Hx. rewrite Hx. reflexivity.
Qed.

(** The largest number below 1. *)
Lemma number_below_one r :
  0 <= r -> r < 1 -> is_number r -> r <= 1 - (1 # 9007199254740992).
Proof.
  intros Hlow Hhigh Hnumber. unfold is_number in Hnumber.
  rewrite (round53_nonneg r Hlow) in Hnumber.
  destruct (Qlt_le_dec r (1 # 2)) as [Hsmall|Hlarge]; [lra|].
  assert (Hhalf : grid 1021 (2 ^ 52) == 1 # 2) by (vm_compute; reflexivity).
  assert (Hone : grid 1021 (2 ^ 53) == 1) by (vm_compute; reflexivity).
  assert (Hlast : grid 1021 (2 ^ 53 - 1) == 1 - (1 # 9007199254740992))
    by (vm_compute; reflexivity).
  assert (Hbinade : excess_bits r = 1021%Z).
  { apply in_binade; [lia|rewrite Hhalf; exact Hlarge|rewrite Hone; exact Hhigh]. }
  rewrite round53_pos_grid, Hbinade in Hnumber.
  assert (Hlt : (nearest_even (r * two_to 1074 / two_to 1021) < 2 ^ 53)%Z).
  { apply (grid_lt_inv 1021); [lia|]. rewrite Hnumber, Hone. exact Hhigh. }
  apply Qle_trans with (grid 1021 (nearest_even (r * two_to 1074 / two_to 1021)));
    [rewrite Hnumber; lra|].
  apply Qle_trans with (grid 1021 (2 ^ 53 - 1)); [|rewrite Hlast; lra].
  apply grid_le; lia.
Qed.

Lemma draw_in_range r :
  0 <= r -> r < 1 -> is_number r ->
  1000 <= number_add 1000 (number_mul r 9000) /\
  number_add 1000 (number_mul r 9000) <= 10000 - (1 # 549755813888).
Proof.
  intros Hlow Hhigh Hnumber.
  pose proof (number_below_one r Hlow Hhigh Hnumber) as Hlast.
  assert (Htop : grid 1035 (2 ^ 53) == 16384) by (vm_compute; reflexivity).
  assert (Hmid : grid 1035 (2 ^ 52) == 8192) by (vm_compute; reflexivity).
  assert (Hmid' : grid 1034 (2 ^ 53) == 8192) by (vm_compute; reflexivity).
  assert (Hulp : grid 1035 1 == 1 # 549755813888) by (vm_compute; reflexivity).
  assert (Hzero : grid 1035 0 == 0) by (vm_compute; reflexivity).
  assert (Hp : grid 1035 (9000 * 2 ^ 39 - 1) == 9000 - (1 # 549755813888))
    by (vm_compute; reflexivity).
  assert (Hthousand : grid 1035 (1000 * 2 ^ 39) == 1000) by (vm_compute; reflexivity).
  assert (Hv : grid 1035 (10000 * 2 ^ 39 - 1) == 10000 - (1 # 549755813888))
    by (vm_compute; reflexivity).
  (* the product *)
  assert (Hproduct : 0 <= number_mul r 9000 /\
                     number_mul r 9000 <= 9000 - (1 # 549755813888)).
  { unfold number_mul. rewrite round53_nonneg by lra. split.
    - apply Qle_trans with (grid 1035 0); [rewrite Hzero; lra|].
      apply round53_pos_ge; [lia|rewrite Hzero; lra|rewrite Htop; lra].
    - destruct (Qlt_le_dec (r * 9000) 8192) as [Hbelow|Habove].
      + apply Qle_trans with (grid 1034 (2 ^ 53)); [|rewrite Hmid'; lra].
        apply round53_pos_le; [lia|rewrite Hmid'; lra|rewrite Hmid'; exact Hbelow].
      + apply Qle_trans with (grid 1035 (9000 * 2 ^ 39 - 1)); [|rewrite Hp; lra].
        apply round53_pos_near;
          [lia|rewrite Hmid; exact Habove|rewrite Htop; lra|].
        rewrite Hp, Hulp. lra. }
  destruct Hproduct as [Hp0 Hp1].
  unfold number_add. rewrite round53_nonneg by lra. split.
  - apply Qle_trans with (grid 1035 (1000 * 2 ^ 39)); [rewrite Hthousand; lra|].
    apply round53_pos_ge; [lia|rewrite Hthousand; lra|rewrite Htop; lra].
  - apply Qle_trans with (grid 1035 (10000 * 2 ^ 39 - 1)); [|rewrite Hv; lra].
    apply round53_pos_le; [lia|rewrite Hv; lra|rewrite Htop; lra].
Qed.

Lemma fresh_id_range r :
  0 <= r -> r < 1 -> is_number r ->
  (1000 <= Qfloor (number_add 1000 (number_mul r 9000)) <= 9999)%Z.
Proof.
  intros Hlow Hhigh Hnumber.
  destruct (draw_in_range r Hlow Hhigh Hnumber) as [H1 H2]. split.
  - apply integer_le_floor. exact H1.
  - assert (Hlt : (Qfloor (number_add 1000 (number_mul r 9000)) < 10000)%Z).
    { rewrite Zlt_Qlt.
      apply Qle_lt_trans with (number_add 1000 (number_mul r 9000));
        [apply Qfloor_le|]. change (inject_Z 10000) with 10000. lra. }
    lia.
Qed.

End NumberFacts.

(** * More on the controller *)

Module ControllerFurther.
Import Controller ControllerProperties.

(** ** What goes out on the signalling socket *)

Lemma lookup_set_prop key v props :
  lookup_prop key (set_prop key v props) = v.
Proof.
  induction props as [|[k old] props IH]; simpl.
  - rewrite bool_decide_eq_true_2 by reflexivity. reflexivity.
  - destruct (bool_decide (k = key)) eqn:Hk; simpl; rewrite Hk; [reflexivity|exact IH].
Qed.

Lemma lookup_set_prop_other key key' v props :
  key <> key' -> lookup_prop key' (set_prop key v props) = lookup_prop key' props.
Proof.
  intros Hother. induction props as [|[k old] props IH]; simpl.
  - rewrite bool_decide_eq_false_2 by exact Hother. reflexivity.
  - destruct (bool_decide (k = key)) eqn:Hk; simpl.
    + apply bool_decide_eq_true in Hk. subst k.
      rewrite bool_decide_eq_false_2 by exact Hother. reflexivity.
    + rewrite IH. reflexivity.
Qed.

(** A property that has a value keeps it, serialized, through
    [JSON.stringify]. *)
Lemma lookup_serialized key props props' :
  serializable (VObj props) = VObj props' ->
  lookup_prop key props <> VUndefined ->
  lookup_prop key props' = serializable (lookup_prop key props).
Proof.
  intros Hprops. injection Hprops as <-.
  induction props as [|[k x] props IH]; simpl; intros Hdefined; [contradiction|].
  destruct (bool_decide (k = key)) eqn:Hk.
  - destruct x; try contradiction; simpl; rewrite Hk; reflexivity.
  - destruct x; simpl; rewrite ?Hk; apply IH, Hdefined.
Qed.

(** X3.  [sendMessage] writes nothing when there is no socket or the socket
    is not open; on an open socket it writes one frame, which carries the
    client's own id as [from], whatever [from] the caller put in the
    message, and every other field of the message that has a value. *)
Theorem sent_frame_carries_own_id message w :
  exists w',
    sendMessage message w = (Normal tt, w') /\
    ((forall ws s, socket w = Some ws -> sockets w !! ws = Some s ->
                   readyState s <> OPEN) -> w' = w) /\
    (forall ws s,
       socket w = Some ws -> sockets w !! ws = Some s -> readyState s = OPEN ->
       exists props,
         sockets w' !! ws = Some (send (JSONText (VObj props)) s) /\
         lookup_prop "from" props = VStr (clientId w) /\
         forall key, key <> "from" -> lookup_prop key message <> VUndefined ->
                     lookup_prop key props = serializable (lookup_prop key message)).
Proof.
  unfold sendMessage. rewrite (bind_runs read _ w w w eq_refl).
  destruct (socket w) as [ws|] eqn:Hsocket.
  2:{ exists w. split; [reflexivity|]. split; [reflexivity|]. discriminate. }
  destruct (sockets w !! ws) as [s|] eqn:Hs.
  2:{ exists w. split; [reflexivity|]. split; [reflexivity|].
      intros ws' s' Hws'. congruence. }
  destruct (bool_decide (readyState s = OPEN)) eqn:Hopen.
  2:{ exists w. split; [reflexivity|]. split; [reflexivity|].
      intros ws' s' Hws' Hs' Hopen'. apply bool_decide_eq_false in Hopen. congruence. }
  apply bool_decide_eq_true in Hopen.
  eexists. split; [reflexivity|]. split.
  - intros Hclosed. destruct (Hclosed ws s eq_refl Hs Hopen).
  - intros ws' s' Hws' Hs' _. assert (ws' = ws) by congruence. subst ws'.
    assert (s' = s) by congruence. subst s'.
    destruct (serializable (VObj (set_prop "from" (VStr (clientId w)) message)))
      as [| | | | | |props] eqn:Hprops; try discriminate.
    exists props. split; [|split].
    + simpl. rewrite list_lookup_alter_eq, Hs. unfold JSON_stringify.
      rewrite Hprops. reflexivity.
    + rewrite (lookup_serialized _ _ _ Hprops); rewrite lookup_set_prop;
        [reflexivity|discriminate].
    + intros key Hkey Hdefined.
      rewrite (lookup_serialized _ _ _ Hprops);
        rewrite lookup_set_prop_other by congruence; [reflexivity|exact Hdefined].
Qed.

Lemma serializeIceCandidate_total candidate :
  exists serialized, serializeIceCandidate candidate = Normal serialized.
Proof.
  unfold serializeIceCandidate.
  destruct (truthy candidate) eqn:Htruthy; simpl; [|eexists; reflexivity].
  destruct candidate; try discriminate; simpl; eexists; reflexivity.
Qed.

(** X4.  [serializeIceCandidate] never throws, gives [null] for a missing
    candidate, and gives back what it is given when that is already a
    serialized candidate. *)
Theorem serializeIceCandidate_idempotent candidate :
  exists serialized,
    serializeIceCandidate candidate = Normal serialized /\
    (truthy candidate = false -> serialized = VNull) /\
    serializeIceCandidate serialized = Normal serialized.
Proof.
  unfold serializeIceCandidate at 1.
  destruct (truthy candidate) eqn:Htruthy; simpl.
  - destruct candidate; try discriminate; simpl;
      (eexists; split; [reflexivity|]; split; [discriminate|reflexivity]).
  - exists VNull. split; [reflexivity|]. split; reflexivity.
Qed.

(** X5.  A local candidate goes out through the [sendMessage] its
    connection was made with: to the peer the connection was made for, also
    when the target field of the form has changed since, and on the socket
    that was the current one then.  When that socket is not open any more,
    as after a reconnection, nothing is written to any socket, whatever
    socket the client has by now.  The null candidate that ends gathering
    sends nothing. *)
Theorem local_candidate_goes_to_the_links_peer c pc p candidate w :
  connections w !! pc = Some p ->
  (truthy candidate = false -> step c (IceCandidate pc candidate) w = w) /\
  (truthy candidate = true ->
   (forall ws s,
      signaling p = Some ws -> sockets w !! ws = Some s -> readyState s = OPEN ->
      exists serialized,
        serializeIceCandidate candidate = Normal serialized /\
        sockets (step c (IceCandidate pc candidate) w)
        = alter (send (JSON_stringify
                         (VObj [("type", VStr "ice-candidate");
                                ("candidate", serialized);
                                ("target", target p);
                                ("from", VStr (clientId w))])))
            ws (sockets w)) /\
   ((forall ws s,
       signaling p = Some ws -> sockets w !! ws = Some s -> readyState s <> OPEN) ->
    sockets (step c (IceCandidate pc candidate) w) = sockets w)).
Proof.
  intros Hp. simpl. rewrite Hp. unfold onicecandidate, exec. split.
  - intros ->. reflexivity.
  - intros Htruthy. rewrite Htruthy.
    destruct (serializeIceCandidate_total candidate) as [serialized Hserialized].
    rewrite Hserialized.
    erewrite bind_runs by reflexivity. erewrite bind_runs by reflexivity.
    unfold sendMessage_on. erewrite bind_runs by reflexivity.
    cbn [sockets with_console clientId]. split.
    + intros ws s Hsignaling Hs Hopen. exists serialized. split; [reflexivity|].
      rewrite Hsignaling, Hs, bool_decide_eq_true_2 by exact Hopen. reflexivity.
    + intros Hnot. destruct (signaling p) as [ws|]; [|reflexivity].
      destruct (sockets w !! ws) as [s|] eqn:Hs; [|reflexivity].
      destruct (bool_decide (readyState s = OPEN)) eqn:Hopen; [|reflexivity].
      apply bool_decide_eq_true in Hopen.
      destruct (Hnot ws s eq_refl Hs Hopen).
Qed.

(** The candidate of a connection made for 1111 still goes to 1111 after
    the form's target has become 9999; after a reconnection it goes
    nowhere, although the client has an open socket again. *)
Lemma local_candidate_goes_to_the_links_peer_witness :
  targetClientId Scenes.retargeted = VStr "9999" /\
  sockets (step Scenario.willing (IceCandidate 0 Examples.candidate_1)
             Scenes.retargeted)
  = alter (send (JSONText (VObj [("type", VStr "ice-candidate");
                                 ("candidate", Examples.candidate_1);
                                 ("target", VStr "1111");
                                 ("from", VStr "2222")])))
      0 (sockets Scenes.retargeted) /\
  socket Scenes.call_reconnected = Some 1 /\
  (readyState <$> sockets Scenes.call_reconnected) = [CLOSED; OPEN] /\
  sockets (step Scenario.willing (IceCandidate 0 Examples.candidate_1)
             Scenes.call_reconnected)
  = sockets Scenes.call_reconnected.
Proof.
  split; [vm_compute; reflexivity|].
  set (p := mkRTCPeerConnection false (VStr "1111") (Some 0) [1; 0]
              (Examples.sdp "answer" "v=0 a=2222")
              (Examples.sdp "offer" "v=0 o=1111") []).
  destruct (local_candidate_goes_to_the_links_peer Scenario.willing 0 p
              Examples.candidate_1 Scenes.retargeted) as [_ Hsent].
  { vm_compute. reflexivity. }
  destruct (local_candidate_goes_to_the_links_peer Scenario.willing 0 p
              Examples.candidate_1 Scenes.call_reconnected) as [_ Hlost].
  { vm_compute. reflexivity. }
  destruct (Hsent eq_refl) as [Hopen _]. destruct (Hlost eq_refl) as [_ Hstale].
  split.
  - destruct (Hopen 0 (mkWebSocket OPEN
                 [JSONText (VObj [("type", VStr "answer");
                                  ("answer", Examples.sdp "answer" "v=0 a=2222");
                                  ("target", VStr "1111"); ("from", VStr "2222")]);
                  JSONText (Examples.register_as "2222")]))
      as (serialized & Hserialized & Hframe);
      [reflexivity|vm_compute; reflexivity|reflexivity|].
    rewrite Hframe. injection Hserialized as <-. vm_compute. reflexivity.
  - split; [vm_compute; reflexivity|]. split; [vm_compute; reflexivity|].
    apply Hstale. intros ws s Hws Hs. injection Hws as <-.
    vm_compute in Hs. injection Hs as <-. discriminate.
Defined.

(** ** The signalling channel *)

Import Channel.

Lemma same_channel_ok w0 w : channel_ok w0 -> same_channel w0 w -> channel_ok w.
Proof.
  intros (Hone & Hsocket & Hflag) (Htimers & Hcurrent & Hconnected & Hstates).
  unfold channel_ok. rewrite Htimers, Hcurrent, Hconnected.
  split; [|split].
  - destruct Hone as [[Hpending Hclosed]|(Hnone & i & st & Hi & Hlive & Hunique)].
    + left. split; [exact Hpending|]. intros j st Hj. rewrite Hstates in Hj.
      exact (Hclosed j st Hj).
    + right. split; [exact Hnone|]. exists i, st. rewrite Hstates.
      split; [exact Hi|]. split; [exact Hlive|].
      intros j st' Hj. rewrite Hstates in Hj. exact (Hunique j st' Hj).
  - intros ws Hws. rewrite Hstates. exact (Hsocket ws Hws).
  - exact Hflag.
Qed.

Lemma same_channel_refl w : same_channel w w.
Proof. repeat split. Qed.

Lemma socket_send_same_channel w0 ws text :
  preserves (same_channel w0) (socket_send ws text).
Proof.
  intros w (Htimers & Hcurrent & Hconnected & Hstates).
  split; [exact Htimers|]. split; [exact Hcurrent|]. split; [exact Hconnected|].
  intros i. rewrite <- Hstates. unfold state_of. simpl.
  destruct (decide (ws = i)) as [->|Hother].
  - rewrite list_lookup_alter_eq. destruct (sockets w !! i); reflexivity.
  - rewrite list_lookup_alter_ne by exact Hother. reflexivity.
Qed.

Create HintDb above_channel.

#[local] Hint Unfold
  setCallState setTargetClientId setMediaReady setLocalStream setRemoteStream
  setConnectionState console_log console_error console_error_text
  console_log_text sendMessage sendMessage_on on_connection createPeerConnection getLocalMedia
  addLocalTracks createOffer handleOffer addIceCandidate onicecandidate ontrack
  onconnectionstatechange initializeMedia handleWebSocketMessage initiateCall
  : above_channel.

(** The handlers of the call leave the channel as it is. *)
Ltac channel :=
  autounfold with above_channel;
  preserve_using
    ltac:(idtac; match goal with
          | |- preserves _ (socket_send _ _) => apply socket_send_same_channel
          end);
  assumption.

Lemma state_of_alter w f ws j x :
  state_of (with_sockets (alter f ws (sockets w)) x) j =
  if decide (ws = j) then readyState <$> (f <$> sockets w !! j) else state_of w j.
Proof.
  unfold state_of. simpl. destruct (decide (ws = j)) as [->|Hother].
  - rewrite list_lookup_alter_eq. reflexivity.
  - rewrite list_lookup_alter_ne by exact Hother. reflexivity.
Qed.

Lemma step_channel_ok c e w : channel_ok w -> channel_ok (step c e w).
Proof.
  intros Hw.
  assert (Hquiet : forall m : M World unit,
            preserves (same_channel w) m -> channel_ok (exec m w)).
  { intros m Hm. apply (same_channel_ok w); [exact Hw|].
    apply Hm, same_channel_refl. }
  pose proof Hw as Hw0. destruct Hw as (Hone & Hsocket & Hflag).
  destruct e as [random|ws|ws|ws|ws| |data| |text| |pc candidate|pc stream|pc state];
    simpl.
  - exact Hw0.
  - (* SocketOpen *)
    destruct (sockets w !! ws) as [s|] eqn:Hs; [|exact Hw0].
    destruct (bool_decide (readyState s = CONNECTING)) eqn:Hconnecting;
      [|exact Hw0].
    apply bool_decide_eq_true in Hconnecting.
    assert (Hstate : state_of w ws = Some CONNECTING)
      by (unfold state_of; rewrite Hs, <- Hconnecting; reflexivity).
    assert (Hstates : forall j,
              state_of (exec (run set_readyState ws OPEN then onopen ws) w) j
              = if decide (ws = j) then Some OPEN else state_of w j).
    { intros j. unfold state_of. simpl.
      destruct (decide (ws = j)) as [->|Hother].
      - rewrite !list_lookup_alter_eq, Hs. reflexivity.
      - rewrite !list_lookup_alter_ne by exact Hother. reflexivity. }
    split; [|split].
    + destruct Hone as [[_ Hclosed]|(Hnone & i & st & Hi & Hlive & Hunique)].
      { specialize (Hclosed ws _ Hstate). discriminate. }
      right. split; [exact Hnone|].
      assert (ws = i) by (apply (Hunique ws CONNECTING Hstate); discriminate).
      subst i. exists ws, OPEN. rewrite Hstates.
      destruct (decide (ws = ws)) as [_|Hne]; [|contradiction].
      split; [reflexivity|]. split; [discriminate|].
      intros j st' Hj Hlive'. rewrite Hstates in Hj.
      destruct (decide (ws = j)) as [->|Hother]; [reflexivity|].
      exact (Hunique j st' Hj Hlive').
    + intros ws' Hws'. injection Hws' as <-. left. rewrite Hstates.
      destruct (decide (ws = ws)) as [_|Hne]; [reflexivity|contradiction].
    + intros _. exists ws. reflexivity.
  - (* SocketClosing *)
    destruct (sockets w !! ws) as [s|] eqn:Hs; [|exact Hw0].
    destruct (bool_decide (readyState s = CONNECTING)
              || bool_decide (readyState s = OPEN)) eqn:Hlive; [|exact Hw0].
    assert (Hnot : readyState s <> CLOSED).
    { intros Habs. rewrite Habs in Hlive. discriminate. }
    assert (Hstate : state_of w ws = Some (readyState s))
      by (unfold state_of; rewrite Hs; reflexivity).
    assert (Hstates : forall j,
              state_of (exec (set_readyState ws CLOSING) w) j
              = if decide (ws = j) then Some CLOSING else state_of w j).
    { intros j. unfold state_of. simpl.
      destruct (decide (ws = j)) as [->|Hother].
      - rewrite !list_lookup_alter_eq, Hs. reflexivity.
      - rewrite !list_lookup_alter_ne by exact Hother. reflexivity. }
    split; [|split].
    + destruct Hone as [[_ Hall]|(Hnone & i & st & Hi & Hlivei & Hunique)].
      { specialize (Hall ws _ Hstate). contradiction. }
      right. split; [exact Hnone|].
      assert (ws = i) by (apply (Hunique ws _ Hstate); exact Hnot).
      subst i. exists ws, CLOSING. rewrite Hstates.
      destruct (decide (ws = ws)) as [_|Hne]; [|contradiction].
      split; [reflexivity|]. split; [discriminate|].
      intros j st' Hj Hlive'. rewrite Hstates in Hj.
      destruct (decide (ws = j)) as [->|Hother]; [reflexivity|].
      exact (Hunique j st' Hj Hlive').
    + intros ws' Hws'. rewrite !Hstates.
      destruct (decide (ws = ws')) as [->|Hother]; [right; reflexivity|].
      exact (Hsocket ws' Hws').
    + exact Hflag.
  - (* SocketClose *)
    destruct (sockets w !! ws) as [s|] eqn:Hs; [|exact Hw0].
    destruct (bool_decide (readyState s = CLOSED)) eqn:Hclosed;
      [exact Hw0|].
    apply bool_decide_eq_false in Hclosed.
    assert (Hstate : state_of w ws = Some (readyState s))
      by (unfold state_of; rewrite Hs; reflexivity).
    assert (Hstates : forall j,
              state_of (exec (run set_readyState ws CLOSED then onclose) w) j
              = if decide (ws = j) then Some CLOSED else state_of w j).
    { intros j. unfold state_of. simpl.
      destruct (decide (ws = j)) as [->|Hother].
      - rewrite !list_lookup_alter_eq, Hs. reflexivity.
      - rewrite !list_lookup_alter_ne by exact Hother. reflexivity. }
    split; [|split].
    + destruct Hone as [[_ Hall]|(Hnone & i & st & Hi & Hlive & Hunique)].
      { specialize (Hall ws _ Hstate). contradiction. }
      left. split; [simpl; rewrite Hnone; reflexivity|].
      intros j st' Hj. rewrite Hstates in Hj.
      destruct (decide (ws = j)) as [->|Hother]; [congruence|].
      destruct (decide (st' = CLOSED)) as [Hyes|Hno]; [exact Hyes|].
      pose proof (Hunique j st' Hj Hno). pose proof (Hunique ws _ Hstate Hclosed).
      congruence.
    + intros ws' Hws'. discriminate.
    + intros Hyes. discriminate.
  - (* SocketError *)
    destruct (sockets w !! ws) as [s|]; [|exact Hw0].
    split; [exact Hone|]. split; [exact Hsocket|]. intros Hyes. discriminate.
  - (* ReconnectTimer *)
    destruct (reconnectTimers w) as [|n] eqn:Htimers;
      [exact Hw0|].
    assert (Hstates : forall j,
              state_of (exec (run modify (with_reconnectTimers n) then
                              let* _ := createWebSocket in ret tt) w) j
              = if decide (j = length (sockets w)) then Some CONNECTING
                else state_of w j).
    { intros j. unfold state_of. simpl.
      destruct (decide (j = length (sockets w))) as [->|Hother].
      - rewrite list_lookup_middle by reflexivity. reflexivity.
      - destruct (decide (j < length (sockets w))) as [Hin|Hout].
        + rewrite lookup_app_l by exact Hin. reflexivity.
        + rewrite !lookup_ge_None_2; [reflexivity|lia|].
          rewrite length_app. simpl. lia. }
    assert (Hfresh : state_of w (length (sockets w)) = None).
    { unfold state_of. rewrite lookup_ge_None_2 by lia. reflexivity. }
    destruct Hone as [[Hpending Hall]|(Hnone & _)]; [|discriminate].
    injection Hpending as ->.
    split; [|split].
    + right. split; [reflexivity|]. exists (length (sockets w)), CONNECTING.
      rewrite Hstates.
      destruct (decide (length (sockets w) = length (sockets w))) as [_|Hne];
        [|contradiction].
      split; [reflexivity|]. split; [discriminate|].
      intros j st' Hj Hlive. rewrite Hstates in Hj.
      destruct (decide (j = length (sockets w))) as [->|Hother]; [reflexivity|].
      specialize (Hall j st' Hj). contradiction.
    + intros ws Hws. rewrite !Hstates.
      destruct (decide (ws = length (sockets w))) as [->|Hother];
        [|exact (Hsocket ws Hws)].
      destruct (Hsocket _ Hws); congruence.
    + exact Hflag.
  - destruct (socket w) as [ws|] eqn:Hws;
      [|exact Hw0].
    apply Hquiet. channel.
  - apply Hquiet. channel.
  - exact Hw0.
  - destruct (isCallButtonDisabled w); [exact Hw0|].
    apply Hquiet. channel.
  - destruct (connections w !! pc) as [p|]; [|exact Hw0].
    apply Hquiet. unfold onicecandidate. destruct (truthy candidate); channel.
  - destruct (connections w !! pc) as [p|]; [|exact Hw0].
    apply Hquiet. channel.
  - destruct (connections w !! pc) as [p|]; [|exact Hw0].
    apply Hquiet. channel.
Qed.

Lemma one_channel_reachable w : reachable w -> channel_ok w.
Proof.
  induction 1 as [random storage|c e w Hreach IH].
  - unfold mount. destruct (generateClientId random storage) as [id storage'].
    split; [|split].
    + right. split; [reflexivity|]. exists 0, CONNECTING.
      split; [reflexivity|]. split; [discriminate|].
      intros [|j] st' Hj _; [reflexivity|]. discriminate.
    + intros ws Hws. discriminate.
    + intros Hyes. discriminate.
  - apply step_channel_ok, IH.
Qed.

(** X6.  In every state the client can reach, it has exactly one socket
    that is not closed or, when it has none, exactly one reconnection
    pending; the socket it sends on is that one socket, which is open, or
    closing once the closing handshake has begun; and it shows itself
    connected only while it has a socket to send on. *)
Theorem one_channel_at_a_time w :
  reachable w ->
  channel_ok w /\
  (forall i j si sj,
     sockets w !! i = Some si -> sockets w !! j = Some sj ->
     readyState si <> CLOSED -> readyState sj <> CLOSED -> i = j) /\
  (forall ws,
     socket w = Some ws ->
     exists s, sockets w !! ws = Some s /\
               (readyState s = OPEN \/ readyState s = CLOSING)) /\
  (isConnected w = true -> exists ws, socket w = Some ws).
Proof.
  intros Hreach. pose proof (one_channel_reachable w Hreach) as Hw.
  split; [exact Hw|]. destruct Hw as (Hone & Hsocket & Hflag).
  split; [|split; [|exact Hflag]].
  - intros i j si sj Hi Hj Hlivei Hlivej.
    assert (Hsi : state_of w i = Some (readyState si))
      by (unfold state_of; rewrite Hi; reflexivity).
    assert (Hsj : state_of w j = Some (readyState sj))
      by (unfold state_of; rewrite Hj; reflexivity).
    destruct Hone as [[_ Hclosed]|(_ & k & st & _ & _ & Hunique)].
    + specialize (Hclosed i _ Hsi). contradiction.
    + rewrite (Hunique i _ Hsi Hlivei), (Hunique j _ Hsj Hlivej). reflexivity.
  - intros ws Hws. pose proof (Hsocket ws Hws) as Hstate. unfold state_of in Hstate.
    destruct (sockets w !! ws) as [s|] eqn:Hs; [|destruct Hstate; discriminate].
    exists s. split; [reflexivity|].
    destruct Hstate as [Hstate|Hstate]; injection Hstate as Hstate; auto.
Qed.

(** Mount, a drop of the channel, and the reconnection; and a channel whose
    closing handshake has begun. *)
Lemma one_channel_at_a_time_witness :
  channel_ok Scenario.reconnected /\
  (readyState <$> sockets Scenario.reconnected) = [CLOSED; OPEN] /\
  channel_ok Scenes.closing /\
  (readyState <$> sockets Scenes.closing) = [CLOSING].
Proof.
  split; [|split; [vm_compute; reflexivity|split; [|vm_compute; reflexivity]]].
  - apply (one_channel_at_a_time Scenario.reconnected).
    unfold Scenario.reconnected. apply run_events_reachable, reachable_mount.
  - apply (one_channel_at_a_time Scenes.closing).
    unfold Scenes.closing, Scenes.about_to_call, Scenario.ready.
    do 2 apply reachable_step. apply run_events_reachable, reachable_mount.
Defined.

(** X7.  When a socket that is not closed closes, the client stops sending,
    and after the reconnection timer the socket it makes, once open, is the
    one it sends on again, registered under the client's id. *)
Theorem reconnection_restores_the_channel c1 c2 c3 ws s w :
  sockets w !! ws = Some s ->
  readyState s <> CLOSED ->
  let dropped := step c1 (SocketClose ws) w in
  let restored :=
    step c3 (SocketOpen (length (sockets w))) (step c2 ReconnectTimer dropped) in
  socket dropped = None /\
  isConnected dropped = false /\
  (forall message, sendMessage message dropped = (Normal tt, dropped)) /\
  socket restored = Some (length (sockets w)) /\
  isConnected restored = true /\
  sockets restored !! length (sockets w)
  = Some (mkWebSocket OPEN
            [JSONText (VObj [("type", VStr "register");
                             ("clientId", VStr (clientId w))])]).
Proof.
  intros Hs Hopen dropped restored.
  assert (Hdropped : dropped
            = exec (run set_readyState ws CLOSED then onclose) w).
  { unfold dropped. simpl. rewrite Hs.
    rewrite bool_decide_eq_false_2 by exact Hopen. reflexivity. }
  split; [rewrite Hdropped; reflexivity|].
  split; [rewrite Hdropped; reflexivity|].
  split; [intros message; rewrite Hdropped; reflexivity|].
  unfold restored. rewrite Hdropped.
  set (d := exec (run set_readyState ws CLOSED then onclose) w).
  change (step c2 ReconnectTimer d)
    with (exec (run modify (with_reconnectTimers (reconnectTimers w)) then
                let* _ := createWebSocket in ret tt) d).
  set (timed := exec (run modify (with_reconnectTimers (reconnectTimers w)) then
                      let* _ := createWebSocket in ret tt) d).
  assert (Hnew : sockets timed !! length (sockets w)
                 = Some (mkWebSocket CONNECTING [])).
  { unfold timed, d. simpl. apply list_lookup_middle. rewrite length_alter. reflexivity. }
  assert (Hopened : step c3 (SocketOpen (length (sockets w))) timed
                    = exec (run set_readyState (length (sockets w)) OPEN then
                            onopen (length (sockets w))) timed).
  { cbn [step]. rewrite Hnew. reflexivity. }
  rewrite Hopened.
  split; [reflexivity|]. split; [reflexivity|].
  simpl. rewrite !list_lookup_alter_eq.
  rewrite list_lookup_middle by (rewrite length_alter; reflexivity). reflexivity.
Qed.

(** The first socket of the client 2222 drops and the channel is restored
    on the second. *)
Lemma reconnection_restores_the_channel_witness :
  let w := step Scenario.willing (SocketOpen 0) (mount 0 Scenario.storage) in
  let dropped := step Scenario.willing (SocketClose 0) w in
  let restored :=
    step Scenario.willing (SocketOpen 1) (step Scenario.willing ReconnectTimer dropped) in
  socket dropped = None /\
  socket restored = Some 1 /\
  sockets restored !! 1 = Some (mkWebSocket OPEN [JSONText (Examples.register_as "2222")]).
Proof.
  destruct (reconnection_restores_the_channel Scenario.willing Scenario.willing
              Scenario.willing 0
              (mkWebSocket OPEN [JSONText (Examples.register_as "2222")])
              (step Scenario.willing (SocketOpen 0) (mount 0 Scenario.storage)))
    as (Hnone & _ & _ & Hsome & _ & Hregistered).
  - vm_compute. reflexivity.
  - discriminate.
  - split; [exact Hnone|]. split; [exact Hsome|exact Hregistered].
Defined.

(** ** Starting a call *)

Create HintDb calls.

#[local] Hint Unfold
  setCallState setTargetClientId setMediaReady setLocalStream setRemoteStream
  setConnectionState setIsConnected setSocket console_log console_error
  console_error_text console_log_text createWebSocket socket_send onopen
  onclose onerror sendMessage sendMessage_on on_connection createPeerConnection getLocalMedia
  addLocalTracks createOffer handleOffer addIceCandidate onicecandidate ontrack
  onconnectionstatechange initializeMedia set_readyState : calls.

Ltac keep := autounfold with calls; preserve; assumption.

Lemma createOffer_signalling w0 c targetClientId :
  preserves (signalling_of w0) (createOffer c targetClientId).
Proof. keep. Qed.



(** [createOffer] on a media stack that takes everything. *)
Lemma createOffer_runs c targetClientId w :
  (forall site, fails c site = false) ->
  exists w1,
    createOffer c targetClientId w = (Normal (offer_sdp c), w1) /\
    peerConnectionRef w1 = Some (length (connections w)) /\
    (exists pc, connections w1 !! length (connections w) = Some pc /\
                closed pc = false /\ target pc = targetClientId /\
                localDescription pc = offer_sdp c).
Proof.
  intros Hok. unfold createOffer.
  rewrite (bind_runs _ _ _ _ _ (createPeerConnection_runs c targetClientId w (Hok _))).
  set (n := length (connections w)).
  set (w0 := with_peerConnectionRef _ _).
  destruct (addLocalTracks_runs c n w0 (Hok _)) as (g & entries & Hg & Htracks).
  rewrite (bind_runs _ _ _ _ _ Htracks).
  unfold call. rewrite !Hok. unfold bind, ret, on_connection, modify.
  eexists. split; [reflexivity|]. simpl. split; [reflexivity|].
  assert (Hn : n = length (close_current (peerConnectionRef w) (connections w)))
    by (symmetry; apply length_close_current).
  rewrite !list_lookup_alter_eq, (list_lookup_middle _ _ _ n Hn).
  simpl. eexists. split; [reflexivity|]. simpl.
  destruct (Hg (mkRTCPeerConnection false targetClientId (socket w) []
                  VUndefined VUndefined []))
    as (Hclosed & Htarget & _).
  rewrite Hclosed, Htarget. repeat split.
Qed.


(** X9.  In every state the client can reach, a click on the enabled call
    button, on a media stack that takes everything, leaves the client
    'calling', with a new connection, made for the target of the form, as
    the current one.  The client has a socket then; if it is open, the
    offer addressed to that target is written to it.  If its closing
    handshake has begun the button is enabled all the same, and the click
    writes nothing to any socket: the client is 'calling' and no offer has
    gone out. *)
Theorem enabled_call_sends_the_offer c w :
  reachable w ->
  isCallButtonDisabled w = false ->
  (forall site, fails c site = false) ->
  callState (step c ClickCall w) = calling /\
  peerConnectionRef (step c ClickCall w) = Some (length (connections w)) /\
  (exists pc, connections (step c ClickCall w) !! length (connections w) = Some pc /\
              closed pc = false /\ target pc = targetClientId w) /\
  exists ws s,
    socket w = Some ws /\ sockets w !! ws = Some s /\
    (readyState s = OPEN \/ readyState s = CLOSING) /\
    (readyState s = OPEN ->
     sockets (step c ClickCall w)
     = alter (send (JSON_stringify
                      (VObj [("type", VStr "offer"); ("offer", offer_sdp c);
                             ("target", targetClientId w);
                             ("from", VStr (clientId w))])))
         ws (sockets w)) /\
    (readyState s = CLOSING -> sockets (step c ClickCall w) = sockets w).
Proof.
  intros Hreach Henabled Hok.
  destruct (one_channel_reachable w Hreach) as (_ & Hsocket & Hflag).
  pose proof Henabled as Hguard. unfold isCallButtonDisabled in Hguard.
  rewrite !orb_false_iff in Hguard. destruct Hguard as [[[Hconnected _] _] _].
  apply negb_false_iff in Hconnected.
  destruct (Hflag Hconnected) as [ws Hws].
  pose proof (Hsocket ws Hws) as Hstate. unfold state_of in Hstate.
  destruct (sockets w !! ws) as [s|] eqn:Hs; [|destruct Hstate; discriminate].
  assert (Hlive : readyState s = OPEN \/ readyState s = CLOSING)
    by (destruct Hstate as [Hstate|Hstate]; injection Hstate as Hstate; auto).
  clear Hstate.
  simpl. rewrite Henabled.
  unfold exec, initiateCall, try_catch.
  erewrite bind_runs by reflexivity. erewrite bind_runs by reflexivity.
  cbn [targetClientId with_callState].
  destruct (createOffer_runs c (targetClientId w) (with_callState calling w) Hok)
    as (w1 & Hrun & Href & Hnew).
  pose proof (createOffer_signalling (with_callState calling w) c (targetClientId w)
                (with_callState calling w)) as Hkept.
  rewrite Hrun in Hkept. rewrite (bind_runs _ _ _ _ _ Hrun).
  destruct Hkept as (Hsockets & Hsocket1 & Hid & _ & Hstate & _); [repeat split|].
  simpl in *.
  assert (Hsend :
            sendMessage [("type", VStr "offer"); ("offer", offer_sdp c);
                         ("target", targetClientId w)] w1
            = (Normal tt,
               if bool_decide (readyState s = OPEN)
               then with_sockets
                      (alter (send (JSON_stringify
                                      (VObj [("type", VStr "offer");
                                             ("offer", offer_sdp c);
                                             ("target", targetClientId w);
                                             ("from", VStr (clientId w))])))
                         ws (sockets w)) w1
               else w1)).
  { unfold sendMessage. rewrite (bind_runs read _ w1 w1 w1 eq_refl).
    rewrite Hsocket1, Hws, Hsockets, Hs, Hid.
    destruct (bool_decide (readyState s = OPEN)); [|reflexivity].
    unfold socket_send, modify. rewrite Hsockets. reflexivity. }
  rewrite Hsend. cbn [snd].
  destruct (bool_decide (readyState s = OPEN)) eqn:Hopen;
    (split; [exact Hstate|]; split; [exact Href|]; split;
     [destruct Hnew as (pc & Hpc & Hclosed & Htarget & _); exists pc; auto|];
     exists ws, s; split; [exact Hws|]; split; [exact Hs|];
     split; [exact Hlive|]).
  - apply bool_decide_eq_true in Hopen. split; [intros _; reflexivity|].
    intros Hclosing. congruence.
  - apply bool_decide_eq_false in Hopen. split; [intros Hyes; contradiction|].
    intros _. exact Hsockets.
Qed.

(** The client 2222, ready and with 1111 as target, presses the button:
    with its socket open, and after the closing handshake has begun. *)
Lemma enabled_call_sends_the_offer_witness :
  sockets (step Scenario.willing ClickCall Scenes.about_to_call)
  = [mkWebSocket OPEN
       [JSONText (VObj [("type", VStr "offer");
                        ("offer", Examples.sdp "offer" "v=0 o=2222");
                        ("target", VStr "1111");
                        ("from", VStr "2222")]);
        JSONText (Examples.register_as "2222")]] /\
  isCallButtonDisabled Scenes.closing = false /\
  callState (step Scenario.willing ClickCall Scenes.closing) = calling /\
  sockets (step Scenario.willing ClickCall Scenes.closing) = sockets Scenes.closing.
Proof.
  assert (Hreach : reachable Scenes.about_to_call).
  { unfold Scenes.about_to_call, Scenario.ready.
    apply reachable_step, run_events_reachable, reachable_mount. }
  assert (Hreach' : reachable Scenes.closing)
    by (apply reachable_step, Hreach).
  destruct (enabled_call_sends_the_offer Scenario.willing Scenes.about_to_call
              Hreach eq_refl (fun site => eq_refl))
    as (_ & _ & _ & ws & s & Hws & Hs & _ & Hsent & _).
  destruct (enabled_call_sends_the_offer Scenario.willing Scenes.closing
              Hreach' eq_refl (fun site => eq_refl))
    as (Hcalling & _ & _ & ws' & s' & Hws' & Hs' & _ & _ & Hnothing).
  assert (ws = 0) by (vm_compute in Hws; congruence). subst ws.
  assert (ws' = 0) by (vm_compute in Hws'; congruence). subst ws'.
  vm_compute in Hs. injection Hs as <-.
  vm_compute in Hs'. injection Hs' as <-.
  split; [rewrite (Hsent eq_refl); vm_compute; reflexivity|].
  split; [reflexivity|]. split; [exact Hcalling|]. exact (Hnothing eq_refl).
Defined.

(** ** What comes in on the signalling socket *)

(** X10.  A frame that is not JSON, or that is the JSON [null], makes the
    handler log the error and set the call state to 'idle', whatever the
    state was; the current connection is neither closed nor released, and
    nothing is sent. *)
Theorem bad_frame_resets_the_call_state c data error w :
  (exists text, data = NotJSON text /\ error = SyntaxError) \/
  (data = JSONText VNull /\ error = TypeError) ->
  handleWebSocketMessage c data w =
  (Normal tt,
   with_callState idle
     (with_console (Error "Error handling WebSocket message:" error :: console w) w)).
Proof. intros [(text & -> & ->)|[-> ->]]; reflexivity. Qed.

(** During the call with 1111 a frame that is not JSON arrives: the client
    shows 'idle' and still holds the live connection. *)
Lemma bad_frame_resets_the_call_state_witness :
  callState Scenario.in_call = receiving /\
  let w' := step Scenario.willing (SocketMessage (NotJSON "?")) Scenario.in_call in
  callState w' = idle /\
  peerConnectionRef w' = Some 0 /\
  (closed <$> connections w' !! 0) = Some false.
Proof.
  split; [vm_compute; reflexivity|].
  assert (Hsocket : socket Scenario.in_call = Some 0) by (vm_compute; reflexivity).
  cbn zeta. cbn [step]. rewrite Hsocket. unfold exec.
  rewrite (bad_frame_resets_the_call_state Scenario.willing (NotJSON "?") SyntaxError
             Scenario.in_call) by (left; exists "?"; split; reflexivity).
  split; [reflexivity|]. split; vm_compute; reflexivity.
Defined.



(** X12.  An answer that passes the target filter while there is a current
    connection: if the media stack takes it, the connection holds it as its
    remote description and the client is 'connected'; if the media stack
    rejects it, the client is 'idle' and the connection is left as it was,
    still current and not closed. *)
Theorem answer_applied_or_call_reset c data message answer current w :
  inbound "answer" w data ->
  JSON_parse data = Normal message ->
  get_prop message "answer" = Normal answer ->
  peerConnectionRef w = Some current ->
  (fails c NewRTCSessionDescription = false ->
   fails c SetRemoteDescription = false ->
   handleWebSocketMessage c data w =
   (Normal tt,
    with_connections
      (alter (pc_setRemoteDescription answer) current (connections w))
      (with_callState connected w))) /\
  (fails c NewRTCSessionDescription = true \/ fails c SetRemoteDescription = true ->
   exists error,
     handleWebSocketMessage c data w =
     (Normal tt,
      with_callState idle
        (with_console (Error "Error handling WebSocket message:" error :: console w)
           (with_callState connected w)))).
Proof.
  intros Hinbound Hparse0 Hanswer Href.
  split.
  - intros Hnew Hset. enter_handler Hinbound.
    assert (message0 = message) by congruence. subst message0.
    unfold try_catch. erewrite bind_runs by reflexivity.
    rewrite (bind_runs read _ _ _ _ eq_refl).
    cbn [peerConnectionRef with_callState]. rewrite Href, Hanswer.
    unfold call. rewrite Hnew, Hset. reflexivity.
  - intros Hfails. enter_handler Hinbound.
    assert (message0 = message) by congruence. subst message0.
    unfold try_catch. erewrite bind_runs by reflexivity.
    rewrite (bind_runs read _ _ _ _ eq_refl).
    cbn [peerConnectionRef with_callState]. rewrite Href, Hanswer.
    unfold call.
    destruct (fails c NewRTCSessionDescription) eqn:Hnew.
    + eexists. reflexivity.
    + destruct Hfails as [Hfails|Hfails]; [discriminate|]. rewrite Hfails.
      eexists. reflexivity.
Qed.

(** An answer for the client while it is calling: taken, and refused. *)
Lemma answer_applied_or_call_reset_witness :
  (remoteDescription <$>
     connections (exec (handleWebSocketMessage Scenario.willing
                          (JSONText Scenario.answer_for_2222)) Scenario.busy) !! 0)
  = Some (Examples.sdp "answer" "v=0 a=1111") /\
  exists error,
    handleWebSocketMessage Scenario.refusing (JSONText Scenario.answer_for_2222)
      Scenario.busy
    = (Normal tt,
       with_callState idle
         (with_console (Error "Error handling WebSocket message:" error
                        :: console Scenario.busy)
            (with_callState connected Scenario.busy))).
Proof.
  assert (Hinbound : inbound "answer" Scenario.busy (JSONText Scenario.answer_for_2222)).
  { exists Scenario.answer_for_2222, (VStr "2222"). repeat split. right. reflexivity. }
  assert (Href : peerConnectionRef Scenario.busy = Some 0) by (vm_compute; reflexivity).
  split.
  - destruct (answer_applied_or_call_reset Scenario.willing
                (JSONText Scenario.answer_for_2222) Scenario.answer_for_2222
                (Examples.sdp "answer" "v=0 a=1111") 0 Scenario.busy
                Hinbound eq_refl eq_refl Href) as [Htaken _].
    unfold exec. rewrite (Htaken eq_refl eq_refl). vm_compute. reflexivity.
  - destruct (answer_applied_or_call_reset Scenario.refusing
                (JSONText Scenario.answer_for_2222) Scenario.answer_for_2222
                (Examples.sdp "answer" "v=0 a=1111") 0 Scenario.busy
                Hinbound eq_refl eq_refl Href) as [_ Hrefused].
    apply Hrefused. right. reflexivity.
Defined.

(** X13.  A remote candidate that passes the target filter is handed to the
    current connection in whatever call state the client is, 'idle'
    included, and changes nothing else. *)
Theorem remote_candidate_applied_in_any_state c data message candidate current w :
  inbound "ice-candidate" w data ->
  JSON_parse data = Normal message ->
  get_prop message "candidate" = Normal candidate ->
  truthy candidate = true ->
  peerConnectionRef w = Some current ->
  fails c NewRTCIceCandidate = false ->
  fails c AddIceCandidate = false ->
  handleWebSocketMessage c data w =
  (Normal tt,
   with_connections (alter (pc_addIceCandidate candidate) current (connections w)) w).
Proof.
  intros Hinbound Hparse0 Hcandidate Htruthy Href Hnew Hadd.
  enter_handler Hinbound.
  assert (message0 = message) by congruence. subst message0.
  rewrite Hcandidate, try_catch_lift_normal.
  unfold try_catch, addIceCandidate. rewrite (bind_runs read _ _ _ _ eq_refl).
  rewrite Href, Htruthy. unfold call. rewrite Hnew, Hadd. reflexivity.
Qed.

(** A candidate reaches the client after its call state was reset to
    'idle': the connection takes it. *)
Lemma remote_candidate_applied_in_any_state_witness :
  callState Scenes.reset_in_call = idle /\
  (remoteCandidates <$>
     connections (exec (handleWebSocketMessage Scenario.willing
                          (JSONText (Scenario.candidate_for_2222 Examples.candidate_1)))
                    Scenes.reset_in_call) !! 0)
  = Some [Examples.candidate_1].
Proof.
  split; [vm_compute; reflexivity|].
  assert (Hinbound : inbound "ice-candidate" Scenes.reset_in_call
            (JSONText (Scenario.candidate_for_2222 Examples.candidate_1))).
  { exists (Scenario.candidate_for_2222 Examples.candidate_1), (VStr "2222").
    repeat split. right. reflexivity. }
  assert (Href : peerConnectionRef Scenes.reset_in_call = Some 0)
    by (vm_compute; reflexivity).
  unfold exec.
  rewrite (remote_candidate_applied_in_any_state Scenario.willing _
             (Scenario.candidate_for_2222 Examples.candidate_1) Examples.candidate_1 0
             Scenes.reset_in_call Hinbound eq_refl eq_refl eq_refl Href eq_refl eq_refl).
  vm_compute. reflexivity.
Defined.

(** ** Connections that have been closed *)



Create HintDb above_connections.

#[local] Hint Unfold
  setCallState setTargetClientId setMediaReady setLocalStream setRemoteStream
  setConnectionState setIsConnected setSocket console_log console_error
  console_error_text console_log_text createWebSocket socket_send onopen
  onclose onerror sendMessage sendMessage_on getLocalMedia addLocalTracks
  createOffer handleOffer addIceCandidate onicecandidate ontrack
  onconnectionstatechange initializeMedia set_readyState
  handleWebSocketMessage initiateCall : above_connections.




(** ** An offer that fails *)




(** ** Sender and receiver *)

(** X16.  The frame [sendMessage] makes of a message of type 'offer',
    'answer' or 'ice-candidate' addressed to a non-empty id [t] is, at the
    controller whose id is [t], a frame of that type that passes the target
    filter and names the sender in [from]; at a controller with any other
    id it is discarded without any change. *)
Theorem addressed_frame_reaches_its_target_only c type key payload t sender w :
  (type, key) ∈ [("offer", "offer"); ("answer", "answer");
                 ("ice-candidate", "candidate")] ->
  t <> "" ->
  let frame :=
    JSON_stringify
      (VObj (set_prop "from" (VStr sender)
               [("type", VStr type); (key, payload); ("target", VStr t)])) in
  (clientId w = t ->
   inbound type w frame /\
   exists message, JSON_parse frame = Normal message /\
                   get_prop message "from" = Normal (VStr sender)) /\
  (clientId w <> t -> handleWebSocketMessage c frame w = (Normal tt, w)).
Proof.
  intros Hkind Hnonempty frame.
  assert (Hshape : exists props,
            frame = JSONText (VObj (("type", VStr type) :: props)) /\
            lookup_prop "target" (("type", VStr type) :: props) = VStr t /\
            lookup_prop "from" (("type", VStr type) :: props) = VStr sender).
  { unfold frame.
    repeat (apply elem_of_cons in Hkind as [Hkind|Hkind];
            [injection Hkind as -> ->; destruct payload; eexists;
             (split; [reflexivity|split; reflexivity])|]).
    inversion Hkind. }
  destruct Hshape as (props & -> & Htarget & Hfrom).
  assert (Htruthy : truthy (VStr t) = true).
  { simpl. rewrite bool_decide_eq_false_2 by exact Hnonempty. reflexivity. }
  split.
  - intros Hid. split.
    + eexists _, (VStr t). split; [reflexivity|].
      split; [unfold get_prop; rewrite Htarget; reflexivity|].
      split; [right; rewrite Hid; reflexivity|]. reflexivity.
    + eexists. split; [reflexivity|]. unfold get_prop. rewrite Hfrom. reflexivity.
  - intros Hother. unfold handleWebSocketMessage.
    cbn [JSON_parse]. rewrite try_catch_lift_normal. cbn [get_prop].
    rewrite Htarget, try_catch_lift_normal, try_catch_read, Htruthy.
    unfold strict_eq_str. rewrite bool_decide_eq_false_2 by congruence. reflexivity.
Qed.

(** The answer 2222 sends to 1111, at 1111 and at 3333. *)
Lemma addressed_frame_reaches_its_target_only_witness :
  let frame :=
    JSONText (VObj [("type", VStr "answer");
                    ("answer", Examples.sdp "answer" "v=0 a=2222");
                    ("target", VStr "2222"); ("from", VStr "1111")]) in
  inbound "answer" Scenario.ready frame.
Proof.
  destruct (addressed_frame_reaches_its_target_only Scenario.willing
              "answer" "answer" (Examples.sdp "answer" "v=0 a=2222") "2222" "1111"
              Scenario.ready) as [Hreaches _].
  - right. left.
  - discriminate.
  - destruct (Hreaches eq_refl) as [Hinbound _]. exact Hinbound.
Defined.

(** ** Local media *)

(** X17.  After [initializeMedia] the client is ready for media exactly
    when [getUserMedia] succeeded; on success the stream it gave is the
    local stream, on failure the local stream is the one there was; the
    call state is not touched either way. *)
Theorem media_ready_iff_capture_succeeds c w :
  mediaReady (exec (initializeMedia c) w) = negb (fails c GetUserMedia) /\
  localStream (exec (initializeMedia c) w)
  = (if fails c GetUserMedia then localStream w else Some (userMedia c)) /\
  callState (exec (initializeMedia c) w) = callState w /\
  transitions (exec (initializeMedia c) w) = transitions w.
Proof.
  unfold exec, initializeMedia, getLocalMedia, try_catch, bind, call.
  destruct (fails c GetUserMedia); repeat split.
Qed.

(** ** The generated id *)

Lemma four_digits (n : N) :
  (1000 <= n <= 9999)%N -> String.length (pretty n) = 4.
Proof.
  intros Hn. unfold pretty, pretty_N.
  destruct (decide (n = 0)%N) as [Hzero|_]; [lia|].
  rewrite pretty_N_go_step by lia.
  rewrite pretty_N_go_step by (apply N.div_str_pos; lia).
  rewrite pretty_N_go_step
    by (apply N.div_str_pos; split; [lia|apply N.div_le_lower_bound; lia]).
  rewrite pretty_N_go_step
    by (apply N.div_str_pos; split; [lia|];
        apply N.div_le_lower_bound; [lia|]; apply N.div_le_lower_bound; lia).
  assert (Hend : N.div (N.div (N.div (N.div n 10) 10) 10) 10 = 0%N).
  { rewrite !N.Div0.div_div. apply N.div_small. lia. }
  rewrite Hend, pretty_N_go_0. reflexivity.
Qed.

(** X18.  For a draw of [Math.random], a number from 0 up to but not
    including 1, the generated id, computed as the code computes it, the
    product and the sum each rounded to a number, is the decimal numeral of
    an integer from 1000 to 9999: it has four characters. *)
Theorem fresh_id_has_four_digits (random : Q) :
  (0 <= random)%Q -> (random < 1)%Q -> is_number random ->
  exists n : Z,
    (1000 <= n <= 9999)%Z /\
    fresh_id random = pretty n /\
    String.length (fresh_id random) = 4.
Proof.
  intros Hlow Hhigh Hnumber. unfold fresh_id.
  pose proof (NumberFacts.fresh_id_range random Hlow Hhigh Hnumber) as Hn.
  exists (Qfloor (number_add 1000 (number_mul random 9000))).
  split; [exact Hn|]. split; [reflexivity|].
  destruct (Qfloor (number_add 1000 (number_mul random 9000))) as [|p|p]; try lia.
  unfold pretty, pretty_Z, pretty, pretty_positive.
  apply four_digits. lia.
Qed.

(** A draw for which the rounding of the product decides the id: the exact
    value of 1000 + r * 9000 lies just below 1052. *)
Lemma fresh_id_has_four_digits_witness :
  Qfloor (1000 + (52041595694059 # 9007199254740992) * 9000)%Q = 1051%Z /\
  fresh_id (52041595694059 # 9007199254740992) = "1052" /\
  String.length (fresh_id (52041595694059 # 9007199254740992)) = 4.
Proof.
  split; [vm_compute; reflexivity|]. split; [vm_compute; reflexivity|].
  destruct (fresh_id_has_four_digits (52041595694059 # 9007199254740992))
    as (n & _ & _ & Hlength).
  - discriminate.
  - reflexivity.
  - unfold is_number, Qeq. vm_compute. reflexivity.
  - exact Hlength.
Defined.

End ControllerFurther.

(** * More on the earlier hook *)

Module HookFurther.
Import Controller WebRTC_js WebRTC_jsProperties HookNotions.

Lemma on_connection_all_open pc f :
  (forall p, closed (f p) = closed p) -> preserves all_open (on_connection pc f).
Proof.
  intros Hf h Hh i p Hp. simpl in Hp.
  destruct (decide (pc = i)) as [->|Hother].
  - rewrite list_lookup_alter_eq in Hp.
    destruct (connections h !! i) as [old|] eqn:Hold; [|discriminate].
    injection Hp as <-. rewrite Hf. exact (Hh i old Hold).
  - rewrite list_lookup_alter_ne in Hp by exact Hother. exact (Hh i p Hp).
Qed.

Lemma ensurePeerConnection_all_open c : preserves all_open (ensurePeerConnection c).
Proof.
  intros h Hh. unfold ensurePeerConnection.
  rewrite (bind_runs read _ h h h eq_refl).
  destruct (peerConnectionRef h) as [current|]; [exact Hh|].
  unfold createPeerConnection, call.
  destruct (fails c NewRTCPeerConnection); simpl; [exact Hh|].
  intros i p Hp. simpl in Hp.
  apply lookup_app_Some in Hp as [Hp|[_ Hp]]; [exact (Hh i p Hp)|].
  apply list_lookup_singleton_Some in Hp as [_ <-]. reflexivity.
Qed.

Create HintDb hook_calls.

#[local] Hint Unfold addLocalTracks createOffer handleOffer addIceCandidate
  getLocalMedia : hook_calls.

Ltac open_hook :=
  autounfold with hook_calls;
  preserve_using
    ltac:(idtac; match goal with
          | |- preserves _ (ensurePeerConnection _) => apply ensurePeerConnection_all_open
          | |- preserves _ (on_connection _ _) =>
              apply on_connection_all_open; intros ?; reflexivity
          end);
  assumption.

Lemma step_all_open c a h : all_open h -> all_open (step c a h).
Proof.
  intros Hh. destruct a as [| |offer|candidate|candidate|stream]; simpl.
  - refine ((_ : preserves all_open (getLocalMedia c)) h Hh). open_hook.
  - refine ((_ : preserves all_open (createOffer c)) h Hh). open_hook.
  - refine ((_ : preserves all_open (handleOffer c offer)) h Hh). open_hook.
  - refine ((_ : preserves all_open (addIceCandidate c candidate)) h Hh). open_hook.
  - destruct (truthy candidate); exact Hh.
  - exact Hh.
Qed.

Lemma reachable_one_link h : reachable h -> one_link h.
Proof.
  induction 1 as [|c a h Hreach IH]; [reflexivity|apply step_one_link, IH].
Qed.

(** X19.  The hook of webrtc.js makes at most one connection, never closes
    it, and once it has one, [createOffer] and [handleOffer] use it again
    instead of making another. *)
Theorem hook_keeps_its_connection h :
  reachable h ->
  length (connections h) <= 1 /\
  all_open h /\
  forall c a current,
    peerConnectionRef h = Some current ->
    peerConnectionRef (step c a h) = Some current /\
    length (connections (step c a h)) = length (connections h).
Proof.
  intros Hreach. pose proof (reachable_one_link h Hreach) as Hone.
  split; [|split].
  - unfold one_link in Hone. destruct (peerConnectionRef h); [lia|].
    rewrite Hone. simpl. lia.
  - induction Hreach as [|c a h Hreach IH]; [|apply step_all_open, IH, reachable_one_link, Hreach].
    intros i pc Hpc. discriminate.
  - intros c a current Href.
    pose proof (step_one_link c a h Hone) as Hstep.
    assert (Hkept : peerConnectionRef (step c a h) <> None).
    { assert (Hframe : forall A (m : M Hook A),
                preserves (fun h' => peerConnectionRef h' <> None) m ->
                peerConnectionRef (snd (m h)) <> None).
      { intros A m Hm. apply Hm. rewrite Href. discriminate. }
      destruct a as [| |offer|candidate|candidate|stream]; simpl.
      - apply (Hframe _ (getLocalMedia c)).
        autounfold with hook_calls. preserve; assumption.
      - apply (Hframe _ (createOffer c)).
        autounfold with hook_calls. unfold ensurePeerConnection, createPeerConnection.
        preserve; try assumption; discriminate.
      - apply (Hframe _ (handleOffer c offer)).
        autounfold with hook_calls. unfold ensurePeerConnection, createPeerConnection.
        preserve; try assumption; discriminate.
      - apply (Hframe _ (addIceCandidate c candidate)).
        autounfold with hook_calls. preserve; assumption.
      - destruct (truthy candidate); simpl; rewrite Href; discriminate.
      - rewrite Href. discriminate. }
    unfold one_link in Hone, Hstep. rewrite Href in Hone.
    destruct (peerConnectionRef (step c a h)) as [current'|]; [|contradiction].
    destruct Hone as [-> Hlen]. destruct Hstep as [-> Hlen'].
    split; [reflexivity|lia].
Qed.

(** A second [createOffer] on the hook that has made its connection. *)
Lemma hook_keeps_its_connection_witness :
  length (connections offered) = 1 /\
  length (connections (step Scenario.willing DoCreateOffer offered)) = 1.
Proof.
  assert (Hreach : reachable offered) by (apply reachable_step, reachable_initial).
  destruct (hook_keeps_its_connection offered Hreach) as (_ & _ & Hagain).
  destruct (Hagain Scenario.willing DoCreateOffer 0 eq_refl) as [_ Hlen].
  split; [reflexivity|]. rewrite Hlen. reflexivity.
Defined.

Lemma step_only_candidates c a h : only_candidates h -> only_candidates (step c a h).
Proof.
  intros Hh. destruct a as [| |offer|candidate|candidate|stream]; simpl.
  - refine ((_ : preserves only_candidates (getLocalMedia c)) h Hh).
    autounfold with hook_calls. preserve; assumption.
  - refine ((_ : preserves only_candidates (createOffer c)) h Hh).
    autounfold with hook_calls.
    unfold ensurePeerConnection, createPeerConnection, on_connection.
    preserve; assumption.
  - refine ((_ : preserves only_candidates (handleOffer c offer)) h Hh).
    autounfold with hook_calls.
    unfold ensurePeerConnection, createPeerConnection, on_connection.
    preserve; assumption.
  - refine ((_ : preserves only_candidates (addIceCandidate c candidate)) h Hh).
    autounfold with hook_calls. unfold on_connection. preserve; assumption.
  - destruct (truthy candidate) eqn:Htruthy; [|exact Hh].
    apply Forall_cons. split; [|exact Hh].
    exists candidate. split; [exact Htruthy|reflexivity].
  - exact Hh.
Qed.

(** X23.  All the hook of webrtc.js ever hands to the signalling layer are
    its connection's local candidates, each as a message of type
    'ice-candidate' with a candidate that is not null and with no [target];
    the offers and answers it makes are returned to its caller, not sent. *)
Theorem hook_sends_only_unaddressed_candidates h m :
  reachable h ->
  m ∈ outbox h ->
  get_prop m "type" = Normal (VStr "ice-candidate") /\
  get_prop m "target" = Normal VUndefined /\
  exists candidate,
    get_prop m "candidate" = Normal candidate /\ truthy candidate = true.
Proof.
  intros Hreach.
  assert (Hall : only_candidates h).
  { induction Hreach as [|c a h Hreach IH]; [apply Forall_nil_2|].
    apply step_only_candidates, IH. }
  intros Hm. unfold only_candidates in Hall. rewrite Forall_forall in Hall.
  destruct (Hall m Hm) as (candidate & Htruthy & ->).
  split; [reflexivity|]. split; [reflexivity|].
  exists candidate. split; [reflexivity|exact Htruthy].
Qed.

Lemma hook_sends_only_unaddressed_candidates_witness :
  get_prop (VObj [("type", VStr "ice-candidate");
                  ("candidate", Examples.candidate_1)]) "target"
  = Normal VUndefined.
Proof.
  assert (Hreach : reachable gathering)
    by (apply reachable_step, reachable_step, reachable_initial).
  destruct (hook_sends_only_unaddressed_candidates gathering
              (VObj [("type", VStr "ice-candidate");
                     ("candidate", Examples.candidate_1)]) Hreach)
    as (_ & Htarget & _).
  - vm_compute. constructor.
  - exact Htarget.
Defined.

End HookFurther.

(** * Properties of the variant with a channel between tabs *)

Module TabsProperties.
Import Controller Tabs TabNotions.

Create HintDb tabs.

#[local] Hint Unfold
  setCallState setTargetClientId console_log console_error on_connection
  createPeerConnection Tabs.addLocalTracks Tabs.createOffer Tabs.handleOffer
  addIceCandidate : tabs.

Lemma triple_weaken {S A} (P Q : S -> Prop) (m : M S A) :
  preserves P m -> (forall s, P s -> Q s) -> triple P Q m.
Proof. intros Hm Hweaken s Hs. apply Hweaken, Hm, Hs. Qed.

Lemma triple_bind {S A B} (P Q : S -> Prop) (m : M S A) (k : A -> M S B) :
  preserves P m -> (forall s, P s -> Q s) -> (forall a, triple P Q (k a)) ->
  triple P Q (bind m k).
Proof.
  intros Hm Hweaken Hk s Hs. unfold bind. specialize (Hm s Hs).
  destruct (m s) as [[a|e] s1]; simpl in *.
  - apply Hk, Hm.
  - apply Hweaken, Hm.
Qed.

Lemma triple_try_catch {S A} (P Q : S -> Prop) (body : M S A) handler :
  triple P Q body -> (forall e, preserves Q (handler e)) ->
  triple P Q (try_catch body handler).
Proof.
  intros Hbody Hhandler s Hs. unfold try_catch. specialize (Hbody s Hs).
  destruct (body s) as [[a|e] s1]; simpl in *.
  - exact Hbody.
  - apply Hhandler, Hbody.
Qed.

(** A step of the client's state that leaves the sockets and the identity
    alone writes nothing. *)
Lemma on_world_quiet t0 {A} (m : M World A) :
  preserves (wire_of (world t0)) m -> preserves (quiet t0) (on_world m).
Proof.
  intros Hm t [Hposted Hwire]. unfold on_world. specialize (Hm (world t) Hwire).
  destruct (m (world t)) as [result w]. split; assumption.
Qed.

Lemma on_world_mirrored t0 {A} (m : M World A) :
  (forall w, sockets (snd (m w)) = sockets w) ->
  preserves (mirrored t0) (on_world m).
Proof.
  intros Hm t Hmirrored. unfold on_world. specialize (Hm (world t)).
  destruct (m (world t)) as [result w]. cbn [snd] in *.
  destruct Hmirrored
    as [[Hposted Hsockets]
       |(ws & s & full & Hws & Hs & Hopen & Hfrom & Hposted & Hsockets)].
  - left. cbn [world posted]. split; [exact Hposted|].
    rewrite Hm. exact Hsockets.
  - right. exists ws, s, full. cbn [world posted].
    repeat (split; [assumption|]). rewrite Hm. exact Hsockets.
Qed.

Lemma quiet_mirrored t0 t : quiet t0 t -> mirrored t0 t.
Proof. intros (Hposted & Hsockets & _). left. split; assumption. Qed.

Ltac wire := autounfold with tabs; preserve; assumption.

(** One step that writes nothing. *)
Ltac quiet_step :=
  first
    [ apply preserves_ret
    | apply preserves_lift
    | apply preserves_read
    | apply preserves_call
    | apply on_world_quiet; wire ].

Lemma sendMessage_mirrors t0 message :
  triple (quiet t0) (mirrored t0) (Tabs.sendMessage message).
Proof.
  intros t (Hposted & Hsockets & Hsocket & Hid).
  unfold Tabs.sendMessage. rewrite (bind_runs read _ t t t eq_refl).
  destruct (socket (world t)) as [ws|] eqn:Hws; [|left; split; assumption].
  destruct (sockets (world t) !! ws) as [s|] eqn:Hs; [|left; split; assumption].
  destruct (bool_decide (readyState s = OPEN)) eqn:Hopen; [|left; split; assumption].
  apply bool_decide_eq_true in Hopen. right.
  exists ws, s, (set_prop "from" (VStr (clientId (world t))) message).
  split; [congruence|]. split; [congruence|]. split; [exact Hopen|].
  split; [rewrite ControllerFurther.lookup_set_prop; congruence|].
  simpl. rewrite Hposted, Hsockets. split; reflexivity.
Qed.

(** Breaks a handler of the tab into its steps, up to its [sendMessage]. *)
Ltac mirror :=
  repeat first
    [ apply sendMessage_mirrors
    | apply triple_bind; [quiet_step|apply quiet_mirrored|intros ?]
    | apply triple_try_catch;
        [|intros ?; apply preserves_bind; [|intros ?];
          apply on_world_mirrored; intros ?; reflexivity]
    | match goal with
      | |- triple _ _ (match ?x with _ => _ end) => destruct x
      end
    | apply triple_weaken; [quiet_step|apply quiet_mirrored] ].

Lemma handleBroadcastMessage_mirrors t0 c message :
  triple (quiet t0) (mirrored t0) (handleBroadcastMessage c message).
Proof. unfold handleBroadcastMessage. mirror. Qed.

Lemma handleBroadcastMessage_returns c message t :
  exists t', handleBroadcastMessage c message t = (Normal tt, t').
Proof.
  unfold handleBroadcastMessage, try_catch.
  match goal with |- context [match ?body t with _ => _ end] =>
    destruct (body t) as [[[]|e] t1] end.
  - eexists. reflexivity.
  - eexists. reflexivity.
Qed.

(** X20.  Whatever a handler of this variant writes to the signalling socket
    it also posts, unserialized, to the channel between the tabs, and the
    other way round: a click on the call button, a message from the
    channel, a frame from the socket and [sendMessage] itself each write
    either nothing to either, or one message with the client's own id as
    [from] to both, the socket being the current one and open. *)
Theorem channel_mirrors_the_socket c t :
  mirrored t (exec (Tabs.initiateCall c) t) /\
  (forall message, mirrored t (exec (handleBroadcastMessage c message) t)) /\
  (forall data, mirrored t (exec (Tabs.handleWebSocketMessage c data) t)) /\
  (forall message, mirrored t (exec (Tabs.sendMessage message) t)).
Proof.
  assert (Hquiet : quiet t t) by (repeat split).
  split; [|split; [|split]].
  - refine ((_ : triple (quiet t) (mirrored t) _) t Hquiet).
    unfold Tabs.initiateCall. mirror.
  - intros message. apply (handleBroadcastMessage_mirrors t c message t Hquiet).
  - intros data.
    refine ((_ : triple (quiet t) (mirrored t) _) t Hquiet).
    unfold Tabs.handleWebSocketMessage. apply triple_try_catch.
    + apply triple_bind; [quiet_step|apply quiet_mirrored|intros message].
      apply handleBroadcastMessage_mirrors.
    + intros e. apply on_world_mirrored. intros w. reflexivity.
  - intros message. apply (sendMessage_mirrors t message t Hquiet).
Qed.

(** X21.  A frame from the socket that parses is handled exactly as the
    message it denotes is when it comes from the channel; one that does not
    parse is logged and changes nothing else: the call state stays as it
    is. *)
Theorem socket_frame_is_handled_as_channel_message c t :
  (forall message,
     Tabs.handleWebSocketMessage c (JSONText message) t
     = handleBroadcastMessage c message t) /\
  (forall text,
     Tabs.handleWebSocketMessage c (NotJSON text) t
     = (Normal tt,
        mkTab (with_console
                 (Error "Error parsing WebSocket message:" SyntaxError
                    :: console (world t)) (world t))
              (posted t))).
Proof.
  split.
  - intros message. unfold Tabs.handleWebSocketMessage.
    change (JSON_parse (JSONText message)) with (Normal message).
    rewrite try_catch_lift_normal. unfold try_catch.
    destruct (handleBroadcastMessage_returns c message t) as [t' Hrun].
    rewrite Hrun. reflexivity.
  - intros text. reflexivity.
Qed.

(** X22.  The tabs of one browser share the stored client id, so what a tab
    sends to another client, which it also posts to the channel, is dropped
    by each of its sibling tabs: the sibling's state does not change. *)
Theorem sibling_tab_ignores_addressed_frames c message t ws s peer sibling :
  socket (world t) = Some ws ->
  sockets (world t) !! ws = Some s ->
  readyState s = OPEN ->
  lookup_prop "target" message = VStr peer ->
  peer <> "" ->
  peer <> clientId (world t) ->
  clientId (world sibling) = clientId (world t) ->
  exists full t',
    Tabs.sendMessage message t = (Normal tt, t') /\
    posted t' = VObj full :: posted t /\
    handleBroadcastMessage c (VObj full) sibling = (Normal tt, sibling).
Proof.
  intros Hws Hs Hopen Htarget Hpeer Hother Hshared.
  exists (set_prop "from" (VStr (clientId (world t))) message). eexists.
  split; [|split].
  - unfold Tabs.sendMessage. rewrite (bind_runs read _ t t t eq_refl).
    rewrite Hws, Hs, bool_decide_eq_true_2 by exact Hopen. reflexivity.
  - reflexivity.
  - unfold handleBroadcastMessage. simpl get_prop.
    rewrite ControllerFurther.lookup_set_prop_other by discriminate.
    rewrite Htarget, try_catch_lift_normal, try_catch_read.
    simpl truthy. rewrite Hshared.
    rewrite bool_decide_eq_false_2 by exact Hpeer.
    unfold strict_eq_str. rewrite bool_decide_eq_false_2 by exact Hother.
    reflexivity.
Qed.

Lemma sibling_tab_ignores_addressed_frames_witness :
  exists full t',
    Tabs.sendMessage [("type", VStr "offer"); ("target", VStr "1111")] caller_tab
    = (Normal tt, t') /\
    posted t' = VObj full :: posted caller_tab /\
    handleBroadcastMessage Scenario.willing (VObj full) resting_tab
    = (Normal tt, resting_tab).
Proof.
  apply (sibling_tab_ignores_addressed_frames Scenario.willing
           [("type", VStr "offer"); ("target", VStr "1111")] caller_tab 0
           (mkWebSocket OPEN [JSONText (Examples.register_as "2222")]) "1111"
           resting_tab).
  - vm_compute. reflexivity.
  - vm_compute. reflexivity.
  - reflexivity.
  - reflexivity.
  - discriminate.
  - vm_compute. discriminate.
  - vm_compute. reflexivity.
Defined.

End TabsProperties.
